(** * decode.bundle.js: cipher, devtools monitor, backend selector, player

    A shallow embedding of [src/decode.bundle.js] and the properties of it
    that the specification states.  The file has two parts: the embedding
    (one module per source module) and then the theorems.

    JavaScript data is represented as follows.
    - A string is the list of its UTF-16 code units ([jsstring]).
    - A [Uint8Array] / [ArrayBuffer] is a [list byte].
    - An [async] function is its eventual outcome: [Return v] for a promise
      fulfilled with [v], [Throw e] for a rejected one.  Where the order of
      suspension points matters (the detector's poll loop) the coroutine is
      written out as a step function.
    - Calls into the browser ([crypto.subtle], [atob], timers, listeners) are
      recorded in an explicit trace next to the result. *)

From Stdlib Require Import String Ascii.
From Stdlib.Strings Require Import Byte.
From Stdlib Require Import ZArith NArith List Bool Lia.
Import ListNotations.

Local Open Scope N_scope.

(* ===================================================================== *)
(** ** JavaScript values *)
(* ===================================================================== *)

Module JS.

(** A string as its sequence of 16-bit code units. *)
Definition codeunit := N.
Definition jsstring := list codeunit.

(** A string literal of the source, for ASCII text. *)
Definition lit (s : string) : jsstring :=
  map N_of_ascii (list_ascii_of_string s).

(** The values that reach the cipher.  [VNumber] stands for the
    integer-valued numbers only. *)
Inductive value : Type :=
| VUndefined
| VNull
| VBool (b : bool)
| VNumber (n : Z)
| VString (s : jsstring)
| VBytes (b : list byte).

(** [ToBoolean]: what [!x] negates.  Objects, and so every typed array
    including the empty one, are truthy. *)
Definition truthy (v : value) : bool :=
  match v with
  | VUndefined | VNull => false
  | VBool b => b
  | VNumber n => negb (Z.eqb n 0)
  | VString s => match s with [] => false | _ :: _ => true end
  | VBytes _ => true
  end.

Definition falsy (v : value) : bool := negb (truthy v).

Inductive error : Type :=
| TypeError
| DataError
| OperationError
| InvalidCharacterError.

(** Completion of a call: a normal return or a thrown exception (for an
    [async] function: fulfilled or rejected). *)
Inductive result (A : Type) : Type :=
| Return (a : A)
| Throw (e : error).
Arguments Return {A} a.
Arguments Throw {A} e.

(** Storing a number into a [Uint8Array] element keeps it modulo 256. *)
Definition byte_of_N (n : N) : byte :=
  match Byte.of_N (n mod 256) with
  | Some b => b
  | None => x00
  end.

(** [String.fromCharCode(byte)]. *)
Definition fromCharCode (b : byte) : codeunit := Byte.to_N b.

End JS.
Import JS.

(* ===================================================================== *)
(** ** Text codecs of the platform: TextEncoder, TextDecoder, atob

    The browser's own functions, as the Encoding standard (UTF-8 encode
    and decode with replacement) and the HTML standard (forgiving base64)
    define them. *)
(* ===================================================================== *)

Module Text.

Definition is_high_surrogate (u : N) : bool := (0xD800 <=? u) && (u <=? 0xDBFF).
Definition is_low_surrogate (u : N) : bool := (0xDC00 <=? u) && (u <=? 0xDFFF).

(** UTF-8 bytes of one scalar value. *)
Definition encode_cp (c : N) : list byte :=
  if c <? 0x80 then [byte_of_N c]
  else if c <? 0x800 then
    [byte_of_N (0xC0 + c / 0x40); byte_of_N (0x80 + c mod 0x40)]
  else if c <? 0x10000 then
    [byte_of_N (0xE0 + c / 0x1000); byte_of_N (0x80 + (c / 0x40) mod 0x40);
     byte_of_N (0x80 + c mod 0x40)]
  else
    [byte_of_N (0xF0 + c / 0x40000); byte_of_N (0x80 + (c / 0x1000) mod 0x40);
     byte_of_N (0x80 + (c / 0x40) mod 0x40); byte_of_N (0x80 + c mod 0x40)].

(** [new TextEncoder().encode(s)]: surrogate pairs are combined, a lone
    surrogate becomes U+FFFD. *)
Fixpoint utf8_encode (s : jsstring) : list byte :=
  match s with
  | [] => []
  | u :: rest =>
      if is_high_surrogate u then
        match rest with
        | v :: rest' =>
            if is_low_surrogate v
            then encode_cp (0x10000 + (u - 0xD800) * 0x400 + (v - 0xDC00))
                   ++ utf8_encode rest'
            else encode_cp 0xFFFD ++ utf8_encode rest
        | [] => encode_cp 0xFFFD
        end
      else if is_low_surrogate u then encode_cp 0xFFFD ++ utf8_encode rest
      else encode_cp u ++ utf8_encode rest
  end.

(** Code units of one scalar value. *)
Definition units_of_cp (c : N) : jsstring :=
  if c <? 0x10000 then [c]
  else [0xD800 + (c - 0x10000) / 0x400; 0xDC00 + (c - 0x10000) mod 0x400].

(** State of the UTF-8 decoder between two bytes. *)
Record dstate : Type := mkD {
  d_cp : N;        (* code point being assembled *)
  d_need : nat;    (* continuation bytes still expected *)
  d_lower : N;     (* bounds for the next continuation byte *)
  d_upper : N
}.

Definition d_init : dstate := mkD 0 0 0x80 0xBF.

(** A byte met when no sequence is open. *)
Definition lead (b : N) : jsstring * dstate :=
  if b <=? 0x7F then ([b], d_init)
  else if (0xC2 <=? b) && (b <=? 0xDF) then ([], mkD (N.land b 0x1F) 1 0x80 0xBF)
  else if (0xE0 <=? b) && (b <=? 0xEF) then
    ([], mkD (N.land b 0xF) 2 (if b =? 0xE0 then 0xA0 else 0x80)
                              (if b =? 0xED then 0x9F else 0xBF))
  else if (0xF0 <=? b) && (b <=? 0xF4) then
    ([], mkD (N.land b 0x7) 3 (if b =? 0xF0 then 0x90 else 0x80)
                              (if b =? 0xF4 then 0x8F else 0xBF))
  else ([0xFFFD], d_init).

(** One byte of input; an ill-placed byte ends the open sequence with
    U+FFFD and is then read again as a leading byte. *)
Definition dstep (st : dstate) (b : N) : jsstring * dstate :=
  match d_need st with
  | O => lead b
  | S k =>
      if (d_lower st <=? b) && (b <=? d_upper st) then
        let cp := N.lor (N.shiftl (d_cp st) 6) (N.land b 0x3F) in
        match k with
        | O => (units_of_cp cp, d_init)
        | S _ => ([], mkD cp k 0x80 0xBF)
        end
      else
        let '(out, st') := lead b in (0xFFFD :: out, st')
  end.

Fixpoint decode_from (st : dstate) (bs : list byte) : jsstring :=
  match bs with
  | [] => match d_need st with O => [] | S _ => [0xFFFD] end
  | b :: rest =>
      let '(out, st') := dstep st (Byte.to_N b) in
      out ++ decode_from st' rest
  end.

(** [new TextDecoder().decode(buffer)]: UTF-8 with replacement, a leading
    byte order mark is dropped. *)
Definition utf8_decode (bs : list byte) : jsstring :=
  match decode_from d_init bs with
  | 0xFEFF :: s => s
  | s => s
  end.

(** *** atob: forgiving base64 *)

Definition is_ascii_whitespace (c : N) : bool :=
  (c =? 0x09) || (c =? 0x0A) || (c =? 0x0C) || (c =? 0x0D) || (c =? 0x20).

(** Value of a character of the base64 alphabet. *)
Definition b64_value (c : N) : option N :=
  if (0x41 <=? c) && (c <=? 0x5A) then Some (c - 0x41)            (* A-Z *)
  else if (0x61 <=? c) && (c <=? 0x7A) then Some (c - 0x61 + 26)  (* a-z *)
  else if (0x30 <=? c) && (c <=? 0x39) then Some (c - 0x30 + 52)  (* 0-9 *)
  else if c =? 0x2B then Some 62                                   (* + *)
  else if c =? 0x2F then Some 63                                   (* / *)
  else None.

Fixpoint b64_values (s : jsstring) : option (list N) :=
  match s with
  | [] => Some []
  | c :: rest =>
      match b64_value c, b64_values rest with
      | Some v, Some vs => Some (v :: vs)
      | _, _ => None
      end
  end.

(** Up to two trailing [=] are dropped when the length is a multiple of 4. *)
Definition strip_padding (s : jsstring) : jsstring :=
  if (N.of_nat (length s) mod 4 =? 0) then
    match rev s with
    | 0x3D :: 0x3D :: r => rev r
    | 0x3D :: r => rev r
    | _ => s
    end
  else s.

(** Groups of four 6-bit values give three bytes; a final group of two
    gives one byte and of three gives two, the spare bits being dropped. *)
Fixpoint b64_bytes (vs : list N) : jsstring :=
  match vs with
  | a :: b :: c :: d :: rest =>
      let n := a * 0x40000 + b * 0x1000 + c * 0x40 + d in
      (n / 0x10000) :: ((n / 0x100) mod 0x100) :: (n mod 0x100) :: b64_bytes rest
  | [a; b; c] =>
      let n := a * 0x1000 + b * 0x40 + c in
      [n / 0x400; (n / 4) mod 0x100]
  | [a; b] => [(a * 0x40 + b) / 0x10]
  | _ => []
  end.

(** The browser's own [atob]: throws [InvalidCharacterError] on input
    that is not base64. *)
Definition originalAtob (input : jsstring) : result jsstring :=
  let s := strip_padding (filter (fun c => negb (is_ascii_whitespace c)) input) in
  if (N.of_nat (length s) mod 4 =? 1) then Throw InvalidCharacterError
  else match b64_values s with
       | Some vs => Return (b64_bytes vs)
       | None => Throw InvalidCharacterError
       end.

(** Module '0xa10' ([patchAtob]): the replacement installed as
    [window.atob]; [try { return originalAtob(input) } catch (e) { return "" }]. *)
Definition atob (input : jsstring) : jsstring :=
  match originalAtob input with
  | Return s => s
  | Throw _ => []
  end.

End Text.

(* ===================================================================== *)
(** ** Module '0xdaf': the MD5 digest

    The source keeps of [md5] the signature and the remark "standard MD5
    implementation logic"; this module writes that algorithm out: four
    32-bit registers, padding to a 512-bit boundary with the length
    appended, blocks of 64 bytes, 64 rounds over the constant table. *)
(* ===================================================================== *)

Module MD5.

Definition add32 (a b : N) : N := (a + b) mod 0x100000000.
Definition not32 (a : N) : N := N.lxor a 0xFFFFFFFF.
Definition rotl32 (x n : N) : N :=
  N.lor (N.shiftl x n mod 0x100000000) (N.shiftr x (32 - n)).

(** The algorithm's constant table, [floor(2^32 * |sin(i + 1)|)]. *)
Definition K : list N :=
  [0xd76aa478; 0xe8c7b756; 0x242070db; 0xc1bdceee;
   0xf57c0faf; 0x4787c62a; 0xa8304613; 0xfd469501;
   0x698098d8; 0x8b44f7af; 0xffff5bb1; 0x895cd7be;
   0x6b901122; 0xfd987193; 0xa679438e; 0x49b40821;
   0xf61e2562; 0xc040b340; 0x265e5a51; 0xe9b6c7aa;
   0xd62f105d; 0x02441453; 0xd8a1e681; 0xe7d3fbc8;
   0x21e1cde6; 0xc33707d6; 0xf4d50d87; 0x455a14ed;
   0xa9e3e905; 0xfcefa3f8; 0x676f02d9; 0x8d2a4c8a;
   0xfffa3942; 0x8771f681; 0x6d9d6122; 0xfde5380c;
   0xa4beea44; 0x4bdecfa9; 0xf6bb4b60; 0xbebfbc70;
   0x289b7ec6; 0xeaa127fa; 0xd4ef3085; 0x04881d05;
   0xd9d4d039; 0xe6db99e5; 0x1fa27cf8; 0xc4ac5665;
   0xf4292244; 0x432aff97; 0xab9423a7; 0xfc93a039;
   0x655b59c3; 0x8f0ccc92; 0xffeff47d; 0x85845dd1;
   0x6fa87e4f; 0xfe2ce6e0; 0xa3014314; 0x4e0811a1;
   0xf7537e82; 0xbd3af235; 0x2ad7d2bb; 0xeb86d391].

(** Rotation amounts, per round. *)
Definition shift_amounts : list N :=
  [7; 12; 17; 22; 7; 12; 17; 22; 7; 12; 17; 22; 7; 12; 17; 22;
   5; 9; 14; 20; 5; 9; 14; 20; 5; 9; 14; 20; 5; 9; 14; 20;
   4; 11; 16; 23; 4; 11; 16; 23; 4; 11; 16; 23; 4; 11; 16; 23;
   6; 10; 15; 21; 6; 10; 15; 21; 6; 10; 15; 21; 6; 10; 15; 21].

(** Message padded to a 512-bit boundary: a 1 bit, zeros, and the bit
    length as 64 bits, least significant byte first. *)
Definition le_bytes (n : nat) (x : N) : list N :=
  map (fun i => (x / 2 ^ (8 * N.of_nat i)) mod 256) (seq 0 n).

Definition pad (msg : list N) : list N :=
  let len := N.of_nat (length msg) in
  let zeros := N.to_nat ((119 - len mod 64) mod 64) in
  msg ++ [0x80] ++ repeat 0 zeros ++ le_bytes 8 ((len * 8) mod 2 ^ 64).

Definition le_word (bs : list N) : N :=
  fold_right (fun b acc => b + 256 * acc) 0 bs.

(** The sixteen little-endian words of a 64-byte block. *)
Definition words (block : list N) : list N :=
  map (fun i => le_word (firstn 4 (skipn (4 * i) block))) (seq 0 16).

Record regs : Type := mkRegs { ra : N; rb : N; rc : N; rd : N }.

Definition init : regs := mkRegs 0x67452301 0xefcdab89 0x98badcfe 0x10325476.

(** One of the 64 mix-and-rotate rounds. *)
Definition round (M : list N) (r : regs) (i : nat) : regs :=
  let '(mkRegs a b c d) := r in
  let n := N.of_nat i in
  let '(f, g) :=
    if n <? 16 then (N.lor (N.land b c) (N.land (not32 b) d), n)
    else if n <? 32 then (N.lor (N.land d b) (N.land (not32 d) c), (5 * n + 1) mod 16)
    else if n <? 48 then (N.lxor (N.lxor b c) d, (3 * n + 5) mod 16)
    else (N.lxor c (N.lor b (not32 d)), (7 * n) mod 16) in
  let f' := add32 (add32 (add32 f a) (nth i K 0)) (nth (N.to_nat g) M 0) in
  mkRegs d (add32 b (rotl32 f' (nth i shift_amounts 0))) b c.

Definition process_block (r : regs) (block : list N) : regs :=
  let r' := fold_left (round (words block)) (seq 0 64) r in
  mkRegs (add32 (ra r) (ra r')) (add32 (rb r) (rb r'))
         (add32 (rc r) (rc r')) (add32 (rd r) (rd r')).

(** The first [n] blocks of 64 bytes. *)
Fixpoint blocks (n : nat) (bs : list N) : list (list N) :=
  match n with
  | O => []
  | S n' => firstn 64 bs :: blocks n' (skipn 64 bs)
  end.

(** Modelled from the spec: the body of [md5] is elided in the source
    ("Standard MD5 implementation logic"); this is the 128-bit digest of
    section 4.1, as raw bytes. *)
Definition digest (msg : list byte) : list byte :=
  let p := pad (map Byte.to_N msg) in
  let r := fold_left process_block (blocks (length p / 64) p) init in
  map byte_of_N
      (le_bytes 4 (ra r) ++ le_bytes 4 (rb r) ++ le_bytes 4 (rc r) ++ le_bytes 4 (rd r)).

Definition hex_digit (n : N) : codeunit :=
  if n <? 10 then 0x30 + n else 0x61 + (n - 10).

(** Lowercase hexadecimal text of a byte sequence. *)
Definition hex (bs : list byte) : jsstring :=
  flat_map (fun b => [hex_digit (Byte.to_N b / 16); hex_digit (Byte.to_N b mod 16)]) bs.

(** Modelled from the spec: [md5(message)] as the source calls it, with
    no options: the digest of the message as lowercase hex text.  A
    string message is hashed as its UTF-8 bytes, a byte array as it is;
    the elided body is taken to reject any other argument. *)
Definition md5 (message : value) : result jsstring :=
  match message with
  | VString s => Return (hex (digest (Text.utf8_encode s)))
  | VBytes b => Return (hex (digest b))
  | _ => Throw TypeError
  end.

End MD5.

(* ===================================================================== *)
(** ** The platform's block cipher (what [crypto.subtle] runs for AES)

    The forward cipher of the AES standard for keys of 128, 192 and 256
    bits.  The properties below hold of counter mode over any block
    function; this one makes the model run. *)
(* ===================================================================== *)

Module AES.

(** Arithmetic of GF(2^8) modulo x^8 + x^4 + x^3 + x + 1. *)
Definition xtime (b : N) : N :=
  N.lxor ((2 * b) mod 256) (if 128 <=? b then 0x1b else 0).

Fixpoint gmul_bits (n : nat) (a b : N) : N :=
  match n with
  | O => 0
  | S n' => N.lxor (if N.odd b then a else 0) (gmul_bits n' (xtime a) (b / 2))
  end.

Definition gmul (a b : N) : N := gmul_bits 8 a b.

(** The inverse as the 254th power; 0 is mapped to 0. *)
Definition ginv (a : N) : N :=
  let a2 := gmul a a in
  let a4 := gmul a2 a2 in
  let a8 := gmul a4 a4 in
  let a16 := gmul a8 a8 in
  let a32 := gmul a16 a16 in
  let a64 := gmul a32 a32 in
  let a128 := gmul a64 a64 in
  gmul a2 (gmul a4 (gmul a8 (gmul a16 (gmul a32 (gmul a64 a128))))).

Definition rotl8 (x n : N) : N :=
  N.lor (N.shiftl x n mod 256) (N.shiftr x (8 - n)).

Definition sbox_of (b : N) : N :=
  let i := ginv b in
  N.lxor (N.lxor (N.lxor (N.lxor (N.lxor i (rotl8 i 1)) (rotl8 i 2)) (rotl8 i 3))
                 (rotl8 i 4)) 0x63.

Definition sbox_table : list N :=
  Eval vm_compute in map (fun i => sbox_of (N.of_nat i)) (seq 0 256).

Definition sbox (b : N) : N := nth (N.to_nat b) sbox_table 0.

Definition xor_bytes (a b : list N) : list N :=
  map (fun p => N.lxor (fst p) (snd p)) (combine a b).

(** *** Key schedule *)

Definition rot_word (w : list N) : list N :=
  match w with
  | a :: rest => rest ++ [a]
  | [] => []
  end.

Definition rcon (j : nat) : N := Nat.iter (j - 1) xtime 1.

Fixpoint expand (n nk : nat) (w : list (list N)) : list (list N) :=
  match n with
  | O => w
  | S n' =>
      let i := length w in
      let prev := nth (i - 1) w [] in
      let temp :=
        if Nat.eqb (i mod nk) 0
        then xor_bytes (map sbox (rot_word prev)) [rcon (i / nk); 0; 0; 0]
        else if Nat.ltb 6 nk && Nat.eqb (i mod nk) 4 then map sbox prev
        else prev in
      expand n' nk (w ++ [xor_bytes (nth (i - nk) w []) temp])
  end.

Fixpoint words4 (n : nat) (bs : list N) : list (list N) :=
  match n with
  | O => []
  | S n' => firstn 4 bs :: words4 n' (skipn 4 bs)
  end.

(** Round keys of a 16-, 24- or 32-byte key: [Nr + 1] blocks of 16
    bytes, where [Nr = Nk + 6]. *)
Definition key_schedule (key : list byte) : list (list N) :=
  let nk := (length key / 4)%nat in
  let w := expand (4 * (nk + 7) - nk) nk (words4 nk (map Byte.to_N key)) in
  map (fun r => concat (firstn 4 (skipn (4 * r) w))) (seq 0 (nk + 7)).

(** *** Rounds; the state is the block's 16 bytes, column after column *)

Definition shift_rows (s : list N) : list N :=
  map (fun i => nth (i mod 4 + 4 * ((i / 4 + i mod 4) mod 4))%nat s 0) (seq 0 16).

Definition mix_column (c : list N) : list N :=
  match c with
  | [a0; a1; a2; a3] =>
      [N.lxor (N.lxor (gmul 2 a0) (gmul 3 a1)) (N.lxor a2 a3);
       N.lxor (N.lxor a0 (gmul 2 a1)) (N.lxor (gmul 3 a2) a3);
       N.lxor (N.lxor a0 a1) (N.lxor (gmul 2 a2) (gmul 3 a3));
       N.lxor (N.lxor (gmul 3 a0) a1) (N.lxor a2 (gmul 2 a3))]
  | _ => c
  end.

Definition mix_columns (s : list N) : list N :=
  flat_map (fun c => mix_column (firstn 4 (skipn (4 * c) s))) (seq 0 4).

Definition middle_round (s rk : list N) : list N :=
  xor_bytes (mix_columns (shift_rows (map sbox s))) rk.

Definition final_round (s rk : list N) : list N :=
  xor_bytes (shift_rows (map sbox s)) rk.

Definition be_bytes (n : nat) (x : N) : list N :=
  map (fun i => (x / 2 ^ (8 * N.of_nat (n - 1 - i))) mod 256) (seq 0 n).

Definition be_value (bs : list N) : N :=
  fold_left (fun acc b => acc * 256 + b) bs 0.

(** The forward cipher on one 128-bit block, the block being read as a
    big-endian integer. *)
Definition encrypt_block (rks : list (list N)) (block : N) : N :=
  match rks with
  | [] => block
  | rk0 :: rest =>
      let s0 := xor_bytes (be_bytes 16 block) rk0 in
      let s := fold_left middle_round (removelast rest) s0 in
      be_value (final_round s (last rest []))
  end.

End AES.

(* ===================================================================== *)
(** ** The platform's AES-CTR operation

    Counter mode as the Web Cryptography API runs it: the key stream is
    the cipher applied to successive counter blocks. *)
(* ===================================================================== *)

Module CTR.

Definition bytes_value (bs : list byte) : N :=
  fold_left (fun acc b => acc * 256 + Byte.to_N b) bs 0.

Definition value_bytes (x : N) : list byte :=
  map byte_of_N (AES.be_bytes 16 x).

Definition bxor (a b : byte) : byte :=
  byte_of_N (N.lxor (Byte.to_N a) (Byte.to_N b)).

(** Byte-wise exclusive or with a key stream that is long enough. *)
Fixpoint xor_stream (data ks : list byte) : list byte :=
  match data, ks with
  | d :: data', k :: ks' => bxor d k :: xor_stream data' ks'
  | _, _ => []
  end.

(** The [j]-th counter block: the rightmost [len] bits count modulo
    [2^len], the bits to their left stay. *)
Definition counter_block (ctr len : N) (j : nat) : N :=
  (ctr / 2 ^ len) * 2 ^ len + (ctr mod 2 ^ len + N.of_nat j) mod 2 ^ len.

Definition keystream (E : N -> N) (ctr len : N) (n : nat) : list byte :=
  firstn n (flat_map (fun j => value_bytes (E (counter_block ctr len j)))
                     (seq 0 ((n + 15) / 16))).

(** Counter mode: the same transform encrypts and decrypts. *)
Definition transform (E : N -> N) (ctr len : N) (data : list byte) : list byte :=
  xor_stream data (keystream E ctr len (length data)).

End CTR.

(* ===================================================================== *)
(** ** [crypto.subtle] for the algorithm "AES-CTR" *)
(* ===================================================================== *)

Module Subtle.

(** The algorithm object: [{ name: "AES-CTR", length: 128, counter }];
    [counter] is absent until [expandKey] assigns it. *)
Record AesConfig : Type := mkConfig {
  alg_name : string;
  alg_length : N;
  alg_counter : option (list byte)
}.

(** A non-extractable raw AES key. *)
Record CryptoKey : Type := mkKey { key_data : list byte }.

(** [importKey("raw", keyData, ...)]: the key must have 128, 192 or 256
    bits. *)
Definition importKey (keyData : list byte) : result CryptoKey :=
  let n := length keyData in
  if Nat.eqb n 16 || Nat.eqb n 24 || Nat.eqb n 32
  then Return (mkKey keyData)
  else Throw DataError.

(** [encrypt(alg, key, data)] and [decrypt(alg, key, data)] are the same
    operation in counter mode.  [data] must be a buffer, the counter 16
    bytes and the counter length between 1 and 128 bits. *)
Definition aes_ctr (alg : AesConfig) (key : CryptoKey) (data : value)
  : result (list byte) :=
  match data with
  | VBytes bs =>
      match alg_counter alg with
      | None => Throw TypeError
      | Some c =>
          if negb (Nat.eqb (length c) 16) || (alg_length alg =? 0)
             || (128 <? alg_length alg)
          then Throw OperationError
          else Return (CTR.transform
                         (AES.encrypt_block (AES.key_schedule (key_data key)))
                         (CTR.bytes_value c) (alg_length alg) bs)
      end
  | _ => Throw TypeError
  end.

End Subtle.

(* ===================================================================== *)
(** ** Module '0x942': AesCtrCipher *)
(* ===================================================================== *)

Module AesCtrCipher.
Import Subtle.

(** The closure variables of one [AesCtrCipher] instance. *)
Record cipher : Type := mkCipher {
  cryptoKey : option CryptoKey;
  aesConfig : AesConfig
}.

(** [new AesCtrCipher()]. *)
Definition create : cipher :=
  mkCipher None (mkConfig "AES-CTR" 128 None).

(** Calls into the platform that a method makes, in order. *)
Inductive call : Type :=
| CallImportKey (keyData : list byte)
| CallEncrypt (data : value)
| CallDecrypt (data : value)
| CallAtob (input : jsstring).

(** A method body: it reads and updates the instance, appends to the
    call trace, and returns or throws. *)
Definition M (A : Type) : Type := cipher * list call -> result A * (cipher * list call).

Definition ret {A} (a : A) : M A := fun w => (Return a, w).

Definition bind {A B} (m : M A) (f : A -> M B) : M B :=
  fun w => match m w with
           | (Return a, w') => f a w'
           | (Throw e, w') => (Throw e, w')
           end.

Definition try_catch {A} (m : M A) (handler : error -> M A) : M A :=
  fun w => match m w with
           | (Return a, w') => (Return a, w')
           | (Throw e, w') => handler e w'
           end.

Definition lift {A} (r : result A) : M A := fun w => (r, w).
Definition get : M cipher := fun w => (Return (fst w), w).
Definition put (c : cipher) : M unit := fun w => (Return tt, (c, snd w)).
Definition log (c : call) : M unit := fun w => (Return tt, (fst w, snd w ++ [c])).

Declare Scope cipher_scope.
Delimit Scope cipher_scope with cipher.
Notation "x <- m ;; k" := (bind m (fun x => k))
  (at level 61, m at next level, right associativity) : cipher_scope.
Notation "m ;; k" := (bind m (fun _ => k))
  (at level 61, right associativity) : cipher_scope.
Local Open Scope cipher_scope.

(** [/[\s\S]/g]: every code unit is a match of its own; [match] gives
    [null] when there is none. *)
Definition match_every_char (s : jsstring) : option (list jsstring) :=
  match s with
  | [] => None
  | _ :: _ => Some (map (fun c => [c]) s)
  end.

(** [char.charCodeAt(0)], as stored into a [Uint8Array]. *)
Definition charCode (char : jsstring) : byte :=
  match char with
  | c :: _ => byte_of_N c
  | [] => x00
  end.

(** [expandKey(keyString)]. *)
Definition expandKey (keyString : value) : M bool :=
  if falsy keyString then ret false
  else
    md5Hash <- lift (MD5.md5 keyString) ;;
    let keyData := Text.utf8_encode md5Hash in
    self <- get ;;
    put (mkCipher (cryptoKey self)
                  (mkConfig (alg_name (aesConfig self)) (alg_length (aesConfig self))
                            (Some (firstn 16 keyData)))) ;;
    try_catch
      (log (CallImportKey keyData) ;;
       key <- lift (importKey keyData) ;;
       self <- get ;;
       put (mkCipher (Some key) (aesConfig self)) ;;
       ret true)
      (fun _ => ret false).

(** [encrypt(data)]. *)
Definition encrypt (data : value) : M value :=
  self <- get ;;
  match falsy data, cryptoKey self with
  | false, Some key =>
      let data :=
        match data with
        | VString s => VBytes (Text.utf8_encode s)
        | _ => data
        end in
      log (CallEncrypt data) ;;
      encryptedBuffer <- lift (aes_ctr (aesConfig self) key data) ;;
      ret (VString (map fromCharCode encryptedBuffer))
  | _, _ => ret data
  end.

(** [decrypt(data)]. *)
Definition decrypt (data : value) : M value :=
  self <- get ;;
  match falsy data, cryptoKey self with
  | false, Some key =>
      match data with
      | VString s =>
          log (CallAtob s) ;;
          let binaryString := Text.atob s in
          let bytes :=
            map charCode
                (match match_every_char binaryString with
                 | Some chars => chars
                 | None => []
                 end) in
          log (CallDecrypt (VBytes bytes)) ;;
          decryptedBuffer <- lift (aes_ctr (aesConfig self) key (VBytes bytes)) ;;
          ret (VString (Text.utf8_decode decryptedBuffer))
      | _ =>
          log (CallDecrypt data) ;;
          decryptedBuffer <- lift (aes_ctr (aesConfig self) key data) ;;
          ret (VBytes decryptedBuffer)
      end
  | _, _ => ret data
  end.

(** The bytes that [encrypt] hands to the cipher, for a string or a
    buffer. *)
Definition payload (data : value) : option (list byte) :=
  match data with
  | VString s => Some (Text.utf8_encode s)
  | VBytes b => Some b
  | _ => None
  end.

(** The bytes behind the string that [encrypt] returns: one per
    character, [Uint8Array.from(text, ch => ch.charCodeAt(0))]. *)
Definition char_codes (text : jsstring) : list byte := map byte_of_N text.

(** The cipher transform of an instance with the given key and
    counter. *)
Definition keyed_transform (key : CryptoKey) (c : list byte)
  : list byte -> list byte :=
  CTR.transform (AES.encrypt_block (AES.key_schedule (key_data key)))
                (CTR.bytes_value c) 128.

Definition is_hex_char (b : byte) : bool :=
  let n := Byte.to_N b in
  ((0x30 <=? n) && (n <=? 0x39)) || ((0x61 <=? n) && (n <=? 0x66)).

(** A later call of one of the two data methods. *)
Inductive request : Type :=
| Encrypt (data : value)
| Decrypt (data : value).

Definition argument (r : request) : value :=
  match r with Encrypt data | Decrypt data => data end.

Definition invoke (r : request) : M value :=
  match r with
  | Encrypt data => encrypt data
  | Decrypt data => decrypt data
  end.

(** A method call on an instance, from an empty trace. *)
Definition run {A} (m : M A) (self : cipher) : result A * (cipher * list call) :=
  m (self, []).

Definition outcome {A} (m : M A) (self : cipher) : result A := fst (run m self).
Definition after {A} (m : M A) (self : cipher) : cipher := fst (snd (run m self)).
Definition calls {A} (m : M A) (self : cipher) : list call := snd (snd (run m self)).

(** Requests served one after the other; each with its result and the
    platform calls it made. *)
Fixpoint serve (rs : list request) (self : cipher)
  : list (result value * list call) * cipher :=
  match rs with
  | [] => ([], self)
  | r :: rest =>
      let '(answers, final) := serve rest (after (invoke r) self) in
      ((outcome (invoke r) self, calls (invoke r) self) :: answers, final)
  end.

(** Any of the three methods, called with some argument. *)
Inductive method : Type :=
| ExpandKey (keyString : value)
| Data (r : request).

(** The instance after one call, whether it returned or threw, and after
    a sequence of calls. *)
Definition instance_after (m : method) (self : cipher) : cipher :=
  match m with
  | ExpandKey keyString => after (expandKey keyString) self
  | Data r => after (invoke r) self
  end.

Definition instance_after_all (ms : list method) (self : cipher) : cipher :=
  fold_left (fun self m => instance_after m self) ms self.

End AesCtrCipher.

(* ===================================================================== *)
(** ** Module '0x26b': DevtoolsDetector *)
(* ===================================================================== *)

Module DevtoolsDetector.
Section Detector.

(** What the checkers look at: the state of the browser at the moment
    of a call. *)
Context {env : Type}.

Record Checker : Type := mkChecker {
  checker_name : string;
  checker_isEnable : env -> bool;
  checker_isOpen : env -> bool
}.

(** The object handed to listeners: [{ isOpen, checkerName }]. *)
Record status : Type := mkStatus {
  status_isOpen : bool;
  status_checkerName : string
}.

(** A registered callback.  What it does lies outside the detector; it
    returns or throws. *)
Record Listener : Type := mkListener {
  listener_id : nat;
  listener_call : bool -> status -> result unit
}.

(** What can be observed of a run. *)
Inductive event : Type :=
| CalledIsEnable (checker : string)
| CalledIsOpen (checker : string)
| Broadcast (st : status)
| Notified (listener : nat) (isOpen : bool) (st : status).

(** The fields of a [DevtoolsDetector]. *)
Record detector : Type := mkDetector {
  listeners : list Listener;
  isOpen : bool;
  detectLoopStopped : bool;
  detectLoopDelay : Z;
  checkers : list Checker;
  timer : option nat
}.

(** [new DevtoolsDetector(config)]. *)
Definition create (config_checkers : list Checker) : detector :=
  mkDetector [] false true 500 config_checkers None.

(** A [detectLoop] call suspended at one of its two [await]s, with the
    value awaited and the locals it resumes with. *)
Inductive frame : Type :=
| AwaitIsEnable (checker : Checker) (rest : list Checker)
                (isDevtoolsOpen : bool) (checkerName : string) (awaited : bool)
| AwaitIsOpen (checker : Checker) (rest : list Checker)
              (checkerName : string) (awaited : bool).

(** The detector within the event loop: its fields, the browser's
    pending timeouts (each one's callback is [() => this.detectLoop()]),
    the suspended [detectLoop] calls and the events so far. *)
Record system : Type := mkSystem {
  this : detector;
  pending : list nat;
  next_timer : nat;
  suspended : list frame;
  events : list event
}.

Definition boot (config_checkers : list Checker) : system :=
  mkSystem (create config_checkers) [] 0 [] [].

Definition set_this (d : detector) (s : system) : system :=
  mkSystem d (pending s) (next_timer s) (suspended s) (events s).

Definition emit (e : event) (s : system) : system :=
  mkSystem (this s) (pending s) (next_timer s) (suspended s) (events s ++ [e]).

Definition suspend (f : frame) (s : system) : system :=
  mkSystem (this s) (pending s) (next_timer s) (suspended s ++ [f]) (events s).

(** [clearTimeout(id)]; nothing happens for an id that is not pending. *)
Definition clearTimeout (id : option nat) (s : system) : system :=
  match id with
  | None => s
  | Some t =>
      mkSystem (this s) (filter (fun p => negb (Nat.eqb p t)) (pending s))
               (next_timer s) (suspended s) (events s)
  end.

(** [this.timer = setTimeout(() => this.detectLoop(), this.detectLoopDelay)]. *)
Definition setTimeout_detectLoop (s : system) : system :=
  let d := this s in
  mkSystem (mkDetector (listeners d) (isOpen d) (detectLoopStopped d)
                       (detectLoopDelay d) (checkers d) (Some (next_timer s)))
           (pending s ++ [next_timer s]) (S (next_timer s)) (suspended s) (events s).

(** [stop()]. *)
Definition stop (s : system) : system :=
  let d := this s in
  if negb (detectLoopStopped d) then
    clearTimeout (timer d)
      (set_this (mkDetector (listeners d) false true (detectLoopDelay d)
                            (checkers d) (timer d)) s)
  else s.

(** [addListener(callback)]. *)
Definition addListener (callback : Listener) (s : system) : system :=
  let d := this s in
  set_this (mkDetector (listeners d ++ [callback]) (isOpen d) (detectLoopStopped d)
                       (detectLoopDelay d) (checkers d) (timer d)) s.

(** The loop of [broadcast(status)]: each call sits in a [try] whose
    [catch] is empty. *)
Fixpoint notify (ls : list Listener) (st : status) (log : list event)
  : result unit * list event :=
  match ls with
  | [] => (Return tt, log)
  | listener :: rest =>
      let log := log ++ [Notified (listener_id listener) (status_isOpen st) st] in
      match listener_call listener (status_isOpen st) st with
      | Return _ => notify rest st log
      | Throw _ => notify rest st log
      end
  end.

(** [broadcast(status)], with the exception it lets escape, if any. *)
Definition broadcast (st : status) (s : system) : result unit * system :=
  let '(r, log) := notify (listeners (this s)) st (events s ++ [Broadcast st]) in
  (r, mkSystem (this s) (pending s) (next_timer s) (suspended s) log).

(** The end of [detectLoop]: the next poll is scheduled, or the
    detector stops. *)
Definition reschedule (s : system) : system :=
  if (0 <? detectLoopDelay (this s))%Z && negb (detectLoopStopped (this s))
  then setTimeout_detectLoop s
  else stop s.

(** The part of [detectLoop] after the [for] loop.  An exception out of
    [broadcast] would end the call before it reschedules. *)
Definition conclude (isDevtoolsOpen : bool) (checkerName : string) (s : system)
  : system :=
  let d := this s in
  if negb (Bool.eqb isDevtoolsOpen (isOpen d)) then
    let s := set_this (mkDetector (listeners d) isDevtoolsOpen (detectLoopStopped d)
                                  (detectLoopDelay d) (checkers d) (timer d)) s in
    match broadcast (mkStatus isDevtoolsOpen checkerName) s with
    | (Return _, s) => reschedule s
    | (Throw _, s) => s
    end
  else reschedule s.

(** The [for] loop from its head: either the checkers are used up, or
    the next one's [isEnable()] is called and awaited. *)
Definition iterate (e : env) (cs : list Checker) (isDevtoolsOpen : bool)
           (checkerName : string) (s : system) : system :=
  match cs with
  | [] => conclude isDevtoolsOpen checkerName s
  | checker :: rest =>
      suspend (AwaitIsEnable checker rest isDevtoolsOpen checkerName
                             (checker_isEnable checker e))
              (emit (CalledIsEnable (checker_name checker)) s)
  end.

(** [detectLoop()] up to its first [await]. *)
Definition detectLoop (e : env) (s : system) : system :=
  iterate e (checkers (this s)) false EmptyString s.

(** A suspended [detectLoop] continues, up to its next [await] or to
    its end. *)
Definition continue (e : env) (f : frame) (s : system) : system :=
  match f with
  | AwaitIsEnable checker rest isDevtoolsOpen checkerName true =>
      suspend (AwaitIsOpen checker rest (checker_name checker)
                           (checker_isOpen checker e))
              (emit (CalledIsOpen (checker_name checker)) s)
  | AwaitIsEnable checker rest isDevtoolsOpen checkerName false =>
      iterate e rest isDevtoolsOpen checkerName s
  | AwaitIsOpen checker rest checkerName true =>
      conclude true checkerName s
  | AwaitIsOpen checker rest checkerName false =>
      iterate e rest false checkerName s
  end.

(** Modelled from the spec: [setDetectDelay] is called by [launch] but
    its body is not in the source; a non-positive delay is reset to the
    value given. *)
Definition setDetectDelay (value : Z) (s : system) : system :=
  let d := this s in
  set_this (mkDetector (listeners d) (isOpen d) (detectLoopStopped d) value
                       (checkers d) (timer d)) s.

(** [launch()]. *)
Definition launch (e : env) (s : system) : system :=
  let s := if (detectLoopDelay (this s) <=? 0)%Z then setDetectDelay 500 s else s in
  let d := this s in
  if detectLoopStopped d then
    detectLoop e
      (set_this (mkDetector (listeners d) (isOpen d) false (detectLoopDelay d)
                            (checkers d) (timer d)) s)
  else s.

(** What the event loop can run next. *)
Inductive action : Type :=
| Launch (e : env)
| Stop
| AddListener (callback : Listener)
| Fire (id : nat) (e : env)       (* the timeout [id] expires *)
| Resume (k : nat) (e : env).     (* the [k]-th suspended call continues *)

Fixpoint drop_nth {A} (k : nat) (l : list A) : list A :=
  match k, l with
  | _, [] => []
  | O, _ :: l' => l'
  | S k', x :: l' => x :: drop_nth k' l'
  end.

Definition step (s : system) (a : action) : system :=
  match a with
  | Launch e => launch e s
  | Stop => stop s
  | AddListener callback => addListener callback s
  | Fire id e =>
      if existsb (Nat.eqb id) (pending s) then
        detectLoop e (mkSystem (this s) (filter (fun p => negb (Nat.eqb p id)) (pending s))
                               (next_timer s) (suspended s) (events s))
      else s
  | Resume k e =>
      match nth_error (suspended s) k with
      | Some f =>
          continue e f (mkSystem (this s) (pending s) (next_timer s)
                                 (drop_nth k (suspended s)) (events s))
      | None => s
      end
  end.

Definition steps (s : system) (acts : list action) : system :=
  fold_left step acts s.

(** A poll that nothing interrupts, in an environment that stays as it
    is: each [await] is followed at once by its continuation.  A checker
    takes at most two continuations. *)
Definition settle (e : env) (n : nat) (s : system) : system :=
  Nat.iter n (fun s => step s (Resume 0 e)) s.

Definition tick (e : env) (s : system) : system :=
  match timer (this s) with
  | Some id => settle e (2 * length (checkers (this s))) (step s (Fire id e))
  | None => s
  end.

Definition launch_and_poll (e : env) (s : system) : system :=
  settle e (2 * length (checkers (this s))) (step s (Launch e)).

(** A poll from its start, nothing interrupting it. *)
Definition poll (e : env) (s : system) : system :=
  settle e (2 * length (checkers (this s))) (detectLoop e s).

(** The checkers a poll gets to: those up to and including the first one
    that is enabled and reports open, all of them if there is none. *)
Fixpoint consulted (e : env) (cs : list Checker) : list Checker :=
  match cs with
  | [] => []
  | c :: rest =>
      if checker_isEnable c e && checker_isOpen c e then [c]
      else c :: consulted e rest
  end.

(** The calls a poll makes on one checker. *)
Definition calls_of (e : env) (c : Checker) : list event :=
  CalledIsEnable (checker_name c)
    :: (if checker_isEnable c e then [CalledIsOpen (checker_name c)] else []).

(** The values of [isDevtoolsOpen] and [checkerName] after the [for]
    loop. *)
Fixpoint verdict (e : env) (cs : list Checker) (isDevtoolsOpen : bool)
         (checkerName : string) : bool * string :=
  match cs with
  | [] => (isDevtoolsOpen, checkerName)
  | c :: rest =>
      if checker_isEnable c e then
        if checker_isOpen c e then (true, checker_name c)
        else verdict e rest false (checker_name c)
      else verdict e rest isDevtoolsOpen checkerName
  end.

(** [addListener] for each callback of a list, in order. *)
Definition register (callbacks : list Listener) (s : system) : system :=
  fold_left (fun s callback => addListener callback s) callbacks s.

(** A detector that is running and between two polls: open, with the
    next poll scheduled as timeout [t]. *)
Definition waiting_open (ls : list Listener) (cs : list Checker) (t : nat)
           (log : list event) : system :=
  mkSystem (mkDetector ls true false 500 cs (Some t)) [t] (S t) [] log.

Definition not_launch (a : action) : Prop :=
  match a with
  | Launch _ => False
  | _ => True
  end.

(** Stopped for good: nothing pending and nothing suspended. *)
Definition halted (s : system) : Prop :=
  detectLoopStopped (this s) = true /\ isOpen (this s) = false /\
  pending s = [] /\ suspended s = [].

Definition with_isOpen (o : bool) (d : detector) : detector :=
  mkDetector (listeners d) o (detectLoopStopped d) (detectLoopDelay d)
             (checkers d) (timer d).

Definition record (evs : list event) (s : system) : system :=
  mkSystem (this s) (pending s) (next_timer s) (suspended s) (events s ++ evs).

Definition checker_calls (log : list event) : list event :=
  filter (fun ev => match ev with
                    | CalledIsEnable _ | CalledIsOpen _ => true
                    | _ => false
                    end) log.

Definition broadcasts (log : list event) : list status :=
  flat_map (fun ev => match ev with Broadcast st => [st] | _ => [] end) log.

Definition notifications (log : list event) : list (nat * bool * status) :=
  flat_map (fun ev => match ev with
                      | Notified l o st => [(l, o, st)]
                      | _ => []
                      end) log.

(** A checker that is enabled and reports open. *)
Definition reports_open (e : env) (c : Checker) : bool :=
  checker_isEnable c e && checker_isOpen c e.

(** The checker name a poll ends with: that of the first checker that
    reports open, else that of the last enabled one, else the empty
    string. *)
Definition reported_name (e : env) (cs : list Checker) : string :=
  match find (reports_open e) cs with
  | Some c => checker_name c
  | None =>
      last (map checker_name (filter (fun c => checker_isEnable c e) cs)) EmptyString
  end.

(** Running and between two polls: nothing suspended, and the one
    timeout pending is the one in [this.timer]. *)
Definition between_polls (s : system) : Prop :=
  detectLoopStopped (this s) = false /\
  (0 < detectLoopDelay (this s))%Z /\
  suspended s = [] /\
  exists t, timer (this s) = Some t /\ pending s = [t].

(** The call of [detectLoop] that was suspended last continues; and does
    so [n] times. *)
Definition resume_last (e : env) (s : system) : system :=
  step s (Resume (length (suspended s) - 1) e).

Definition finish_last (e : env) (n : nat) (s : system) : system :=
  Nat.iter n (resume_last e) s.

(** One tick after the other, each in the environment of its time. *)
Definition ticks (es : list env) (s : system) : system :=
  fold_left (fun s e => tick e s) es s.

End Detector.
Arguments Checker : clear implicits.
Arguments frame : clear implicits.
Arguments detector : clear implicits.
Arguments system : clear implicits.
Arguments action : clear implicits.
End DevtoolsDetector.

(* ===================================================================== *)
(** ** Module '0x22df': Mp4Player, the backend selector *)
(* ===================================================================== *)

Module Mp4Player.

(** The four playback backends. *)
Inductive implementation : Type :=
| Mp4PlayerSW        (* service worker: stream interception *)
| Mp4PlayerBox       (* media source extensions: source buffering *)
| Mp4PlayerNative    (* the native video element *)
| Mp4PlayerVideo.    (* direct video source *)

(** The facts about the browser that [setup] reads.  In module '0x22df'
    the last three are the constants [false], [false] and [true]. *)
Record capabilities : Type := mkCapabilities {
  isMediaSourceSupported : bool;
  isServiceWorkerSupported : bool;
  isEdgeAndroid : bool;
  isHeyTapBrowser : bool;
  isChromeVersionOk : bool
}.

Definition bundle_capabilities (mediaSource serviceWorker : bool) : capabilities :=
  mkCapabilities mediaSource serviceWorker false false true.

(** The value of [playerImplementation] when [setup] calls
    [playerImplementation.setup()].  [new C(config)] yields an object,
    which is never [null]. *)
Definition setup (c : capabilities) : option implementation :=
  let playerImplementation : option implementation :=
    if isServiceWorkerSupported c && negb (isEdgeAndroid c)
       && negb (isHeyTapBrowser c) && isChromeVersionOk c
    then Some Mp4PlayerSW
    else if isMediaSourceSupported c then Some Mp4PlayerBox
    else Some Mp4PlayerNative in
  let playerImplementation :=
    match playerImplementation with
    | None => Some Mp4PlayerVideo
    | Some _ => playerImplementation
    end in
  playerImplementation.

(** The selection order as section 4.5 of the specification words it,
    over the capabilities it names; for comparison with [setup]. *)
Record spec_capabilities : Type := mkSpecCapabilities {
  interception : bool;
  denyListed : bool;
  versionGate : bool;
  bufferingFacility : bool;
  nativeCodec : bool
}.

Definition spec_select (c : spec_capabilities) : implementation :=
  if interception c && negb (denyListed c) && versionGate c then Mp4PlayerSW
  else if bufferingFacility c then Mp4PlayerBox
  else if nativeCodec c then Mp4PlayerNative
  else Mp4PlayerVideo.

End Mp4Player.

(* ===================================================================== *)
(** ** Module '0x2c': Player, the session controller *)
(* ===================================================================== *)

Module Player.
Import Mp4Player.

(** An entry of [config.sources]: [None] for a falsy entry, otherwise
    the object's [type], if it has one. *)
Definition source : Type := option (option string).

(** The properties of [config] / [options] that the code touches;
    [others] are carried along. *)
Record object : Type := mkObject {
  sources : option (list source);
  id : option value;
  videoId : option value;
  others : list (string * value)
}.

Definition empty_object : object := mkObject None None None [].

(** The facts about the page that the constructor and [setup] read. *)
Record page : Type := mkPage {
  isCanPlayTypeSupported : bool;
  jwplayer : bool;
  isSecureContext : bool;
  isIframed : bool;
  isLocalhost : bool;
  polyfillsLoad : bool;         (* does [loadScript(polyfills)] succeed *)
  browser : capabilities
}.

(** Calls to the collaborators, in order. *)
Inductive effect : Type :=
| LoadScript
| TrackerStart
| TrackerDestroy
| ServiceWorkerRegister
| ServiceWorkerDestroy
| BackendSetup (impl : implementation)
| BackendDestroy (impl : option implementation)
| ShowSecurityWarning (title : jsstring) (message : value).

(** The closure variables of one [Player]; [playerInstance] holds the
    [Mp4Player]'s [playerImplementation]. *)
Record player : Type := mkPlayer {
  tracker : bool;                                   (* non-null *)
  playerInstance : option (option implementation);
  isDestroyed : bool;
  options : object;
  effects : list effect
}.

(** [new Player(playerId)]. *)
Definition create : player := mkPlayer false None false empty_object [].

Definition perform (e : effect) (p : player) : player :=
  mkPlayer (tracker p) (playerInstance p) (isDestroyed p) (options p) (effects p ++ [e]).

(** [reason || "Player has been destroyed"]. *)
Definition reason_or_default (reason : value) : value :=
  if truthy reason then reason else VString (lit "Player has been destroyed").

(** [destroy(reason)]. *)
Definition destroy (reason : value) (p : player) : player :=
  if negb (isDestroyed p) then
    let p := mkPlayer (tracker p) (playerInstance p) true (options p) (effects p) in
    (* playerInstance?.destroy?.(); playerInstance = null *)
    let p := match playerInstance p with
             | Some impl => perform (BackendDestroy impl) p
             | None => p
             end in
    let p := mkPlayer (tracker p) None (isDestroyed p) (options p) (effects p) in
    (* serviceWorkerManager.destroy?.(); options = {} *)
    let p := perform ServiceWorkerDestroy p in
    let p := mkPlayer (tracker p) (playerInstance p) (isDestroyed p) empty_object (effects p) in
    (* tracker?.destroy?.(); tracker = null *)
    let p := if tracker p then perform TrackerDestroy p else p in
    let p := mkPlayer false (playerInstance p) (isDestroyed p) (options p) (effects p) in
    perform (ShowSecurityWarning (lit "Notification") (reason_or_default reason)) p
  else p.

(** The notifications among the effects. *)
Definition warnings (log : list effect) : list (jsstring * value) :=
  flat_map (fun ef => match ef with
                      | ShowSecurityWarning title message => [(title, message)]
                      | _ => []
                      end) log.

Definition isSupported (pg : page) : bool :=
  isCanPlayTypeSupported pg && jwplayer pg.

(** [source && ["mp4"].includes(source?.type)]. *)
Definition playable (s : source) : bool :=
  match s with
  | Some (Some t) => String.eqb t "mp4"
  | _ => false
  end.

(** [setup(config)]. *)
Definition setup (pg : page) (config : object) (p : player) : player :=
  if negb (isSupported pg) then
    destroy (VString (lit "Your browser does not support this player")) p
  else if negb (isIframed pg) && negb (isLocalhost pg) then
    destroy (VString (lit "This player can only be run in an iframe or on localhost.")) p
  else
    let p := if negb (isSecureContext pg) then perform LoadScript p else p in
    if negb (isSecureContext pg) && negb (polyfillsLoad pg) then
      destroy (VString (lit "This video player can't work properly on unsecure websites. For your safety, please use a website that is protected with HTTPS.")) p
    else
      let kept := match sources config with
                  | Some l => filter playable l
                  | None => []
                  end in
      let p := mkPlayer (tracker p) (playerInstance p) (isDestroyed p)
                        (mkObject (Some kept) (id config) (videoId config) (others config))
                        (effects p) in
      match kept with
      | [] => destroy (VString (lit "No playable sources found")) p
      | _ :: _ =>
          let p := mkPlayer true (playerInstance p) (isDestroyed p) (options p) (effects p) in
          let p := if negb (isLocalhost pg) then perform TrackerStart p else p in
          let p := perform ServiceWorkerRegister p in
          let o := options p in
          let p := mkPlayer (tracker p) (playerInstance p) (isDestroyed p)
                            (mkObject (sources o) None (id o) (others o)) (effects p) in
          let impl := Mp4Player.setup (browser pg) in
          let p := mkPlayer (tracker p) (Some impl) (isDestroyed p) (options p) (effects p) in
          match impl with
          | Some i => perform (BackendSetup i) p
          | None => p
          end
      end.

(** The backends set up and the backends destroyed, among the effects. *)
Definition backend_setups (log : list effect) : list implementation :=
  flat_map (fun ef => match ef with BackendSetup i => [i] | _ => [] end) log.

Definition backend_destroys (log : list effect) : list (option implementation) :=
  flat_map (fun ef => match ef with BackendDestroy i => [i] | _ => [] end) log.

(** The sources of a configuration that [setup] keeps. *)
Definition playable_sources (config : object) : list source :=
  match sources config with
  | Some l => filter playable l
  | None => []
  end.

(** Every test of [setup] passes: the browser is supported, the page is
    framed or local, secure or helped by the polyfills, and a source is
    left after filtering. *)
Definition admissible (pg : page) (config : object) : bool :=
  isSupported pg
  && (isIframed pg || isLocalhost pg)
  && (isSecureContext pg || polyfillsLoad pg)
  && negb (match playable_sources config with [] => true | _ :: _ => false end).

(** [destroy] called again and again. *)
Definition destroy_all (reasons : list value) (p : player) : player :=
  fold_left (fun p r => destroy r p) reasons p.

End Player.

(* ===================================================================== *)
(** ** Module '0x174': antiDevTools *)
(* ===================================================================== *)

Module AntiDevTools.

(** What [antiDevTools] reads of the browser when it is called. *)
Record device : Type := mkDevice {
  ontouchstart : bool;            (* "ontouchstart" in window *)
  onmsgesturechange : bool;       (* "onmsgesturechange" in window *)
  screenX : Z;
  userAgent_WindowsNT : bool;     (* navigator.userAgent.match(/Windows NT/i) *)
  userAgent_MacOS : bool          (* navigator.userAgent.match(/Mac OS/i) *)
}.

Definition isTouchDevice (d : device) : bool :=
  ontouchstart d || onmsgesturechange d.

Definition isDesktop (d : device) : bool :=
  negb (screenX d =? 0)%Z || userAgent_WindowsNT d || userAgent_MacOS d.

(** What [jwplayer()?.remove?.()] meets. *)
Inductive player_state : Type :=
| NoJwplayer                        (* [window.jwplayer] is falsy *)
| NothingToRemove                   (* [jwplayer()] is nullish, or has no [remove] *)
| Removes                           (* [remove()] returns *)
| Fails (message : option value).   (* a throw; [None]: of [null] or [undefined],
                                       which [catch ({ message })] cannot take apart *)

(** What [URLSearchParams(new URL(href).search).get('v')] gives. *)
Inductive query : Type :=
| InvalidUrl (message : value)
| Param (v : option jsstring).

(** The browser at the moment a function of the module runs; the pause
    is the time, in milliseconds, that the [debugger] statement takes. *)
Record moment : Type := mkMoment {
  jwplayer : player_state;
  debugger_pause : Z;
  query_v : query
}.

(** The bodies handed to [setInterval]: lines 142, 149, 150 and 154/164;
    the debugger check knows its own id, [debuggerCheckInterval]. *)
Inductive callback : Type :=
| CrashAndClear
| ClearConsole
| DebuggerCheck (debuggerCheckInterval : nat)
| Crash.

(** What the module does to its surroundings, in order. *)
Inductive deed : Type :=
| StorageGet
| StorageSet (item : jsstring)
| PlayerRemoved
| ConsoleError (message : value)
| ConsoleClear
| DebuggerProbe
| SecurityWarning (title message : jsstring)
| IntervalSet (id : nat) (body : callback)
| IntervalCleared (id : nat)
| ListenerAdded
| DetectorLaunched.

(** The session's "devtool" item, the intervals that are set, and what
    has been done so far. *)
Record world : Type := mkWorld {
  devtool : option jsstring;
  intervals : list (nat * callback);
  next_interval : nat;
  history : list deed
}.

Definition does (a : deed) (w : world) : world :=
  mkWorld (devtool w) (intervals w) (next_interval w) (history w ++ [a]).

(** [sessionStorage.setItem("devtool", item)]. *)
Definition setItem (item : jsstring) (w : world) : world :=
  does (StorageSet item)
       (mkWorld (Some item) (intervals w) (next_interval w) (history w)).

(** [setInterval(body, 100)]; the body may refer to the id returned. *)
Definition setInterval (body : nat -> callback) (w : world) : nat * world :=
  let id := next_interval w in
  (id, does (IntervalSet id (body id))
            (mkWorld (devtool w) (intervals w ++ [(id, body id)]) (S id) (history w))).

Definition clearInterval (id : nat) (w : world) : world :=
  does (IntervalCleared id)
       (mkWorld (devtool w)
                (filter (fun entry => negb (Nat.eqb (fst entry) id)) (intervals w))
                (next_interval w) (history w)).

(** [crashTab()]: the [finally] block runs however the [try] ends, also
    when the [catch] clause itself throws. *)
Definition crashTab (m : moment) (w : world) : result unit * world :=
  let '(r, w) :=
    match jwplayer m with
    | NoJwplayer => (Return tt, w)
    | NothingToRemove => (Return tt, w)
    | Removes => (Return tt, does PlayerRemoved w)
    | Fails (Some message) => (Return tt, does (ConsoleError message) w)
    | Fails None => (Throw TypeError, w)
    end in
  (r, setItem (lit "open") w).

(** [isDebuggerOpen()]: the time across the [debugger] statement, which
    the [Function] constructor is taken to be allowed to build. *)
Definition isDebuggerOpen (m : moment) (w : world) : bool * world :=
  ((100 <=? debugger_pause m)%Z, does DebuggerProbe w).

Definition alert_text : jsstring :=
  lit "Due to security concerns, your access request has been denied. Kindly close your browser completely and try again. Kindly refrain from opening the developer tools (eg: F12).".

(** [showWarningAndCrash()]. *)
Definition showWarningAndCrash (m : moment) (w : world) : world :=
  let '(videoId, w) :=
    match query_v m with
    | Param v => (v, w)
    | InvalidUrl message => (None, does (ConsoleError message) w)
    end in
  let message :=
    alert_text ++ match videoId with
                  | Some (c :: v) => lit "<br>Vid: " ++ c :: v
                  | _ => []
                  end in
  does (SecurityWarning (lit "Security alert") message) w.

(** [sessionStorage.getItem("devtool") == "open"]. *)
Definition is_open_item (item : option jsstring) : bool :=
  match item with
  | Some s => if list_eq_dec N.eq_dec s (lit "open") then true else false
  | None => false
  end.

(** [antiDevTools()], with the value it returns: an interval id, or
    [undefined]. *)
Definition antiDevTools (d : device) (m : moment) (w : world) : option nat * world :=
  if negb (isTouchDevice d) || isDesktop d then
    let w := does StorageGet w in
    let isDevToolOpened := is_open_item (devtool w) in
    if isDevToolOpened then
      let w := showWarningAndCrash m w in
      let '(id, w) := setInterval (fun _ => CrashAndClear) w in
      (Some id, w)
    else if isTouchDevice d then
      let '(_, w) := setInterval (fun _ => ClearConsole) w in
      let '(debuggerCheckInterval, w) := setInterval DebuggerCheck w in
      (Some debuggerCheckInterval, w)
    else
      let w := does ListenerAdded w in
      (None, does DetectorLaunched w)
  else (None, w).

(** The listener of line 160, called by the detector with [isOpen]. *)
Definition listener (isOpen : bool) (m : moment) (w : world) : world :=
  let isDevToolOpened := isOpen in
  if isDevToolOpened then
    let '(tripped, w) := isDebuggerOpen m w in
    if tripped then
      let w := showWarningAndCrash m w in
      snd (setInterval (fun _ => Crash) w)
    else w
  else w.

(** The body of an interval, run once. *)
Definition run_callback (body : callback) (m : moment) (w : world)
  : result unit * world :=
  match body with
  | CrashAndClear =>
      match crashTab m w with
      | (Return _, w) => (Return tt, does ConsoleClear w)
      | (Throw e, w) => (Throw e, w)
      end
  | ClearConsole => (Return tt, does ConsoleClear w)
  | DebuggerCheck debuggerCheckInterval =>
      let '(tripped, w) := isDebuggerOpen m w in
      if tripped then
        let w := clearInterval debuggerCheckInterval w in
        let w := showWarningAndCrash m w in
        (Return tt, snd (setInterval (fun _ => Crash) w))
      else (Return tt, w)
  | Crash => crashTab m w
  end.

Fixpoint interval_body (id : nat) (l : list (nat * callback)) : option callback :=
  match l with
  | [] => None
  | (i, body) :: rest => if Nat.eqb i id then Some body else interval_body id rest
  end.

(** What can happen on the page: [antiDevTools()] is called, an interval
    comes due, the detector calls the listener.  An exception out of an
    interval's body ends that run of the body only. *)
Inductive happening : Type :=
| Called (d : device) (m : moment)
| Due (id : nat) (m : moment)
| Reported (isOpen : bool) (m : moment).

Definition page_step (w : world) (h : happening) : world :=
  match h with
  | Called d m => snd (antiDevTools d m w)
  | Due id m =>
      match interval_body id (intervals w) with
      | Some body => snd (run_callback body m w)
      | None => w
      end
  | Reported isOpen m => listener isOpen m w
  end.

Definition page_run (hs : list happening) (w : world) : world :=
  fold_left page_step hs w.

(** A new browsing session, and one whose storage holds an item. *)
Definition session (item : option jsstring) : world := mkWorld item [] 0%nat [].

(** The security alerts among what was done. *)
Definition alerts (log : list deed) : list jsstring :=
  flat_map (fun a => match a with
                     | SecurityWarning _ message => [message]
                     | _ => []
                     end) log.

(** The happenings that can lead to an alert: a call, and a report that
    the tools are open. *)
Definition occasions (hs : list happening) : nat :=
  length (filter (fun h => match h with
                           | Called _ _ => true
                           | Reported isOpen _ => isOpen
                           | Due _ _ => false
                           end) hs).

(** The debugger checks among the intervals that are set. *)
Definition debugger_checks (l : list (nat * callback)) : nat :=
  length (filter (fun entry => match snd entry with
                               | DebuggerCheck _ => true
                               | _ => false
                               end) l).

(** Every interval has an id of its own, below the next one, and a
    debugger check is set under the id it clears. *)
Definition intervals_ok (w : world) : Prop :=
  NoDup (map fst (intervals w)) /\
  Forall (fun entry => (fst entry < next_interval w)%nat /\
                       match snd entry with
                       | DebuggerCheck id => id = fst entry
                       | _ => True
                       end) (intervals w).

(** The alerts shown so far and the debugger checks still set, together,
    are at most [k]. *)
Definition alert_budget (k : nat) (w : world) : Prop :=
  intervals_ok w /\
  (length (alerts (history w)) + debugger_checks (intervals w) <= k)%nat.

End AntiDevTools.

(* ===================================================================== *)
(** ** The module loader: [requireModule] and [requireModule.d] *)
(* ===================================================================== *)

Module Loader.

(** The own properties of an object, in the order of their creation. *)
Fixpoint lookup {A : Type} (key : string) (o : list (string * A)) : option A :=
  match o with
  | [] => None
  | (k, x) :: rest => if String.eqb k key then Some x else lookup key rest
  end.

(** [o[key] = x]. *)
Fixpoint assign {A : Type} (key : string) (x : A) (o : list (string * A))
  : list (string * A) :=
  match o with
  | [] => [(key, x)]
  | (k, y) :: rest =>
      if String.eqb k key then (k, x) :: rest else (k, y) :: assign key x rest
  end.

(** The names that every plain object inherits from [Object.prototype]:
    [moduleCache[name]] is not [undefined] for them. *)
Definition inherited (key : string) : bool :=
  existsb (String.eqb key)
    ["constructor"; "hasOwnProperty"; "isPrototypeOf"; "propertyIsEnumerable";
     "toLocaleString"; "toString"; "valueOf"; "__proto__";
     "__defineGetter__"; "__defineSetter__"; "__lookupGetter__";
     "__lookupSetter__"]%string.

Section Bundle.

(** What the modules export: classes and functions, which the loader
    hands on and never looks into. *)
Variable V : Type.

Definition object : Type := list (string * V).

(** What [requireModule] returns: [cachedModule.exports]. *)
Inductive required : Type :=
| Undefined
| Exports (o : object).

(** A module function, as far as the loader is concerned: it sets
    properties of its [exports], calls [require], and returns or throws;
    an exception out of [require] is not caught. *)
Inductive factory : Type :=
| Finish
| Raise (e : error)
| Define (key : string) (v : V) (next : factory)
| Require (moduleId : string) (next : required -> factory).

(** The [modules] map of a bundle. *)
Variable modules : list (string * factory).

(** [moduleCache], each module object as the properties of its
    [exports]; and the module functions called so far. *)
Record loader : Type := mkLoader {
  moduleCache : list (string * object);
  executed : list string
}.

Definition boot : loader := mkLoader [] [].

(** [moduleCache[moduleId]], where it is not [undefined], as its
    [exports]. *)
Definition cachedModule (moduleId : string) (l : loader) : option required :=
  match lookup moduleId (moduleCache l) with
  | Some o => Some (Exports o)
  | None => if inherited moduleId then Some Undefined else None
  end.

Definition exports_of (moduleId : string) (l : loader) : object :=
  match lookup moduleId (moduleCache l) with
  | Some o => o
  | None => []
  end.

(** The module function of [self] at work; [require] is the loader. *)
Fixpoint call (require : string -> loader -> option (result required * loader))
         (self : string) (f : factory) (l : loader)
  : option (result unit * loader) :=
  match f with
  | Finish => Some (Return tt, l)
  | Raise e => Some (Throw e, l)
  | Define key v next =>
      call require self next
           (mkLoader (assign self (assign key v (exports_of self l)) (moduleCache l))
                     (executed l))
  | Require moduleId next =>
      match require moduleId l with
      | Some (Return r, l) => call require self (next r) l
      | Some (Throw e, l) => Some (Throw e, l)
      | None => None
      end
  end.

(** [requireModule(moduleId)]; [None] when [fuel] nested calls do not
    suffice. *)
Fixpoint requireModule (fuel : nat) (moduleId : string) (l : loader)
  : option (result required * loader) :=
  match fuel with
  | O => None
  | S fuel =>
      match cachedModule moduleId l with
      | Some r => Some (Return r, l)
      | None =>
          let l := mkLoader (assign moduleId [] (moduleCache l)) (executed l) in
          match lookup moduleId modules with
          | None => Some (Throw TypeError, l)     (* [undefined.call] *)
          | Some f =>
              let l := mkLoader (moduleCache l) (executed l ++ [moduleId]) in
              match call (requireModule fuel) moduleId f l with
              | Some (Return _, l) => Some (Return (Exports (exports_of moduleId l)), l)
              | Some (Throw e, l) => Some (Throw e, l)
              | None => None
              end
          end
      end
  end.

(** The modules that are not in the cache yet. *)
Definition unloaded (l : loader) : nat :=
  length (filter (fun m => match lookup (fst m) (moduleCache l) with
                           | Some _ => false
                           | None => true
                           end) modules).

(** One [requireModule] after the other, whatever each one's outcome. *)
Fixpoint require_all (fuel : nat) (ids : list string) (l : loader) : option loader :=
  match ids with
  | [] => Some l
  | moduleId :: rest =>
      match requireModule fuel moduleId l with
      | Some (_, l) => require_all fuel rest l
      | None => None
      end
  end.

(** Every module function that was called has its module in the cache,
    and none was called twice. *)
Definition loaded_once (l : loader) : Prop :=
  NoDup (executed l) /\
  forall moduleId, In moduleId (executed l) -> lookup moduleId (moduleCache l) <> None.

(** From [l] to [l']: no module leaves the cache, and no module function
    is called a second time. *)
Definition extends (l l' : loader) : Prop :=
  (forall moduleId, lookup moduleId (moduleCache l) <> None ->
                    lookup moduleId (moduleCache l') <> None) /\
  (loaded_once l -> loaded_once l').

End Bundle.
Arguments Undefined {V}.
Arguments Exports {V} o.
Arguments Finish {V}.
Arguments Raise {V} e.
Arguments Define {V} key v next.
Arguments Require {V} moduleId next.
Arguments mkLoader {V} moduleCache executed.
Arguments moduleCache {V} l.
Arguments executed {V} l.
Arguments boot {V}.
Arguments cachedModule {V} moduleId l.
Arguments exports_of {V} moduleId l.
Arguments call {V} require self f l.
Arguments requireModule {V} modules fuel moduleId l.
Arguments unloaded {V} modules l.
Arguments require_all {V} modules fuel ids l.
Arguments loaded_once {V} l.
Arguments extends {V} l l'.

(** A property as [requireModule.d] leaves or finds it: a value, or a
    getter. *)
Inductive property (V G : Type) : Type :=
| Data (v : V)
| Getter (get : G).
Arguments Data {V G} v.
Arguments Getter {V G} get.

(** [requireModule.o(obj, prop)]. *)
Definition o {A : Type} (obj : list (string * A)) (prop : string) : bool :=
  match lookup prop obj with
  | Some _ => true
  | None => false
  end.

(** [requireModule.d(exports, definition)].  [for (key in definition)]
    goes through the enumerable properties, own and inherited; [own]
    tells them apart. *)
Definition d {V G : Type} (exports : list (string * property V G))
           (definition : list (string * (bool * G)))
  : list (string * property V G) :=
  fold_left (fun exports entry =>
               let '(key, (own, get)) := entry in
               if own && negb (o exports key)
               then exports ++ [(key, Getter get)]
               else exports)
            definition exports.

End Loader.

(* ===================================================================== *)
(** * Properties *)
(* ===================================================================== *)

(** ** Bytes *)

Lemma byte_of_to_N (b : byte) : byte_of_N (Byte.to_N b) = b.
Proof.
  unfold byte_of_N.
  rewrite N.mod_small by (pose proof (Byte.to_N_bounded b); lia).
  now rewrite Byte.of_to_N.
Qed.

Lemma to_N_byte_of_N (n : N) : Byte.to_N (byte_of_N n) = n mod 256.
Proof.
  unfold byte_of_N.
  destruct (Byte.of_N (n mod 256)) as [b|] eqn:E.
  - now apply Byte.to_of_N.
  - apply Byte.of_N_None_iff in E.
    pose proof (N.mod_upper_bound n 256). lia.
Qed.

Lemma lxor_below_256 (a b : N) : a < 256 -> b < 256 -> N.lxor a b < 256.
Proof.
  intros Ha Hb.
  destruct (N.eq_dec (N.lxor a b) 0) as [->|Hz]; [lia|].
  change 256 with (2 ^ 8).
  apply N.log2_lt_pow2; [lia|].
  eapply N.le_lt_trans; [apply N.log2_lxor|].
  apply N.max_lub_lt.
  - destruct (N.eq_dec a 0) as [->|]; [reflexivity|].
    apply N.log2_lt_pow2; [lia|exact Ha].
  - destruct (N.eq_dec b 0) as [->|]; [reflexivity|].
    apply N.log2_lt_pow2; [lia|exact Hb].
Qed.

Lemma bxor_involutive (a k : byte) : CTR.bxor (CTR.bxor a k) k = a.
Proof.
  unfold CTR.bxor.
  rewrite to_N_byte_of_N.
  pose proof (Byte.to_N_bounded a). pose proof (Byte.to_N_bounded k).
  rewrite N.mod_small by (apply lxor_below_256; lia).
  rewrite N.lxor_assoc, N.lxor_nilpotent, N.lxor_0_r.
  apply byte_of_to_N.
Qed.

(** ** Counter mode *)

Lemma xor_stream_length (data ks : list byte) :
  (length data <= length ks)%nat -> length (CTR.xor_stream data ks) = length data.
Proof.
  revert ks; induction data as [|d data IH]; intros [|k ks] H; simpl in *;
    try reflexivity; try lia.
  now rewrite IH by lia.
Qed.

Lemma xor_stream_involutive (data ks : list byte) :
  (length data <= length ks)%nat ->
  CTR.xor_stream (CTR.xor_stream data ks) ks = data.
Proof.
  revert ks; induction data as [|d data IH]; intros [|k ks] H; simpl in *;
    try reflexivity; try lia.
  now rewrite bxor_involutive, IH by lia.
Qed.

Lemma value_bytes_length (x : N) : length (CTR.value_bytes x) = 16%nat.
Proof. reflexivity. Qed.

Lemma flat_map_blocks_length {A} (f : A -> list byte) (l : list A) :
  (forall a, length (f a) = 16%nat) ->
  length (flat_map f l) = (16 * length l)%nat.
Proof.
  intros Hf; induction l as [|a l IH]; simpl; [reflexivity|].
  rewrite length_app, Hf, IH. lia.
Qed.

Lemma keystream_length (E : N -> N) (ctr len : N) (n : nat) :
  length (CTR.keystream E ctr len n) = n.
Proof.
  unfold CTR.keystream.
  rewrite length_firstn, flat_map_blocks_length
    by (intros; apply value_bytes_length).
  rewrite length_seq.
  pose proof (Nat.div_mod_eq (n + 15) 16).
  pose proof (Nat.mod_upper_bound (n + 15) 16).
  lia.
Qed.

Lemma transform_length (E : N -> N) (ctr len : N) (data : list byte) :
  length (CTR.transform E ctr len data) = length data.
Proof.
  unfold CTR.transform. apply xor_stream_length.
  now rewrite keystream_length.
Qed.

(** Counter mode is its own inverse, whatever the block function. *)
Lemma transform_involutive (E : N -> N) (ctr len : N) (data : list byte) :
  CTR.transform E ctr len (CTR.transform E ctr len data) = data.
Proof.
  unfold CTR.transform at 1.
  rewrite transform_length.
  unfold CTR.transform.
  apply xor_stream_involutive.
  now rewrite keystream_length.
Qed.

(** ** The digest and its hex text *)

Lemma le_bytes_length (n : nat) (x : N) : length (MD5.le_bytes n x) = n.
Proof. unfold MD5.le_bytes. now rewrite length_map, length_seq. Qed.

Lemma digest_length (msg : list byte) : length (MD5.digest msg) = 16%nat.
Proof.
  unfold MD5.digest.
  now rewrite length_map, !length_app, !le_bytes_length.
Qed.

Lemma hex_length (bs : list byte) : length (MD5.hex bs) = (2 * length bs)%nat.
Proof.
  unfold MD5.hex.
  induction bs as [|b bs IH]; [reflexivity|].
  cbn [flat_map app length]. rewrite IH. lia.
Qed.

Lemma firstn_hex (n : nat) (bs : list byte) :
  firstn (2 * n) (MD5.hex bs) = MD5.hex (firstn n bs).
Proof.
  revert bs; induction n as [|n IH]; intros bs; [reflexivity|].
  destruct bs as [|b bs]; [reflexivity|].
  replace (2 * S n)%nat with (S (S (2 * n))) by lia.
  cbn [MD5.hex flat_map firstn app].
  f_equal. f_equal. apply IH.
Qed.

Lemma hex_digit_range (n : N) :
  n < 16 ->
  (0x30 <= MD5.hex_digit n <= 0x39) \/ (0x61 <= MD5.hex_digit n <= 0x66).
Proof.
  intros H. unfold MD5.hex_digit.
  destruct (N.ltb_spec n 10); lia.
Qed.

Lemma hex_chars (bs : list byte) :
  Forall (fun c => (0x30 <= c <= 0x39) \/ (0x61 <= c <= 0x66)) (MD5.hex bs).
Proof.
  induction bs as [|b bs IH]; [constructor|].
  pose proof (Byte.to_N_bounded b).
  cbn [MD5.hex flat_map app].
  constructor; [|constructor; [|exact IH]]; apply hex_digit_range.
  - apply N.Div0.div_lt_upper_bound; lia.
  - apply N.mod_upper_bound; lia.
Qed.

(** On text below U+0080 the encoder yields the character codes. *)
Lemma utf8_encode_ascii (s : jsstring) :
  Forall (fun c => c < 0x80) s -> Text.utf8_encode s = map byte_of_N s.
Proof.
  induction 1 as [|c s Hc _ IH]; [reflexivity|].
  cbn [Text.utf8_encode map].
  unfold Text.is_high_surrogate, Text.is_low_surrogate.
  destruct (N.leb_spec 0xD800 c); [lia|].
  destruct (N.leb_spec 0xDC00 c); [lia|].
  cbn [andb]. unfold Text.encode_cp.
  destruct (N.ltb_spec c 0x80); [|lia].
  cbn [app]. now rewrite IH.
Qed.

Lemma utf8_encode_hex (bs : list byte) :
  Text.utf8_encode (MD5.hex bs) = map byte_of_N (MD5.hex bs).
Proof.
  apply utf8_encode_ascii.
  eapply Forall_impl; [|apply hex_chars].
  cbv beta. lia.
Qed.

(** ** AesCtrCipher *)

Import Subtle AesCtrCipher.

(** What a successful [expandKey] leaves behind. *)
Lemma expandKey_accepted (secret : value) (self0 : cipher) :
  outcome (expandKey secret) self0 = Return true ->
  exists keyData,
    (16 <= length keyData)%nat /\
    run (expandKey secret) self0 =
      (Return true,
       (mkCipher (Some (mkKey keyData))
                 (mkConfig (alg_name (aesConfig self0)) (alg_length (aesConfig self0))
                           (Some (firstn 16 keyData))),
        [CallImportKey keyData])).
Proof.
  unfold outcome, run, expandKey.
  destruct (falsy secret); [discriminate|].
  unfold bind, lift, get, put, log, try_catch, ret; cbn [fst snd].
  destruct (MD5.md5 secret) as [h|e]; [|discriminate].
  unfold importKey.
  destruct (Nat.eqb (length (Text.utf8_encode h)) 16
            || Nat.eqb (length (Text.utf8_encode h)) 24
            || Nat.eqb (length (Text.utf8_encode h)) 32) eqn:E; [|discriminate].
  intros _. exists (Text.utf8_encode h). split; [|reflexivity].
  apply orb_true_iff in E as [E|E]; [apply orb_true_iff in E as [E|E]|];
    apply Nat.eqb_eq in E; lia.
Qed.

(** Every non-empty string is accepted: its key material is the 32
    characters of the digest's hex text. *)
Lemma expandKey_string (s : jsstring) (self0 : cipher) :
  s <> [] ->
  let keyData := Text.utf8_encode (MD5.hex (MD5.digest (Text.utf8_encode s))) in
  run (expandKey (VString s)) self0 =
    (Return true,
     (mkCipher (Some (mkKey keyData))
               (mkConfig (alg_name (aesConfig self0)) (alg_length (aesConfig self0))
                         (Some (firstn 16 keyData))),
      [CallImportKey keyData])).
Proof.
  intros Hs keyData.
  assert (L : length keyData = 32%nat).
  { unfold keyData. now rewrite utf8_encode_hex, length_map, hex_length, digest_length. }
  unfold run, expandKey.
  destruct s as [|c s]; [congruence|]. cbn [falsy truthy negb].
  unfold bind, lift, get, put, log, try_catch, ret, MD5.md5; cbn [fst snd].
  fold keyData. unfold importKey. rewrite L. reflexivity.
Qed.

Lemma aes_ctr_bytes (alg : AesConfig) (key : CryptoKey) (c bs : list byte) :
  alg_counter alg = Some c -> length c = 16%nat -> alg_length alg = 128 ->
  aes_ctr alg key (VBytes bs) =
    Return (CTR.transform (AES.encrypt_block (AES.key_schedule (key_data key)))
                          (CTR.bytes_value c) 128 bs).
Proof.
  intros Hc Hl Hn. unfold aes_ctr. now rewrite Hc, Hl, Hn.
Qed.

Lemma char_codes_fromCharCode (bs : list byte) :
  char_codes (map fromCharCode bs) = bs.
Proof.
  unfold char_codes, fromCharCode. rewrite map_map.
  rewrite <- (map_id bs) at 2. apply map_ext. apply byte_of_to_N.
Qed.

Section KeyExpanded.

Variables (key : CryptoKey) (cfg : AesConfig) (c : list byte).
Hypothesis counter_set : alg_counter cfg = Some c.
Hypothesis counter_size : length c = 16%nat.
Hypothesis counter_bits : alg_length cfg = 128.

Lemma encrypt_expanded (data : value) (bytes : list byte) :
  falsy data = false -> payload data = Some bytes ->
  run (encrypt data) (mkCipher (Some key) cfg) =
    (Return (VString (map fromCharCode (keyed_transform key c bytes))),
     (mkCipher (Some key) cfg, [CallEncrypt (VBytes bytes)])).
Proof.
  intros Hf Hp. unfold run, encrypt, bind, get at 1; cbn [fst snd cryptoKey].
  rewrite Hf.
  assert (E : match data with
              | VString s => VBytes (Text.utf8_encode s)
              | _ => data
              end = VBytes bytes)
    by (destruct data; try discriminate; cbn in Hp; congruence).
  rewrite E. unfold log, lift, ret; cbn [fst snd aesConfig app].
  now rewrite (aes_ctr_bytes cfg key c bytes) by assumption.
Qed.

Lemma decrypt_expanded_bytes (bytes : list byte) :
  run (decrypt (VBytes bytes)) (mkCipher (Some key) cfg) =
    (Return (VBytes (keyed_transform key c bytes)),
     (mkCipher (Some key) cfg, [CallDecrypt (VBytes bytes)])).
Proof.
  unfold run, decrypt, bind, get, log, lift, ret;
    cbn [fst snd cryptoKey falsy truthy negb aesConfig app].
  now rewrite (aes_ctr_bytes cfg key c bytes) by assumption.
Qed.

Lemma decrypt_expanded_string (s : jsstring) :
  s <> [] ->
  let bytes := map charCode
                   match match_every_char (Text.atob s) with
                   | Some chars => chars
                   | None => []
                   end in
  run (decrypt (VString s)) (mkCipher (Some key) cfg) =
    (Return (VString (Text.utf8_decode (keyed_transform key c bytes))),
     (mkCipher (Some key) cfg, [CallAtob s; CallDecrypt (VBytes bytes)])).
Proof.
  intros Hs bytes. destruct s as [|u s]; [congruence|].
  unfold run, decrypt, bind, get, log, lift, ret;
    cbn [fst snd cryptoKey falsy truthy negb aesConfig app].
  fold bytes.
  now rewrite (aes_ctr_bytes cfg key c bytes) by assumption.
Qed.

End KeyExpanded.

(** In any state, a falsy argument comes back as it is and nothing is
    called. *)
Lemma encrypt_falsy (self : cipher) (data : value) :
  falsy data = true -> run (encrypt data) self = (Return data, (self, [])).
Proof.
  intros Hf. unfold run, encrypt, bind, get, ret; cbn [fst snd].
  now rewrite Hf.
Qed.

Lemma decrypt_falsy (self : cipher) (data : value) :
  falsy data = true -> run (decrypt data) self = (Return data, (self, [])).
Proof.
  intros Hf. unfold run, decrypt, bind, get, ret; cbn [fst snd].
  now rewrite Hf.
Qed.

(** Without a key, any argument comes back as it is and nothing is
    called. *)
Lemma invoke_uninitialized (self : cipher) (r : request) :
  cryptoKey self = None ->
  run (invoke r) self = (Return (argument r), (self, [])).
Proof.
  intros Hk.
  destruct r as [data|data]; unfold run, invoke, encrypt, decrypt, bind, get, ret;
    cbn [fst snd argument]; rewrite Hk; now destruct (falsy data).
Qed.

Lemma serve_uninitialized (self : cipher) (rs : list request) :
  cryptoKey self = None ->
  serve rs self = (map (fun r => (Return (argument r), [])) rs, self).
Proof.
  intros Hk. induction rs as [|r rs IH]; [reflexivity|].
  cbn [serve map]. unfold after, outcome, calls.
  rewrite (invoke_uninitialized self r Hk); cbn [fst snd].
  now rewrite IH.
Qed.

(** *** Round trip (C1) *)

(** C1, as stated, fails: [encrypt] returns one character per ciphertext
    byte, and [decrypt], given a string, runs it through [atob] first.
    With the secret "abc" the plaintext "x" encrypts to the one-character
    string with code 166, which is no base64, so decrypting the output of
    [encrypt] gives the empty string and not "x". *)
Lemma decrypt_of_encrypt_output_loses_plaintext :
  outcome (expandKey (VString (lit "abc"))) create = Return true /\
  outcome (encrypt (VString (lit "x")))
          (after (expandKey (VString (lit "abc"))) create) = Return (VString [166]) /\
  outcome (decrypt (VString [166]))
          (after (expandKey (VString (lit "abc"))) create) = Return (VString []) /\
  VString [] <> VString (lit "x").
Proof.
  repeat split; try (vm_compute; reflexivity).
  discriminate.
Qed.

(** C1, amended: for every secret that [expandKey] accepts and every
    plaintext, string or buffer, of any length (0, 1, 16, 17 and 1000
    bytes among them), [encrypt] returns a string with one character per
    plaintext byte, and [decrypt] applied to the bytes behind that string,
    under the same key and the same initial counter, returns the plaintext
    bytes. *)
Theorem encrypt_decrypt_roundtrip_on_bytes
  (secret : value) (self0 : cipher) (plaintext : value) (bytes : list byte) :
  alg_length (aesConfig self0) = 128 ->
  outcome (expandKey secret) self0 = Return true ->
  payload plaintext = Some bytes ->
  exists ciphertext : jsstring,
    outcome (encrypt plaintext) (after (expandKey secret) self0)
      = Return (VString ciphertext) /\
    length ciphertext = length bytes /\
    outcome (decrypt (VBytes (char_codes ciphertext))) (after (expandKey secret) self0)
      = Return (VBytes bytes).
Proof.
  intros Hbits Hexp Hpay.
  destruct (expandKey_accepted _ _ Hexp) as (keyData & Hlen & Hrun).
  unfold after at 1 2. rewrite Hrun. cbn [fst snd].
  set (cfg := mkConfig _ _ _).
  assert (Hc : alg_counter cfg = Some (firstn 16 keyData)) by reflexivity.
  assert (Hs : length (firstn 16 keyData) = 16%nat) by (rewrite length_firstn; lia).
  assert (Hb : alg_length cfg = 128) by exact Hbits.
  destruct (falsy plaintext) eqn:Hf.
  - (* only the empty string is both falsy and a payload *)
    assert (plaintext = VString [] /\ bytes = []) as [-> ->].
    { destruct plaintext as [| | | |[|u s]|b]; try discriminate; cbn in Hpay.
      split; congruence. }
    exists []. unfold outcome.
    rewrite encrypt_falsy by reflexivity.
    rewrite (decrypt_expanded_bytes _ cfg _ Hc Hs Hb). cbn [fst].
    repeat split.
  - exists (map fromCharCode (keyed_transform (mkKey keyData) (firstn 16 keyData) bytes)).
    unfold outcome.
    rewrite (encrypt_expanded _ cfg _ Hc Hs Hb plaintext bytes Hf Hpay).
    rewrite char_codes_fromCharCode.
    rewrite (decrypt_expanded_bytes _ cfg _ Hc Hs Hb). cbn [fst].
    unfold keyed_transform.
    rewrite length_map, transform_length, transform_involutive.
    repeat split.
Qed.

Lemma encrypt_decrypt_roundtrip_on_bytes_witness :
  alg_length (aesConfig create) = 128 /\
  outcome (expandKey (VString (lit "abc"))) create = Return true /\
  payload (VString (lit "0123456789abcdefg"))
    = Some (Text.utf8_encode (lit "0123456789abcdefg")) /\
  exists ciphertext : jsstring,
    outcome (encrypt (VString (lit "0123456789abcdefg")))
            (after (expandKey (VString (lit "abc"))) create)
      = Return (VString ciphertext) /\
    length ciphertext = length (Text.utf8_encode (lit "0123456789abcdefg")) /\
    outcome (decrypt (VBytes (char_codes ciphertext)))
            (after (expandKey (VString (lit "abc"))) create)
      = Return (VBytes (Text.utf8_encode (lit "0123456789abcdefg"))).
Proof.
  assert (H1 : alg_length (aesConfig create) = 128) by reflexivity.
  assert (H2 : outcome (expandKey (VString (lit "abc"))) create = Return true)
    by (vm_compute; reflexivity).
  assert (H3 : payload (VString (lit "0123456789abcdefg"))
               = Some (Text.utf8_encode (lit "0123456789abcdefg"))) by reflexivity.
  repeat split; try assumption.
  exact (encrypt_decrypt_roundtrip_on_bytes
           (VString (lit "abc")) create (VString (lit "0123456789abcdefg"))
           (Text.utf8_encode (lit "0123456789abcdefg")) H1 H2 H3).
Defined.

(** *** The initial counter (C2) *)

(** C2, as stated, fails: for the secret "abc" the digest is
    90 01 50 98 3c d2 4f b0 d6 96 3f 7d 28 e1 7f 72 and the counter is the
    sixteen characters "900150983cd24fb0", not the sixteen digest bytes. *)
Lemma counter_is_not_the_raw_digest :
  MD5.digest (Text.utf8_encode (lit "abc"))
    = map byte_of_N [0x90; 0x01; 0x50; 0x98; 0x3c; 0xd2; 0x4f; 0xb0;
                     0xd6; 0x96; 0x3f; 0x7d; 0x28; 0xe1; 0x7f; 0x72] /\
  alg_counter (aesConfig (after (expandKey (VString (lit "abc"))) create))
    = Some (map byte_of_N (lit "900150983cd24fb0")) /\
  alg_counter (aesConfig (after (expandKey (VString (lit "abc"))) create))
    <> Some (firstn 16 (MD5.digest (Text.utf8_encode (lit "abc")))).
Proof.
  repeat split; try (vm_compute; reflexivity).
  vm_compute. discriminate.
Qed.

(** C2, amended: the initial counter block is the first 16 bytes of the
    UTF-8 encoding of the digest's lowercase hex text, that is the hex
    digits of the first 8 raw digest bytes; it has 16 bytes, each the code
    of a hex digit. *)
Theorem initial_counter_is_hex_text (s : jsstring) (self0 : cipher) :
  s <> [] ->
  outcome (expandKey (VString s)) self0 = Return true /\
  exists counter,
    alg_counter (aesConfig (after (expandKey (VString s)) self0)) = Some counter /\
    counter = firstn 16 (Text.utf8_encode
                           (MD5.hex (MD5.digest (Text.utf8_encode s)))) /\
    counter = map byte_of_N (MD5.hex (firstn 8 (MD5.digest (Text.utf8_encode s)))) /\
    length counter = 16%nat /\
    forallb is_hex_char counter = true.
Proof.
  intros Hs. pose proof (expandKey_string s self0 Hs) as Hrun. cbv zeta in Hrun.
  unfold outcome, after. rewrite Hrun. cbn [fst snd aesConfig alg_counter].
  split; [reflexivity|].
  eexists; split; [reflexivity|]. split; [reflexivity|].
  assert (E : firstn 16 (Text.utf8_encode (MD5.hex (MD5.digest (Text.utf8_encode s))))
              = map byte_of_N (MD5.hex (firstn 8 (MD5.digest (Text.utf8_encode s))))).
  { rewrite utf8_encode_hex, firstn_map. f_equal. }
  rewrite E. split; [reflexivity|]. split.
  - rewrite length_map, hex_length, length_firstn, digest_length. reflexivity.
  - apply forallb_forall. intros b Hb.
    apply in_map_iff in Hb as (u & <- & Hu).
    pose proof (hex_chars (firstn 8 (MD5.digest (Text.utf8_encode s)))) as F.
    rewrite Forall_forall in F. specialize (F u Hu).
    unfold is_hex_char. rewrite to_N_byte_of_N, N.mod_small by lia.
    destruct F as [F|F].
    + apply orb_true_iff; left. apply andb_true_iff; split; apply N.leb_le; lia.
    + apply orb_true_iff; right. apply andb_true_iff; split; apply N.leb_le; lia.
Qed.

Lemma initial_counter_is_hex_text_witness :
  lit "abc" <> [] /\
  outcome (expandKey (VString (lit "abc"))) create = Return true /\
  exists counter,
    alg_counter (aesConfig (after (expandKey (VString (lit "abc"))) create))
      = Some counter /\
    counter = firstn 16 (Text.utf8_encode
                           (MD5.hex (MD5.digest (Text.utf8_encode (lit "abc"))))) /\
    counter = map byte_of_N
                  (MD5.hex (firstn 8 (MD5.digest (Text.utf8_encode (lit "abc"))))) /\
    length counter = 16%nat /\
    forallb is_hex_char counter = true.
Proof.
  assert (H : lit "abc" <> []) by (cbv; discriminate).
  split; [exact H|].
  exact (initial_counter_is_hex_text (lit "abc") create H).
Defined.

(** *** Pass-through (C3, C10) and tolerant decoding (C4) *)

(** C3: for every falsy secret, [expandKey] on a cipher without a key
    returns [false] without throwing and leaves the cipher as it was; every
    later [encrypt] or [decrypt] call then returns its argument unchanged,
    does not throw and calls nothing. *)
Theorem falsy_secret_keeps_cipher_uninitialized
  (secret : value) (self : cipher) (later : list request) :
  falsy secret = true ->
  cryptoKey self = None ->
  run (expandKey secret) self = (Return false, (self, [])) /\
  serve later (after (expandKey secret) self)
    = (map (fun r => (Return (argument r), [])) later, self).
Proof.
  intros Hf Hk.
  assert (R : run (expandKey secret) self = (Return false, (self, []))).
  { unfold run, expandKey. rewrite Hf. now destruct self. }
  split; [exact R|].
  unfold after. rewrite R. cbn [fst snd].
  now apply serve_uninitialized.
Qed.

Lemma falsy_secret_keeps_cipher_uninitialized_witness :
  falsy (VString (lit "")) = true /\
  cryptoKey create = None /\
  run (expandKey (VString (lit ""))) create = (Return false, (create, [])) /\
  serve [Encrypt (VString (lit "x"))] (after (expandKey (VString (lit ""))) create)
    = ([(Return (VString (lit "x")), [])], create).
Proof.
  assert (H1 : falsy (VString (lit "")) = true) by reflexivity.
  assert (H2 : cryptoKey create = None) by reflexivity.
  split; [exact H1|]. split; [exact H2|].
  exact (falsy_secret_keeps_cipher_uninitialized
           (VString (lit "")) create [Encrypt (VString (lit "x"))] H1 H2).
Defined.

(** C4: on a key-expanded cipher, for every string that the browser's
    [atob] rejects, the patched [atob] yields the empty string, the cipher
    is handed the empty byte sequence, and [decrypt] returns the empty
    string; nothing is thrown. *)
Theorem malformed_base64_decrypts_to_empty
  (secret : value) (self0 : cipher) (input : jsstring) (e : error) :
  alg_length (aesConfig self0) = 128 ->
  outcome (expandKey secret) self0 = Return true ->
  Text.originalAtob input = Throw e ->
  Text.atob input = [] /\
  calls (decrypt (VString input)) (after (expandKey secret) self0)
    = [CallAtob input; CallDecrypt (VBytes [])] /\
  outcome (decrypt (VString input)) (after (expandKey secret) self0)
    = Return (VString []).
Proof.
  intros Hbits Hexp Hbad.
  assert (Ha : Text.atob input = []) by (unfold Text.atob; now rewrite Hbad).
  assert (Hne : input <> []) by (intros ->; discriminate).
  destruct (expandKey_accepted _ _ Hexp) as (keyData & Hlen & Hrun).
  unfold after. rewrite Hrun. cbn [fst snd].
  set (cfg := mkConfig _ _ _).
  assert (Hc : alg_counter cfg = Some (firstn 16 keyData)) by reflexivity.
  assert (Hs : length (firstn 16 keyData) = 16%nat) by (rewrite length_firstn; lia).
  assert (Hb : alg_length cfg = 128) by exact Hbits.
  unfold calls, outcome.
  rewrite (decrypt_expanded_string _ cfg _ Hc Hs Hb input Hne).
  rewrite Ha. cbn [fst snd match_every_char map].
  repeat split.
Qed.

Lemma malformed_base64_decrypts_to_empty_witness :
  alg_length (aesConfig create) = 128 /\
  outcome (expandKey (VString (lit "abc"))) create = Return true /\
  Text.originalAtob (lit "not-valid-base64!!") = Throw InvalidCharacterError /\
  Text.atob (lit "not-valid-base64!!") = [] /\
  calls (decrypt (VString (lit "not-valid-base64!!")))
        (after (expandKey (VString (lit "abc"))) create)
    = [CallAtob (lit "not-valid-base64!!"); CallDecrypt (VBytes [])] /\
  outcome (decrypt (VString (lit "not-valid-base64!!")))
          (after (expandKey (VString (lit "abc"))) create)
    = Return (VString []).
Proof.
  assert (H1 : alg_length (aesConfig create) = 128) by reflexivity.
  assert (H2 : outcome (expandKey (VString (lit "abc"))) create = Return true)
    by (vm_compute; reflexivity).
  assert (H3 : Text.originalAtob (lit "not-valid-base64!!") = Throw InvalidCharacterError)
    by (vm_compute; reflexivity).
  split; [exact H1|]. split; [exact H2|]. split; [exact H3|].
  exact (malformed_base64_decrypts_to_empty
           (VString (lit "abc")) create (lit "not-valid-base64!!")
           InvalidCharacterError H1 H2 H3).
Defined.

(** C10: in every state of the cipher, and so also after a successful
    [expandKey], [encrypt] and [decrypt] return a falsy argument unchanged,
    leave the cipher as it is and call nothing: neither the cipher
    transform nor [atob]. *)
Theorem falsy_data_passes_through (self : cipher) (data : value) :
  falsy data = true ->
  run (encrypt data) self = (Return data, (self, [])) /\
  run (decrypt data) self = (Return data, (self, [])).
Proof.
  intros Hf. split; [now apply encrypt_falsy | now apply decrypt_falsy].
Qed.

Lemma falsy_data_passes_through_witness :
  falsy (VString (lit "")) = true /\
  cryptoKey (after (expandKey (VString (lit "abc"))) create) <> None /\
  run (encrypt (VString (lit ""))) (after (expandKey (VString (lit "abc"))) create)
    = (Return (VString (lit "")), (after (expandKey (VString (lit "abc"))) create, [])) /\
  run (decrypt (VString (lit ""))) (after (expandKey (VString (lit "abc"))) create)
    = (Return (VString (lit "")), (after (expandKey (VString (lit "abc"))) create, [])).
Proof.
  assert (H1 : falsy (VString (lit "")) = true) by reflexivity.
  split; [exact H1|]. split; [vm_compute; discriminate|].
  exact (falsy_data_passes_through
           (after (expandKey (VString (lit "abc"))) create) (VString (lit "")) H1).
Defined.

(** The falsy values are these; an empty byte array is not among them and
    goes through the cipher. *)
Lemma falsy_values (data : value) :
  falsy data = true <->
  data = VUndefined \/ data = VNull \/ data = VBool false \/ data = VNumber 0
  \/ data = VString [].
Proof.
  split.
  - destruct data as [| |[|]|n|[|u s]|b]; unfold falsy, truthy;
      try (cbn; discriminate); try (cbn; now auto 6).
    destruct (Z.eqb_spec n 0) as [->|]; cbn; intros H; [auto 6 | discriminate H].
  - intros [->|[->|[->|[->| ->]]]]; reflexivity.
Qed.

(** ** DevtoolsDetector *)

Import DevtoolsDetector.

Section DetectorProperties.

Context {env : Type}.
Implicit Types (e : env) (s : system env) (cs : list (Checker env)).

Lemma system_eta s :
  mkSystem (this s) (pending s) (next_timer s) (suspended s) (events s) = s.
Proof. now destruct s. Qed.

Lemma record_nil s : record [] s = s.
Proof. unfold record. rewrite app_nil_r. apply system_eta. Qed.

Lemma record_emit ev evs s : record evs (emit ev s) = record (ev :: evs) s.
Proof. unfold record, emit; cbn. now rewrite <- app_assoc. Qed.

(** *** Listeners (C8) *)

Lemma notify_all (ls : list Listener) (st : status) (log : list event) :
  notify ls st log
  = (Return tt,
     log ++ map (fun l => Notified (listener_id l) (status_isOpen st) st) ls).
Proof.
  revert log; induction ls as [|l ls IH]; intros log; cbn [notify map].
  - now rewrite app_nil_r.
  - destruct (listener_call l (status_isOpen st) st);
      rewrite IH, <- app_assoc; reflexivity.
Qed.

Lemma broadcast_all (st : status) s :
  broadcast st s
  = (Return tt,
     record (Broadcast st
               :: map (fun l => Notified (listener_id l) (status_isOpen st) st)
                      (listeners (this s))) s).
Proof.
  unfold broadcast. rewrite notify_all. unfold record.
  now rewrite <- app_assoc.
Qed.

Lemma notifications_app (l1 l2 : list event) :
  notifications (l1 ++ l2) = notifications l1 ++ notifications l2.
Proof. apply flat_map_app. Qed.

Lemma broadcasts_app (l1 l2 : list event) :
  broadcasts (l1 ++ l2) = broadcasts l1 ++ broadcasts l2.
Proof. apply flat_map_app. Qed.

Lemma checker_calls_app (l1 l2 : list event) :
  checker_calls (l1 ++ l2) = checker_calls l1 ++ checker_calls l2.
Proof. apply filter_app. Qed.

Lemma notifications_notified (ls : list Listener) (o : bool) (st : status) :
  notifications (map (fun l => Notified (listener_id l) o st) ls)
  = map (fun l => (listener_id l, o, st)) ls.
Proof. induction ls as [|l ls IH]; cbn; [reflexivity | now rewrite <- IH]. Qed.

Lemma broadcasts_notified (ls : list Listener) (o : bool) (st : status) :
  broadcasts (map (fun l => Notified (listener_id l) o st) ls) = [].
Proof. induction ls as [|l ls IH]; cbn; [reflexivity | exact IH]. Qed.

Lemma checker_calls_notified (ls : list Listener) (o : bool) (st : status) :
  checker_calls (map (fun l => Notified (listener_id l) o st) ls) = [].
Proof. induction ls as [|l ls IH]; cbn; [reflexivity | exact IH]. Qed.

(** *** The end of a poll *)

Lemma conclude_changed (o : bool) (nm : string) s :
  o <> isOpen (this s) ->
  conclude o nm s
  = reschedule
      (record (Broadcast (mkStatus o nm)
                 :: map (fun l => Notified (listener_id l) o (mkStatus o nm))
                        (listeners (this s)))
              (set_this (with_isOpen o (this s)) s)).
Proof.
  intros H. unfold conclude.
  destruct (Bool.eqb o (isOpen (this s))) eqn:E.
  - apply Bool.eqb_prop in E. contradiction.
  - cbn [negb]. rewrite broadcast_all. reflexivity.
Qed.

Lemma conclude_same (nm : string) s :
  conclude (isOpen (this s)) nm s = reschedule s.
Proof. unfold conclude. now rewrite Bool.eqb_reflx. Qed.

Lemma suspended_stop s : suspended (stop s) = suspended s.
Proof.
  unfold stop. destruct (detectLoopStopped (this s)); [reflexivity|].
  cbn [negb]. now destruct (timer (this s)).
Qed.

Lemma suspended_reschedule s : suspended (reschedule s) = suspended s.
Proof.
  unfold reschedule.
  destruct ((0 <? detectLoopDelay (this s))%Z && negb (detectLoopStopped (this s)));
    [reflexivity | apply suspended_stop].
Qed.

Lemma suspended_conclude (o : bool) (nm : string) s :
  suspended (conclude o nm s) = suspended s.
Proof.
  destruct (bool_dec o (isOpen (this s))) as [->|H].
  - rewrite conclude_same. apply suspended_reschedule.
  - rewrite (conclude_changed o nm s H), suspended_reschedule. reflexivity.
Qed.

(** *** A poll that runs to its end *)

Lemma settle_idle e (n : nat) s : suspended s = [] -> settle e n s = s.
Proof.
  intros H. unfold settle. induction n as [|n IH]; [reflexivity|].
  rewrite Nat.iter_succ, IH. cbn [step]. now rewrite H.
Qed.

Lemma settle_succ e (n : nat) s :
  settle e (S n) s = settle e n (step s (Resume 0 e)).
Proof. unfold settle. apply Nat.iter_succ_r. Qed.

Lemma resume_only_frame e (f : frame env) s :
  suspended s = [] -> step (suspend f s) (Resume 0 e) = continue e f s.
Proof.
  intros H. unfold step, suspend.
  cbn [this pending next_timer suspended events].
  rewrite H. cbn [app nth_error drop_nth].
  f_equal. rewrite <- H. apply system_eta.
Qed.

(** The closed form of an uninterrupted poll: the calls on the checkers
    consulted, then the end of the poll with the verdict. *)
Lemma poll_closed_form e cs :
  forall (n : nat) (o : bool) (nm : string) s,
    suspended s = [] ->
    (2 * length cs <= n)%nat ->
    settle e n (iterate e cs o nm s)
    = conclude (fst (verdict e cs o nm)) (snd (verdict e cs o nm))
               (record (flat_map (calls_of e) (consulted e cs)) s).
Proof.
  induction cs as [|c rest IH]; intros n o nm s Hs Hn.
  - cbn [iterate verdict consulted flat_map fst snd].
    rewrite record_nil. apply settle_idle. now rewrite suspended_conclude.
  - cbn [length] in Hn. destruct n as [|n]; [lia|].
    cbn [iterate]. rewrite settle_succ, resume_only_frame by exact Hs.
    cbn [verdict consulted].
    destruct (checker_isEnable c e) eqn:En; cbn [continue andb].
    + destruct n as [|n]; [lia|].
      rewrite settle_succ, resume_only_frame by exact Hs.
      destruct (checker_isOpen c e) eqn:Op; cbn [continue fst snd flat_map].
      * rewrite settle_idle by (now rewrite suspended_conclude).
        unfold calls_of. rewrite En. cbn [app].
        now rewrite <- !record_emit, record_nil.
      * rewrite IH by (cbn; try exact Hs; lia).
        unfold calls_of at 2. rewrite En. cbn [app].
        now rewrite !record_emit.
    + rewrite IH by (cbn; try exact Hs; lia).
      cbn [flat_map]. unfold calls_of at 2. rewrite En. cbn [app].
      now rewrite record_emit.
Qed.

(** The checkers consulted are a prefix of those registered; none but the
    last is enabled and open, and the last is whenever one is skipped. *)
Lemma consulted_prefix e cs :
  exists skipped,
    cs = consulted e cs ++ skipped /\
    (forall c, In c (removelast (consulted e cs)) ->
               checker_isEnable c e && checker_isOpen c e = false) /\
    (skipped <> [] ->
     exists init c, consulted e cs = init ++ [c] /\
                    checker_isEnable c e && checker_isOpen c e = true).
Proof.
  induction cs as [|c rest (skipped & Heq & Hnone & Hlast)].
  - exists []. repeat split; try easy.
  - cbn [consulted].
    destruct (checker_isEnable c e && checker_isOpen c e) eqn:E.
    + exists rest. repeat split; try easy.
      intros _. now exists [], c.
    + exists skipped. split; [cbn; now rewrite <- Heq|]. split.
      * intros c' Hin. destruct (consulted e rest) as [|c'' l] eqn:Ec.
        -- destruct Hin.
        -- cbn [removelast] in Hin. destruct Hin as [<-|Hin]; [exact E|].
           now apply Hnone.
      * intros Hsk. destruct (Hlast Hsk) as (init & x & Hx & Hopen).
        exists (c :: init), x. now rewrite Hx.
Qed.

Lemma events_stop s : events (stop s) = events s.
Proof.
  unfold stop. destruct (detectLoopStopped (this s)); [reflexivity|].
  cbn [negb]. now destruct (timer (this s)).
Qed.

Lemma events_reschedule s : events (reschedule s) = events s.
Proof.
  unfold reschedule.
  destruct ((0 <? detectLoopDelay (this s))%Z && negb (detectLoopStopped (this s)));
    [reflexivity | apply events_stop].
Qed.

Lemma checker_calls_of e cs :
  checker_calls (flat_map (calls_of e) cs) = flat_map (calls_of e) cs.
Proof.
  induction cs as [|c cs IH]; [reflexivity|].
  cbn [flat_map]. rewrite checker_calls_app, IH. f_equal.
  unfold calls_of. now destruct (checker_isEnable c e).
Qed.

Lemma checker_calls_conclude (o : bool) (nm : string) s :
  checker_calls (events (conclude o nm s)) = checker_calls (events s).
Proof.
  destruct (bool_dec o (isOpen (this s))) as [->|H].
  - now rewrite conclude_same, events_reschedule.
  - rewrite (conclude_changed o nm s H), events_reschedule.
    cbn [record events set_this]. rewrite checker_calls_app.
    cbn [checker_calls filter].
    change (filter _ ?l) with (checker_calls l).
    rewrite checker_calls_notified.
    apply app_nil_r.
Qed.

(** The calls of a poll: on the consulted checkers, in their order. *)
Lemma poll_checker_calls e s :
  suspended s = [] ->
  checker_calls (events (poll e s))
  = checker_calls (events s) ++ flat_map (calls_of e) (consulted e (checkers (this s))).
Proof.
  intros H. unfold poll, detectLoop.
  rewrite poll_closed_form by (try exact H; lia).
  rewrite checker_calls_conclude. cbn [record events].
  now rewrite checker_calls_app, checker_calls_of.
Qed.

(** C8: whatever the listeners do, [broadcast] returns normally and every
    registered listener has been called, in registration order, with the
    same status: a listener that throws keeps none of the others from being
    notified.  The poll that broadcasts a transition then goes on to its
    end: on a running detector with a positive delay the next poll is
    scheduled. *)
Theorem throwing_listener_is_isolated
  (isDevtoolsOpen : bool) (checkerName : string) s :
  detectLoopStopped (this s) = false ->
  (0 < detectLoopDelay (this s))%Z ->
  isDevtoolsOpen <> isOpen (this s) ->
  fst (broadcast (mkStatus isDevtoolsOpen checkerName) s) = Return tt /\
  notifications (events (snd (broadcast (mkStatus isDevtoolsOpen checkerName) s)))
    = notifications (events s)
      ++ map (fun l => (listener_id l, isDevtoolsOpen,
                        mkStatus isDevtoolsOpen checkerName))
             (listeners (this s)) /\
  notifications (events (conclude isDevtoolsOpen checkerName s))
    = notifications (events s)
      ++ map (fun l => (listener_id l, isDevtoolsOpen,
                        mkStatus isDevtoolsOpen checkerName))
             (listeners (this s)) /\
  isOpen (this (conclude isDevtoolsOpen checkerName s)) = isDevtoolsOpen /\
  detectLoopStopped (this (conclude isDevtoolsOpen checkerName s)) = false /\
  timer (this (conclude isDevtoolsOpen checkerName s)) = Some (next_timer s) /\
  In (next_timer s) (pending (conclude isDevtoolsOpen checkerName s)).
Proof.
  intros Hrun Hdelay Hchange.
  rewrite broadcast_all. cbn [fst snd record events].
  split; [reflexivity|].
  assert (N : notifications
                (events s ++ Broadcast (mkStatus isDevtoolsOpen checkerName)
                   :: map (fun l => Notified (listener_id l) isDevtoolsOpen
                                             (mkStatus isDevtoolsOpen checkerName))
                          (listeners (this s)))
              = notifications (events s)
                ++ map (fun l => (listener_id l, isDevtoolsOpen,
                                  mkStatus isDevtoolsOpen checkerName))
                       (listeners (this s))).
  { rewrite notifications_app. f_equal.
    change (notifications (Broadcast ?b :: ?l)) with (notifications l).
    apply notifications_notified. }
  split; [exact N|].
  rewrite (conclude_changed _ _ _ Hchange).
  unfold reschedule.
  cbn [record set_this with_isOpen this detectLoopDelay detectLoopStopped].
  rewrite Hrun. apply Z.ltb_lt in Hdelay. rewrite Hdelay. cbn [andb negb].
  cbn [setTimeout_detectLoop this events pending next_timer isOpen
       detectLoopStopped timer].
  repeat split; try assumption.
  apply in_or_app. right. now left.
Qed.

(** *** Three checkers, the second one enabled and open (C5) *)

Lemma register_listeners (ls : list Listener) s :
  register ls s
  = set_this (mkDetector (listeners (this s) ++ ls) (isOpen (this s))
                         (detectLoopStopped (this s)) (detectLoopDelay (this s))
                         (checkers (this s)) (timer (this s))) s.
Proof.
  unfold register. revert s. induction ls as [|l ls IH]; intros s.
  - cbn [fold_left]. rewrite app_nil_r. now destruct s as [[] ? ? ? ?].
  - cbn [fold_left]. rewrite IH. unfold addListener, set_this.
    cbn [this listeners isOpen detectLoopStopped detectLoopDelay checkers timer
         pending next_timer suspended events].
    now rewrite <- app_assoc.
Qed.

Section ThreeCheckers.

Variables (e : env) (c1 c2 c3 : Checker env) (ls : list Listener).
Hypothesis first_disabled : checker_isEnable c1 e = false.
Hypothesis second_enabled : checker_isEnable c2 e = true.
Hypothesis second_open : checker_isOpen c2 e = true.

Lemma three_consulted : consulted e [c1; c2; c3] = [c1; c2].
Proof.
  cbn [consulted]. now rewrite first_disabled, second_enabled, second_open.
Qed.

Lemma three_verdict (o : bool) (nm : string) :
  verdict e [c1; c2; c3] o nm = (true, checker_name c2).
Proof.
  cbn [verdict]. now rewrite first_disabled, second_enabled, second_open.
Qed.

Lemma three_calls :
  flat_map (calls_of e) [c1; c2]
  = [CalledIsEnable (checker_name c1); CalledIsEnable (checker_name c2);
     CalledIsOpen (checker_name c2)].
Proof.
  cbn [flat_map]. unfold calls_of.
  now rewrite first_disabled, second_enabled.
Qed.

(** [launch()] and the poll it starts: one broadcast, to every listener. *)
Lemma three_launch :
  launch_and_poll e (register ls (boot [c1; c2; c3]))
  = waiting_open ls [c1; c2; c3] 0
      ([CalledIsEnable (checker_name c1); CalledIsEnable (checker_name c2);
        CalledIsOpen (checker_name c2);
        Broadcast (mkStatus true (checker_name c2))]
       ++ map (fun l => Notified (listener_id l) true
                                 (mkStatus true (checker_name c2))) ls).
Proof.
  rewrite register_listeners. unfold launch_and_poll, boot, create.
  cbn [set_this this checkers length listeners isOpen detectLoopStopped
       detectLoopDelay timer pending next_timer suspended events app
       step launch Z.leb Z.compare].
  unfold detectLoop.
  cbn [set_this this checkers length listeners isOpen detectLoopStopped
       detectLoopDelay timer pending next_timer suspended events].
  rewrite poll_closed_form by (cbn; try reflexivity; lia).
  rewrite three_consulted, three_verdict, three_calls. cbn [fst snd].
  rewrite conclude_changed by (cbn; discriminate).
  reflexivity.
Qed.

(** A later poll with the environment as it was: no broadcast. *)
Lemma three_tick (t : nat) (log : list event) :
  tick e (waiting_open ls [c1; c2; c3] t log)
  = waiting_open ls [c1; c2; c3] (S t)
      (log ++ [CalledIsEnable (checker_name c1); CalledIsEnable (checker_name c2);
               CalledIsOpen (checker_name c2)]).
Proof.
  unfold tick, waiting_open.
  cbn [this timer checkers length step pending existsb filter].
  rewrite Nat.eqb_refl. cbn [orb negb].
  unfold detectLoop.
  cbn [this checkers next_timer suspended events pending].
  rewrite poll_closed_form by (cbn; try reflexivity; lia).
  rewrite three_consulted, three_verdict, three_calls. cbn [fst snd].
  change true with (isOpen (this (record
    [CalledIsEnable (checker_name c1); CalledIsEnable (checker_name c2);
     CalledIsOpen (checker_name c2)]
    (mkSystem (mkDetector ls true false 500 [c1; c2; c3] (Some t)) [] (S t) [] log)))) at 1.
  rewrite conclude_same.
  reflexivity.
Qed.

Lemma three_ticks (n t : nat) (log : list event) :
  exists t' extra,
    Nat.iter n (tick e) (waiting_open ls [c1; c2; c3] t log)
    = waiting_open ls [c1; c2; c3] t' (log ++ extra) /\
    broadcasts extra = [] /\ notifications extra = [].
Proof.
  induction n as [|n (t' & extra & Heq & Hb & Hn)].
  - exists t, []. now rewrite app_nil_r.
  - rewrite Nat.iter_succ, Heq, three_tick.
    eexists _, _. rewrite <- app_assoc. split; [reflexivity|].
    rewrite broadcasts_app, notifications_app, Hb, Hn. now split.
Qed.

End ThreeCheckers.

(** C5: a poll, run without interruption in an environment that stays as
    it is, calls the checkers in registration order, [isOpen()] only on
    those whose [isEnable()] held, and goes no further than the first one
    that reports open: the checkers it gets to are a prefix of the
    registered ones, none of them but the last is enabled and open, and
    when a checker is skipped the last one consulted is.  With three
    checkers of which the first is not enabled and the second is enabled
    and open (whatever the third), [launch()] with its poll gives exactly
    one broadcast, with [isOpen = true] and the second checker's name, to
    every listener once; any number of further ticks in the same
    environment add none. *)
Theorem poll_order_and_edge_trigger
  e s (c1 c2 c3 : Checker env) (ls : list Listener) (n : nat) :
  suspended s = [] ->
  checker_isEnable c1 e = false ->
  checker_isEnable c2 e = true ->
  checker_isOpen c2 e = true ->
  (exists skipped,
      checkers (this s) = consulted e (checkers (this s)) ++ skipped /\
      checker_calls (events (poll e s))
        = checker_calls (events s)
          ++ flat_map (calls_of e) (consulted e (checkers (this s))) /\
      (forall c, In c (removelast (consulted e (checkers (this s)))) ->
                 checker_isEnable c e && checker_isOpen c e = false) /\
      (skipped <> [] ->
       exists init c, consulted e (checkers (this s)) = init ++ [c] /\
                      checker_isEnable c e && checker_isOpen c e = true)) /\
  broadcasts (events (launch_and_poll e (register ls (boot [c1; c2; c3]))))
    = [mkStatus true (checker_name c2)] /\
  notifications (events (launch_and_poll e (register ls (boot [c1; c2; c3]))))
    = map (fun l => (listener_id l, true, mkStatus true (checker_name c2))) ls /\
  broadcasts (events (Nat.iter n (tick e)
                        (launch_and_poll e (register ls (boot [c1; c2; c3])))))
    = [mkStatus true (checker_name c2)] /\
  notifications (events (Nat.iter n (tick e)
                           (launch_and_poll e (register ls (boot [c1; c2; c3])))))
    = map (fun l => (listener_id l, true, mkStatus true (checker_name c2))) ls.
Proof.
  intros Hs H1 H2 H3.
  split.
  { destruct (consulted_prefix e (checkers (this s))) as (skipped & Hp & Hn & Hl).
    exists skipped. repeat split; try assumption.
    now apply poll_checker_calls. }
  rewrite (three_launch e c1 c2 c3 ls H1 H2 H3).
  destruct (three_ticks e c1 c2 c3 ls H1 H2 H3 n 0
              ([CalledIsEnable (checker_name c1); CalledIsEnable (checker_name c2);
                CalledIsOpen (checker_name c2);
                Broadcast (mkStatus true (checker_name c2))]
               ++ map (fun l => Notified (listener_id l) true
                                         (mkStatus true (checker_name c2))) ls))
    as (t' & extra & -> & Hb & Hn).
  unfold waiting_open; cbn [events].
  rewrite !broadcasts_app, !notifications_app, Hb, Hn, !app_nil_r.
  rewrite broadcasts_notified, notifications_notified.
  repeat split.
Qed.

(** *** Stopping (C6) *)

(** Between two polls, with no call of [detectLoop] suspended and the
    scheduled timeout the only one pending, [stop()] is final: the loop is
    marked stopped, [isOpen] is [false], nothing is pending, and whatever
    the event loop runs next, short of another [launch()], changes neither
    that nor the events. *)
Lemma halted_step s (a : action env) :
  halted s -> not_launch a -> halted (step s a) /\ events (step s a) = events s.
Proof.
  intros (Hst & Hop & Hp & Hs) Ha.
  destruct a as [e| |l|t e|k e]; cbn [step].
  - destruct Ha.
  - unfold stop. rewrite Hst. cbn [negb]. now repeat split.
  - unfold addListener, halted. cbn. now repeat split.
  - rewrite Hp. cbn [existsb]. now repeat split.
  - rewrite Hs. destruct k; cbn [nth_error]; now repeat split.
Qed.

Lemma halted_steps s (acts : list (action env)) :
  halted s -> Forall not_launch acts ->
  halted (steps s acts) /\ events (steps s acts) = events s.
Proof.
  revert s. induction acts as [|a acts IH]; intros s Hh Hf; [now split|].
  inversion Hf as [|? ? Ha Hf']; subst.
  destruct (halted_step s a Hh Ha) as [Hh' He].
  destruct (IH (step s a) Hh' Hf') as [Hh'' He'].
  cbn [steps fold_left]. split; [exact Hh''|]. now rewrite <- He.
Qed.

Lemma stop_between_polls_is_final s (t : nat) (acts : list (action env)) :
  detectLoopStopped (this s) = false ->
  timer (this s) = Some t -> pending s = [t] -> suspended s = [] ->
  Forall not_launch acts ->
  halted (steps (stop s) acts) /\ events (steps (stop s) acts) = events s.
Proof.
  intros Hrun Ht Hp Hs Hf.
  assert (Hh : halted (stop s) /\ events (stop s) = events s).
  { unfold stop, halted. rewrite Hrun, Ht. cbn. rewrite Hp. cbn.
    rewrite Nat.eqb_refl. cbn. now repeat split. }
  destruct Hh as [Hh He].
  destruct (halted_steps (stop s) acts Hh Hf) as [Hh' He'].
  split; [exact Hh'|]. now rewrite He'.
Qed.

End DetectorProperties.

(** C6 does not hold of a [stop()] that comes while a poll is suspended at
    one of its [await]s: the poll carries on.  One checker, enabled and
    open, and one listener; [launch()] calls [isEnable()] and suspends;
    [stop()] returns with the loop stopped, [isOpen] false and nothing
    pending; the poll resumes, sets [isOpen] and broadcasts to the
    listener, and the detector is left stopped with [isOpen] true. *)
Theorem stop_during_poll_is_followed_by_broadcast :
  let c := mkChecker "c" (fun _ : unit => true) (fun _ : unit => true) in
  let l := mkListener 0 (fun _ _ => Return tt) in
  let running := step (addListener l (boot [c])) (Launch tt) in
  let stopped := step running Stop in
  let later := steps stopped [Resume 0 tt; Resume 0 tt] in
  detectLoopStopped (this running) = false /\
  detectLoopStopped (this stopped) = true /\
  isOpen (this stopped) = false /\
  pending stopped = [] /\
  events stopped = [CalledIsEnable "c"] /\
  events later
    = events stopped
      ++ [CalledIsOpen "c"; Broadcast (mkStatus true "c");
          Notified 0 true (mkStatus true "c")] /\
  detectLoopStopped (this later) = true /\
  isOpen (this later) = true /\
  pending later = [].
Proof. cbv zeta. repeat split. Qed.

Lemma throwing_listener_is_isolated_witness :
  let thrower := mkListener 0 (fun _ _ => Throw TypeError) in
  let other := mkListener 1 (fun _ _ => Return tt) in
  let s := mkSystem (mkDetector [thrower; other] false false 500
                                ([] : list (Checker unit)) None) [] 0 [] [] in
  detectLoopStopped (this s) = false /\
  (0 < detectLoopDelay (this s))%Z /\
  true <> isOpen (this s) /\
  listener_call thrower true (mkStatus true "c") = Throw TypeError /\
  notifications (events (conclude true "c" s))
    = [(0%nat, true, mkStatus true "c"); (1%nat, true, mkStatus true "c")] /\
  timer (this (conclude true "c" s)) = Some 0%nat /\
  In 0%nat (pending (conclude true "c" s)).
Proof.
  cbv zeta.
  assert (H1 : detectLoopStopped
                 (this (mkSystem (mkDetector [mkListener 0 (fun _ _ => Throw TypeError);
                                              mkListener 1 (fun _ _ => Return tt)]
                                             false false 500
                                             ([] : list (Checker unit)) None)
                                 [] 0 [] [])) = false) by reflexivity.
  assert (H2 : (0 < detectLoopDelay
                 (this (mkSystem (mkDetector [mkListener 0 (fun _ _ => Throw TypeError);
                                              mkListener 1 (fun _ _ => Return tt)]
                                             false false 500
                                             ([] : list (Checker unit)) None)
                                 [] 0 [] [])))%Z) by (cbn; lia).
  assert (H3 : true <> isOpen
                 (this (mkSystem (mkDetector [mkListener 0 (fun _ _ => Throw TypeError);
                                              mkListener 1 (fun _ _ => Return tt)]
                                             false false 500
                                             ([] : list (Checker unit)) None)
                                 [] 0 [] []))) by (cbn; discriminate).
  split; [exact H1|]. split; [exact H2|]. split; [exact H3|].
  split; [reflexivity|].
  destruct (throwing_listener_is_isolated true "c" _ H1 H2 H3)
    as (_ & _ & Hn & _ & _ & Ht & Hp).
  split; [exact Hn|]. split; [exact Ht | exact Hp].
Defined.

Lemma poll_order_and_edge_trigger_witness :
  let c1 := mkChecker "first" (fun _ : unit => false) (fun _ : unit => false) in
  let c2 := mkChecker "second" (fun _ : unit => true) (fun _ : unit => true) in
  let c3 := mkChecker "third" (fun _ : unit => false) (fun _ : unit => false) in
  let l := mkListener 7 (fun _ _ => Return tt) in
  suspended (boot [c1; c2; c3]) = [] /\
  checker_isEnable c1 tt = false /\
  checker_isEnable c2 tt = true /\
  checker_isOpen c2 tt = true /\
  broadcasts (events (launch_and_poll tt (register [l] (boot [c1; c2; c3]))))
    = [mkStatus true "second"] /\
  broadcasts (events (Nat.iter 1 (tick tt)
                        (launch_and_poll tt (register [l] (boot [c1; c2; c3])))))
    = [mkStatus true "second"] /\
  notifications (events (Nat.iter 1 (tick tt)
                           (launch_and_poll tt (register [l] (boot [c1; c2; c3])))))
    = [(7%nat, true, mkStatus true "second")].
Proof.
  cbv zeta.
  destruct (poll_order_and_edge_trigger tt
              (boot [mkChecker "first" (fun _ : unit => false) (fun _ : unit => false);
                     mkChecker "second" (fun _ : unit => true) (fun _ : unit => true);
                     mkChecker "third" (fun _ : unit => false) (fun _ : unit => false)])
              (mkChecker "first" (fun _ : unit => false) (fun _ : unit => false))
              (mkChecker "second" (fun _ : unit => true) (fun _ : unit => true))
              (mkChecker "third" (fun _ : unit => false) (fun _ : unit => false))
              [mkListener 7 (fun _ _ => Return tt)] 1
              eq_refl eq_refl eq_refl eq_refl)
    as (_ & Hb & _ & Hb' & Hn').
  repeat split; try reflexivity; assumption.
Defined.

(** ** Mp4Player: backend selection (C7) *)

Import Mp4Player.

(** C7, as stated, fails: with every capability false the specification's
    chain ends in the raw-video backend, while [setup] has taken the
    native one in its last [else]. *)
Lemma all_capabilities_false_selects_native :
  spec_select (mkSpecCapabilities false false false false false) = Mp4PlayerVideo /\
  Mp4Player.setup (mkCapabilities false false false false false) = Some Mp4PlayerNative /\
  Mp4Player.setup (mkCapabilities false false false false false)
    <> Some (spec_select (mkSpecCapabilities false false false false false)).
Proof. repeat split. discriminate. Qed.

(** C7, amended: selection is a first-match chain: the stream-interception
    backend when the facility is present, neither deny-list entry applies
    and the version gate holds; else the source-buffering backend when that
    facility is present; else the native backend, with no test of codec
    support.  It is the specification's chain for a browser with native
    codec support.  The raw-video backend is kept for the case that the
    chain left no backend object, which it never does: with all
    capabilities false the native backend is selected. *)
Theorem selection_chain_ends_in_native
  (mediaSource serviceWorker edge heytap chromeOk : bool) :
  Mp4Player.setup (mkCapabilities mediaSource serviceWorker edge heytap chromeOk)
    = Some (if serviceWorker && negb edge && negb heytap && chromeOk
            then Mp4PlayerSW
            else if mediaSource then Mp4PlayerBox
            else Mp4PlayerNative) /\
  Mp4Player.setup (mkCapabilities mediaSource serviceWorker edge heytap chromeOk)
    = Some (spec_select (mkSpecCapabilities serviceWorker (edge || heytap)
                                            chromeOk mediaSource true)) /\
  Mp4Player.setup (mkCapabilities mediaSource serviceWorker edge heytap chromeOk)
    <> Some Mp4PlayerVideo /\
  Mp4Player.setup (mkCapabilities false false false false false)
    = Some Mp4PlayerNative.
Proof.
  destruct mediaSource, serviceWorker, edge, heytap, chromeOk;
    repeat split; discriminate.
Qed.

(** ** Player (C9) *)

Import Player.

(** The controller sets a backend up only in a browser with native codec
    support: without it [setup] destroys the session first. *)
Lemma backend_needs_native_codec (pg : page) (config : object) (p : player)
      (impl : implementation) :
  In (BackendSetup impl) (effects (Player.setup pg config p)) ->
  ~ In (BackendSetup impl) (effects p) ->
  isCanPlayTypeSupported pg = true.
Proof.
  intros Hin Hnot.
  destruct (isCanPlayTypeSupported pg) eqn:E; [reflexivity|].
  exfalso. apply Hnot. revert Hin.
  unfold Player.setup, isSupported. rewrite E. cbn [andb negb].
  unfold destroy. destruct (isDestroyed p); cbn [negb]; [easy|].
  destruct (playerInstance p), (tracker p); cbn;
    rewrite ?in_app_iff; cbn; intuition discriminate.
Qed.

Lemma destroy_destroyed (reason : value) (p : player) :
  isDestroyed p = true -> destroy reason p = p.
Proof. intros H. unfold destroy. now rewrite H. Qed.

Lemma destroy_again (again : list value) (p : player) :
  isDestroyed p = true -> fold_left (fun p r => destroy r p) again p = p.
Proof.
  intros H. induction again as [|r again IH]; [reflexivity|].
  cbn [fold_left]. now rewrite destroy_destroyed.
Qed.

Lemma warnings_app (l1 l2 : list effect) :
  warnings (l1 ++ l2) = warnings l1 ++ warnings l2.
Proof. apply flat_map_app. Qed.

(** C9: on a session not yet destroyed, [destroy(reason)] destroys the
    backend, if there is one, the service registration and the tracker,
    if there is one, clears the options, and notifies once, with the
    reason given or, for a falsy one, with the default text; every further
    [destroy] changes nothing, so that however often it is called there is
    exactly one more notification than before. *)
Theorem destroy_is_idempotent (reason : value) (again : list value) (p : player) :
  isDestroyed p = false ->
  effects (destroy reason p)
    = effects p
      ++ match playerInstance p with
         | Some impl => [BackendDestroy impl]
         | None => []
         end
      ++ [ServiceWorkerDestroy]
      ++ (if tracker p then [TrackerDestroy] else [])
      ++ [ShowSecurityWarning (lit "Notification") (reason_or_default reason)] /\
  (truthy reason = true -> reason_or_default reason = reason) /\
  playerInstance (destroy reason p) = None /\
  tracker (destroy reason p) = false /\
  options (destroy reason p) = empty_object /\
  isDestroyed (destroy reason p) = true /\
  fold_left (fun p r => destroy r p) again (destroy reason p) = destroy reason p /\
  warnings (effects (fold_left (fun p r => destroy r p) again (destroy reason p)))
    = warnings (effects p) ++ [(lit "Notification", reason_or_default reason)].
Proof.
  intros Hlive.
  assert (Hd : isDestroyed (destroy reason p) = true).
  { unfold destroy. rewrite Hlive. cbn [negb].
    now destruct (playerInstance p), (tracker p). }
  assert (He : effects (destroy reason p)
               = effects p
                 ++ match playerInstance p with
                    | Some impl => [BackendDestroy impl]
                    | None => []
                    end
                 ++ [ServiceWorkerDestroy]
                 ++ (if tracker p then [TrackerDestroy] else [])
                 ++ [ShowSecurityWarning (lit "Notification") (reason_or_default reason)]).
  { unfold destroy. rewrite Hlive. cbn [negb].
    destruct (playerInstance p), (tracker p); cbn; now rewrite <- ?app_assoc. }
  split; [exact He|].
  split; [intros Ht; unfold reason_or_default; now rewrite Ht|].
  split; [unfold destroy; rewrite Hlive; now destruct (playerInstance p), (tracker p)|].
  split; [unfold destroy; rewrite Hlive; now destruct (playerInstance p), (tracker p)|].
  split; [unfold destroy; rewrite Hlive; now destruct (playerInstance p), (tracker p)|].
  split; [exact Hd|].
  rewrite (destroy_again again _ Hd).
  split; [reflexivity|].
  rewrite He, !warnings_app.
  destruct (playerInstance p), (tracker p); cbn; now rewrite ?app_nil_r.
Qed.

(** A session set up in a framed, secure page with one mp4 source. *)
Lemma destroy_is_idempotent_witness :
  let pg := mkPage true true true true false true (bundle_capabilities true true) in
  let config := mkObject (Some [Some (Some "mp4"%string)]) (Some (VString (lit "v1")))
                         None [] in
  let p := Player.setup pg config Player.create in
  isDestroyed p = false /\
  playerInstance p = Some (Some Mp4PlayerSW) /\
  effects (destroy (VString (lit "bye")) p)
    = [TrackerStart; ServiceWorkerRegister; BackendSetup Mp4PlayerSW;
       BackendDestroy (Some Mp4PlayerSW); ServiceWorkerDestroy; TrackerDestroy;
       ShowSecurityWarning (lit "Notification") (VString (lit "bye"))] /\
  warnings (effects (fold_left (fun p r => destroy r p) [VString (lit "bye")]
                               (destroy (VString (lit "bye")) p)))
    = [(lit "Notification", VString (lit "bye"))].
Proof.
  cbv zeta.
  assert (H : isDestroyed
                (Player.setup
                   (mkPage true true true true false true (bundle_capabilities true true))
                   (mkObject (Some [Some (Some "mp4"%string)])
                             (Some (VString (lit "v1"))) None [])
                   Player.create) = false) by reflexivity.
  split; [exact H|]. split; [reflexivity|].
  destruct (destroy_is_idempotent (VString (lit "bye")) [VString (lit "bye")] _ H)
    as (He & _ & _ & _ & _ & _ & _ & Hw).
  split; [exact He | exact Hw].
Defined.

(** Specification, section 8: a configuration whose only source is not mp4 ends in
    "No playable sources found", and a second [destroy] adds nothing. *)
Example unsupported_container :
  let pg := mkPage true true true true false true (bundle_capabilities true true) in
  let config := mkObject (Some [Some (Some "webm"%string)]) None None [] in
  let p := Player.setup pg config Player.create in
  effects p = [ServiceWorkerDestroy;
               ShowSecurityWarning (lit "Notification")
                                   (VString (lit "No playable sources found"))] /\
  destroy VUndefined p = p.
Proof. cbv zeta. split; reflexivity. Qed.

(** ** Reference values for the platform models *)

(** Specification, section 8: the digests of the empty message and of "abc". *)
Example md5_empty :
  MD5.md5 (VString (lit "")) = Return (lit "d41d8cd98f00b204e9800998ecf8427e").
Proof. vm_compute. reflexivity. Qed.

Example md5_abc :
  MD5.md5 (VString (lit "abc")) = Return (lit "900150983cd24fb0d6963f7d28e17f72").
Proof. vm_compute. reflexivity. Qed.

(** A message of 64 bytes takes a second block for its padding. *)
Example md5_block_boundary :
  MD5.md5 (VString (lit "1234567890123456789012345678901234567890123456789012345678901234"))
  = Return (lit "eb6c4179c0a7c82cc2828c1e6338e165").
Proof. vm_compute. reflexivity. Qed.

(** The example vector of the AES standard for a 256-bit key. *)
Example aes256_vector :
  AES.encrypt_block
    (AES.key_schedule (map byte_of_N (map N.of_nat (seq 0 32))))
    0x00112233445566778899aabbccddeeff
  = 0x8ea2b7ca516745bfeafc49904b496089.
Proof. vm_compute. reflexivity. Qed.

Example atob_hello : Text.atob (lit "aGVsbG8=") = lit "hello".
Proof. vm_compute. reflexivity. Qed.

(** Base64 text of a ciphertext decrypts to the plaintext. *)
Example decrypt_base64_text :
  outcome (decrypt (VString (lit "ttQDtcOSfnj7sZ288NlrEpox9jHgJ2RwfCi/")))
          (after (expandKey (VString (lit "abc"))) AesCtrCipher.create)
  = Return (VString (lit "hello world, this is a test")).
Proof. vm_compute. reflexivity. Qed.

(* ===================================================================== *)
(** * Further properties of the code *)
(* ===================================================================== *)

(** ** AesCtrCipher: what the instance keeps *)

Lemma after_encrypt (data : value) (self : cipher) :
  after (encrypt data) self = self.
Proof.
  unfold after, run, encrypt, bind, get, log, lift, ret; cbn [fst snd].
  destruct (falsy data); [reflexivity|].
  destruct (cryptoKey self) as [key|]; [|reflexivity].
  cbn [fst snd].
  destruct (aes_ctr (aesConfig self) key _); reflexivity.
Qed.

Lemma after_decrypt (data : value) (self : cipher) :
  after (decrypt data) self = self.
Proof.
  unfold after, run, decrypt, bind, get, log, lift, ret; cbn [fst snd].
  destruct (falsy data); [reflexivity|].
  destruct (cryptoKey self) as [key|]; [|reflexivity].
  destruct data; cbn [fst snd];
    match goal with
    | |- context [aes_ctr ?a ?k ?d] => destruct (aes_ctr a k d); reflexivity
    end.
Qed.

Lemma after_invoke (r : request) (self : cipher) : after (invoke r) self = self.
Proof. destruct r; [apply after_encrypt | apply after_decrypt]. Qed.

(** What [expandKey] can do to an instance: nothing, or a new counter
    with the key kept, or a new counter and a new key. *)
Lemma after_expandKey (keyString : value) (self : cipher) :
  after (expandKey keyString) self = self \/
  exists counter key,
    after (expandKey keyString) self
    = mkCipher key (mkConfig (alg_name (aesConfig self))
                             (alg_length (aesConfig self)) (Some counter)) /\
    (key = cryptoKey self \/ exists k, key = Some k).
Proof.
  unfold after, run, expandKey.
  destruct (falsy keyString); [now left|].
  unfold bind, lift, get, put, log, try_catch, ret; cbn [fst snd].
  destruct (MD5.md5 keyString) as [h|e]; [|now left].
  right. destruct (importKey (Text.utf8_encode h)) as [k|e]; cbn [fst snd].
  - exists (firstn 16 (Text.utf8_encode h)), (Some k). split; [reflexivity|].
    right. now exists k.
  - exists (firstn 16 (Text.utf8_encode h)), (cryptoKey self). split; [reflexivity|].
    now left.
Qed.

Lemma instance_after_keeps (m : method) (self : cipher) :
  cryptoKey self <> None ->
  cryptoKey (instance_after m self) <> None /\
  alg_name (aesConfig (instance_after m self)) = alg_name (aesConfig self) /\
  alg_length (aesConfig (instance_after m self)) = alg_length (aesConfig self).
Proof.
  intros Hk. destruct m as [keyString|r]; cbn [instance_after].
  - destruct (after_expandKey keyString self) as [->|(c & key & -> & Hkey)];
      [now repeat split|].
    cbn [cryptoKey aesConfig alg_name alg_length]. repeat split.
    destruct Hkey as [->|[k ->]]; [exact Hk | discriminate].
  - rewrite after_invoke. now repeat split.
Qed.

(** X1: the cipher never goes back to the uninitialized state.  Once a
    key is set, no sequence of [expandKey], [encrypt] and [decrypt] calls,
    whatever their arguments and whether they return or throw, leaves the
    instance without a key; the algorithm's name and counter length stay
    as they were. *)
Theorem key_once_set_stays_set (ms : list method) (self : cipher) :
  cryptoKey self <> None ->
  cryptoKey (instance_after_all ms self) <> None /\
  alg_name (aesConfig (instance_after_all ms self)) = alg_name (aesConfig self) /\
  alg_length (aesConfig (instance_after_all ms self)) = alg_length (aesConfig self).
Proof.
  revert self. induction ms as [|m ms IH]; intros self Hk.
  - now repeat split.
  - cbn [instance_after_all fold_left].
    destruct (instance_after_keeps m self Hk) as (Hk' & Hn & Hl).
    destruct (IH (instance_after m self) Hk') as (Hk'' & Hn' & Hl').
    unfold instance_after_all in *.
    repeat split; [exact Hk'' | congruence | congruence].
Qed.

Lemma key_once_set_stays_set_witness :
  cryptoKey (after (expandKey (VString (lit "abc"))) AesCtrCipher.create) <> None /\
  cryptoKey (instance_after_all
               [ExpandKey (VString (lit "")); ExpandKey (VBool true);
                Data (Decrypt (VNumber 5)); Data (Encrypt (VString (lit "x")))]
               (after (expandKey (VString (lit "abc"))) AesCtrCipher.create))
    <> None.
Proof.
  assert (H : cryptoKey (after (expandKey (VString (lit "abc"))) AesCtrCipher.create)
              <> None) by (vm_compute; discriminate).
  split; [exact H|].
  exact (proj1 (key_once_set_stays_set
                  [ExpandKey (VString (lit "")); ExpandKey (VBool true);
                   Data (Decrypt (VNumber 5)); Data (Encrypt (VString (lit "x")))]
                  _ H)).
Defined.

(** X2: [encrypt] and [decrypt] only read the instance: whatever the
    argument, and whether the call returns or throws, key and counter are
    afterwards what they were, so every call starts from the same initial
    counter. *)
Theorem data_methods_leave_instance_unchanged (rs : list request) (self : cipher) :
  snd (serve rs self) = self /\
  instance_after_all (map Data rs) self = self.
Proof.
  split.
  - revert self. induction rs as [|r rs IH]; intros self; [reflexivity|].
    cbn [serve]. rewrite after_invoke.
    specialize (IH self). destruct (serve rs self) as [answers final].
    exact IH.
  - induction rs as [|r rs IH]; [reflexivity|].
    cbn [map instance_after_all fold_left instance_after].
    rewrite after_invoke. exact IH.
Qed.

(** ** AesCtrCipher: the key stream *)

Lemma to_N_bxor (a b : byte) :
  Byte.to_N (CTR.bxor a b) = N.lxor (Byte.to_N a) (Byte.to_N b).
Proof.
  unfold CTR.bxor. rewrite to_N_byte_of_N.
  pose proof (Byte.to_N_bounded a). pose proof (Byte.to_N_bounded b).
  apply N.mod_small, lxor_below_256; lia.
Qed.

Lemma to_N_inj (a b : byte) : Byte.to_N a = Byte.to_N b -> a = b.
Proof.
  intros H. rewrite <- (byte_of_to_N a), <- (byte_of_to_N b). now rewrite H.
Qed.

(** The key byte cancels between two bytes masked with it. *)
Lemma bxor_same_key (a b k : byte) :
  CTR.bxor (CTR.bxor a k) (CTR.bxor b k) = CTR.bxor a b.
Proof.
  apply to_N_inj. rewrite !to_N_bxor.
  rewrite (N.lxor_comm (Byte.to_N b)), N.lxor_assoc.
  rewrite <- (N.lxor_assoc (Byte.to_N k)), N.lxor_nilpotent, N.lxor_0_l.
  reflexivity.
Qed.

Lemma xor_stream_same_key (a b ks : list byte) :
  (length a <= length ks)%nat -> (length b <= length ks)%nat ->
  CTR.xor_stream (CTR.xor_stream a ks) (CTR.xor_stream b ks) = CTR.xor_stream a b.
Proof.
  revert b ks. induction a as [|x a IH]; intros [|y b] [|k ks] Ha Hb;
    cbn in *; try reflexivity; try lia.
  now rewrite bxor_same_key, IH by lia.
Qed.

(** Only as much of the key stream as there is data is used. *)
Lemma xor_stream_firstn_key (data ks : list byte) (m : nat) :
  (length data <= m)%nat ->
  CTR.xor_stream data (firstn m ks) = CTR.xor_stream data ks.
Proof.
  revert ks m. induction data as [|d data IH]; intros [|k ks] [|m] H;
    cbn in *; try reflexivity; try lia.
  now rewrite IH by lia.
Qed.

Lemma firstn_xor_stream (n : nat) (data ks : list byte) :
  firstn n (CTR.xor_stream data ks) = CTR.xor_stream (firstn n data) ks.
Proof.
  revert data ks. induction n as [|n IH]; intros [|d data] [|k ks];
    cbn; try reflexivity.
  now rewrite IH.
Qed.

(** A shorter key stream is the beginning of a longer one: both start at
    the same counter block. *)
Lemma keystream_prefix (E : N -> N) (ctr len : N) (n m : nat) :
  (n <= m)%nat ->
  CTR.keystream E ctr len n = firstn n (CTR.keystream E ctr len m).
Proof.
  intros H. unfold CTR.keystream.
  rewrite firstn_firstn, Nat.min_l by exact H.
  assert (B : ((n + 15) / 16 <= (m + 15) / 16)%nat)
    by (apply Nat.Div0.div_le_mono; lia).
  replace ((m + 15) / 16)%nat
    with ((n + 15) / 16 + ((m + 15) / 16 - (n + 15) / 16))%nat by lia.
  rewrite seq_app, flat_map_app, firstn_app.
  rewrite flat_map_blocks_length by (intros; apply value_bytes_length).
  rewrite length_seq.
  replace (n - 16 * ((n + 15) / 16))%nat with 0%nat.
  - cbn [firstn]. now rewrite app_nil_r.
  - pose proof (Nat.div_mod_eq (n + 15) 16).
    pose proof (Nat.mod_upper_bound (n + 15) 16). lia.
Qed.

Lemma transform_as_prefix (E : N -> N) (ctr len : N) (data : list byte) (m : nat) :
  (length data <= m)%nat ->
  CTR.transform E ctr len data = CTR.xor_stream data (CTR.keystream E ctr len m).
Proof.
  intros H. unfold CTR.transform.
  rewrite (keystream_prefix E ctr len (length data) m H).
  now apply xor_stream_firstn_key.
Qed.

Lemma transform_firstn (E : N -> N) (ctr len : N) (n : nat) (data : list byte) :
  CTR.transform E ctr len (firstn n data) = firstn n (CTR.transform E ctr len data).
Proof.
  rewrite (transform_as_prefix E ctr len (firstn n data) (length data))
    by (rewrite length_firstn; lia).
  unfold CTR.transform. now rewrite firstn_xor_stream.
Qed.

Lemma transform_same_key (E : N -> N) (ctr len : N) (a b : list byte) :
  CTR.xor_stream (CTR.transform E ctr len a) (CTR.transform E ctr len b)
  = CTR.xor_stream a b.
Proof.
  rewrite (transform_as_prefix E ctr len a (Nat.max (length a) (length b))) by lia.
  rewrite (transform_as_prefix E ctr len b (Nat.max (length a) (length b))) by lia.
  apply xor_stream_same_key; rewrite keystream_length; lia.
Qed.

(** A key-expanded instance, as an accepted [expandKey] leaves it. *)
Lemma accepted_instance (secret : value) (self0 : cipher) :
  alg_length (aesConfig self0) = 128 ->
  outcome (expandKey secret) self0 = Return true ->
  exists key cfg c,
    after (expandKey secret) self0 = mkCipher (Some key) cfg /\
    alg_counter cfg = Some c /\ length c = 16%nat /\ alg_length cfg = 128 /\
    c = firstn 16 (key_data key) /\ (16 <= length (key_data key))%nat.
Proof.
  intros Hbits Hexp.
  destruct (expandKey_accepted _ _ Hexp) as (keyData & Hlen & Hrun).
  unfold after. rewrite Hrun. cbn [fst snd].
  eexists _, _, _. split; [reflexivity|].
  cbn [alg_counter alg_length key_data].
  repeat split; try assumption.
  rewrite length_firstn. lia.
Qed.

(** X3: the initial counter is not independent of the key: after an
    accepted [expandKey] the counter block is the first 16 bytes of the
    very key material that was imported. *)
Theorem counter_is_prefix_of_key (secret : value) (self0 : cipher) :
  outcome (expandKey secret) self0 = Return true ->
  exists keyData,
    cryptoKey (after (expandKey secret) self0) = Some (mkKey keyData) /\
    alg_counter (aesConfig (after (expandKey secret) self0))
      = Some (firstn 16 keyData) /\
    calls (expandKey secret) self0 = [CallImportKey keyData].
Proof.
  intros Hexp.
  destruct (expandKey_accepted _ _ Hexp) as (keyData & Hlen & Hrun).
  exists keyData. unfold after, calls. rewrite Hrun. now repeat split.
Qed.

Lemma counter_is_prefix_of_key_witness :
  outcome (expandKey (VString (lit "abc"))) AesCtrCipher.create = Return true /\
  exists keyData,
    cryptoKey (after (expandKey (VString (lit "abc"))) AesCtrCipher.create)
      = Some (mkKey keyData) /\
    alg_counter (aesConfig (after (expandKey (VString (lit "abc"))) AesCtrCipher.create))
      = Some (firstn 16 keyData) /\
    calls (expandKey (VString (lit "abc"))) AesCtrCipher.create
      = [CallImportKey keyData].
Proof.
  assert (H : outcome (expandKey (VString (lit "abc"))) AesCtrCipher.create
              = Return true) by (vm_compute; reflexivity).
  split; [exact H|].
  exact (counter_is_prefix_of_key (VString (lit "abc")) AesCtrCipher.create H).
Defined.

(** X4: every call uses the key stream from its start.  For two buffers
    encrypted by the same key-expanded instance, the exclusive or of the
    two ciphertexts is the exclusive or of the two plaintexts, over their
    common length: the key stream cancels. *)
Theorem two_ciphertexts_share_the_key_stream
  (secret : value) (self0 : cipher) (a b : list byte) :
  alg_length (aesConfig self0) = 128 ->
  outcome (expandKey secret) self0 = Return true ->
  exists ca cb : jsstring,
    outcome (encrypt (VBytes a)) (after (expandKey secret) self0)
      = Return (VString ca) /\
    outcome (encrypt (VBytes b)) (after (expandKey secret) self0)
      = Return (VString cb) /\
    CTR.xor_stream (char_codes ca) (char_codes cb) = CTR.xor_stream a b.
Proof.
  intros Hbits Hexp.
  destruct (accepted_instance _ _ Hbits Hexp) as (key & cfg & c & -> & Hc & Hs & Hb & _).
  exists (map fromCharCode (keyed_transform key c a)),
         (map fromCharCode (keyed_transform key c b)).
  unfold outcome.
  rewrite (encrypt_expanded key cfg c Hc Hs Hb (VBytes a) a eq_refl eq_refl).
  rewrite (encrypt_expanded key cfg c Hc Hs Hb (VBytes b) b eq_refl eq_refl).
  cbn [fst]. repeat split.
  rewrite !char_codes_fromCharCode. apply transform_same_key.
Qed.

Lemma two_ciphertexts_share_the_key_stream_witness :
  alg_length (aesConfig AesCtrCipher.create) = 128 /\
  outcome (expandKey (VString (lit "abc"))) AesCtrCipher.create = Return true /\
  exists ca cb : jsstring,
    outcome (encrypt (VBytes [x01; x02; x03]))
            (after (expandKey (VString (lit "abc"))) AesCtrCipher.create)
      = Return (VString ca) /\
    outcome (encrypt (VBytes [xff; x00]))
            (after (expandKey (VString (lit "abc"))) AesCtrCipher.create)
      = Return (VString cb) /\
    CTR.xor_stream (char_codes ca) (char_codes cb)
      = CTR.xor_stream [x01; x02; x03] [xff; x00].
Proof.
  assert (H1 : alg_length (aesConfig AesCtrCipher.create) = 128) by reflexivity.
  assert (H2 : outcome (expandKey (VString (lit "abc"))) AesCtrCipher.create
               = Return true) by (vm_compute; reflexivity).
  split; [exact H1|]. split; [exact H2|].
  exact (two_ciphertexts_share_the_key_stream
           (VString (lit "abc")) AesCtrCipher.create [x01; x02; x03] [xff; x00] H1 H2).
Defined.

(** X5: the cipher is a stream: the ciphertext of the first [n] bytes of
    a buffer is the first [n] characters of the ciphertext of the whole
    buffer. *)
Theorem ciphertext_of_prefix_is_prefix
  (secret : value) (self0 : cipher) (data : list byte) (n : nat) :
  alg_length (aesConfig self0) = 128 ->
  outcome (expandKey secret) self0 = Return true ->
  exists whole : jsstring,
    outcome (encrypt (VBytes data)) (after (expandKey secret) self0)
      = Return (VString whole) /\
    outcome (encrypt (VBytes (firstn n data))) (after (expandKey secret) self0)
      = Return (VString (firstn n whole)).
Proof.
  intros Hbits Hexp.
  destruct (accepted_instance _ _ Hbits Hexp) as (key & cfg & c & -> & Hc & Hs & Hb & _).
  exists (map fromCharCode (keyed_transform key c data)).
  unfold outcome.
  rewrite (encrypt_expanded key cfg c Hc Hs Hb (VBytes data) data eq_refl eq_refl).
  rewrite (encrypt_expanded key cfg c Hc Hs Hb (VBytes (firstn n data)) _
             eq_refl eq_refl).
  cbn [fst]. split; [reflexivity|].
  unfold keyed_transform. now rewrite transform_firstn, firstn_map.
Qed.

Lemma ciphertext_of_prefix_is_prefix_witness :
  alg_length (aesConfig AesCtrCipher.create) = 128 /\
  outcome (expandKey (VString (lit "abc"))) AesCtrCipher.create = Return true /\
  exists whole : jsstring,
    outcome (encrypt (VBytes [x10; x20; x30; x40]))
            (after (expandKey (VString (lit "abc"))) AesCtrCipher.create)
      = Return (VString whole) /\
    outcome (encrypt (VBytes (firstn 2 [x10; x20; x30; x40])))
            (after (expandKey (VString (lit "abc"))) AesCtrCipher.create)
      = Return (VString (firstn 2 whole)).
Proof.
  assert (H1 : alg_length (aesConfig AesCtrCipher.create) = 128) by reflexivity.
  assert (H2 : outcome (expandKey (VString (lit "abc"))) AesCtrCipher.create
               = Return true) by (vm_compute; reflexivity).
  split; [exact H1|]. split; [exact H2|].
  exact (ciphertext_of_prefix_is_prefix
           (VString (lit "abc")) AesCtrCipher.create [x10; x20; x30; x40] 2 H1 H2).
Defined.

(** X6: on buffers [encrypt] and [decrypt] are one transform in two
    containers: for the same bytes, [decrypt] returns as a byte array what
    [encrypt] returns as characters, and encrypting those bytes once more
    gives back the original bytes (as characters). *)
Theorem encrypt_and_decrypt_are_one_transform
  (secret : value) (self0 : cipher) (data : list byte) :
  alg_length (aesConfig self0) = 128 ->
  outcome (expandKey secret) self0 = Return true ->
  exists t : list byte,
    outcome (encrypt (VBytes data)) (after (expandKey secret) self0)
      = Return (VString (map fromCharCode t)) /\
    outcome (decrypt (VBytes data)) (after (expandKey secret) self0)
      = Return (VBytes t) /\
    length t = length data /\
    outcome (encrypt (VBytes t)) (after (expandKey secret) self0)
      = Return (VString (map fromCharCode data)).
Proof.
  intros Hbits Hexp.
  destruct (accepted_instance _ _ Hbits Hexp) as (key & cfg & c & -> & Hc & Hs & Hb & _).
  exists (keyed_transform key c data). unfold outcome.
  rewrite (encrypt_expanded key cfg c Hc Hs Hb (VBytes data) data eq_refl eq_refl).
  rewrite (decrypt_expanded_bytes key cfg c Hc Hs Hb data).
  rewrite (encrypt_expanded key cfg c Hc Hs Hb (VBytes _) _ eq_refl eq_refl).
  cbn [fst]. unfold keyed_transform.
  rewrite transform_length, transform_involutive. now repeat split.
Qed.

Lemma encrypt_and_decrypt_are_one_transform_witness :
  alg_length (aesConfig AesCtrCipher.create) = 128 /\
  outcome (expandKey (VString (lit "abc"))) AesCtrCipher.create = Return true /\
  exists t : list byte,
    outcome (encrypt (VBytes [x10; x20; x30]))
            (after (expandKey (VString (lit "abc"))) AesCtrCipher.create)
      = Return (VString (map fromCharCode t)) /\
    outcome (decrypt (VBytes [x10; x20; x30]))
            (after (expandKey (VString (lit "abc"))) AesCtrCipher.create)
      = Return (VBytes t) /\
    length t = length [x10; x20; x30] /\
    outcome (encrypt (VBytes t))
            (after (expandKey (VString (lit "abc"))) AesCtrCipher.create)
      = Return (VString (map fromCharCode [x10; x20; x30])).
Proof.
  assert (H1 : alg_length (aesConfig AesCtrCipher.create) = 128) by reflexivity.
  assert (H2 : outcome (expandKey (VString (lit "abc"))) AesCtrCipher.create
               = Return true) by (vm_compute; reflexivity).
  split; [exact H1|]. split; [exact H2|].
  exact (encrypt_and_decrypt_are_one_transform
           (VString (lit "abc")) AesCtrCipher.create [x10; x20; x30] H1 H2).
Defined.

(** ** AesCtrCipher: re-keying, and text through base64 *)

Lemma expandKey_accepted_digest (secret : value) (self0 : cipher) :
  outcome (expandKey secret) self0 = Return true ->
  exists h,
    MD5.md5 secret = Return h /\
    after (expandKey secret) self0
    = mkCipher (Some (mkKey (Text.utf8_encode h)))
               (mkConfig (alg_name (aesConfig self0)) (alg_length (aesConfig self0))
                         (Some (firstn 16 (Text.utf8_encode h)))).
Proof.
  unfold outcome, after, run, expandKey.
  destruct (falsy secret); [discriminate|].
  unfold bind, lift, get, put, log, try_catch, ret; cbn [fst snd].
  destruct (MD5.md5 secret) as [h|e]; [|discriminate].
  destruct (importKey (Text.utf8_encode h)) as [k|e] eqn:E; [|discriminate].
  intros _. exists h. split; [reflexivity|].
  unfold importKey in E.
  destruct (_ || _) in E; [|discriminate].
  now inversion E.
Qed.

Lemma outcome_expandKey_any (secret : value) (self1 self2 : cipher) :
  outcome (expandKey secret) self1 = outcome (expandKey secret) self2.
Proof.
  unfold outcome, run, expandKey.
  destruct (falsy secret); [reflexivity|].
  unfold bind, lift, get, put, log, try_catch, ret; cbn [fst snd].
  destruct (MD5.md5 secret) as [h|e]; [|reflexivity].
  now destruct (importKey (Text.utf8_encode h)).
Qed.

(** X7: re-keying replaces key and counter altogether.  The instance that
    an accepted [expandKey] leaves depends on the secret alone, not on the
    key and counter that were there before. *)
Theorem rekeying_forgets_the_old_key (secret : value) (self1 self2 : cipher) :
  alg_name (aesConfig self1) = alg_name (aesConfig self2) ->
  alg_length (aesConfig self1) = alg_length (aesConfig self2) ->
  outcome (expandKey secret) self1 = Return true ->
  outcome (expandKey secret) self2 = Return true /\
  after (expandKey secret) self1 = after (expandKey secret) self2.
Proof.
  intros Hn Hl H1.
  assert (H2 : outcome (expandKey secret) self2 = Return true)
    by (now rewrite (outcome_expandKey_any secret self2 self1)).
  split; [exact H2|].
  destruct (expandKey_accepted_digest _ _ H1) as (h1 & Hm1 & ->).
  destruct (expandKey_accepted_digest _ _ H2) as (h2 & Hm2 & ->).
  assert (h1 = h2) by congruence. subst h2.
  now rewrite Hn, Hl.
Qed.

Lemma rekeying_forgets_the_old_key_witness :
  let fresh := AesCtrCipher.create in
  let used := after (expandKey (VString (lit "first"))) AesCtrCipher.create in
  alg_name (aesConfig fresh) = alg_name (aesConfig used) /\
  alg_length (aesConfig fresh) = alg_length (aesConfig used) /\
  outcome (expandKey (VString (lit "abc"))) fresh = Return true /\
  cryptoKey used <> cryptoKey (after (expandKey (VString (lit "abc"))) fresh) /\
  after (expandKey (VString (lit "abc"))) fresh
    = after (expandKey (VString (lit "abc"))) used.
Proof.
  cbv zeta.
  assert (H1 : alg_name (aesConfig AesCtrCipher.create)
               = alg_name (aesConfig (after (expandKey (VString (lit "first")))
                                            AesCtrCipher.create)))
    by (vm_compute; reflexivity).
  assert (H2 : alg_length (aesConfig AesCtrCipher.create)
               = alg_length (aesConfig (after (expandKey (VString (lit "first")))
                                              AesCtrCipher.create)))
    by (vm_compute; reflexivity).
  assert (H3 : outcome (expandKey (VString (lit "abc"))) AesCtrCipher.create
               = Return true) by (vm_compute; reflexivity).
  split; [exact H1|]. split; [exact H2|]. split; [exact H3|].
  split; [vm_compute; discriminate|].
  exact (proj2 (rekeying_forgets_the_old_key (VString (lit "abc")) _ _ H1 H2 H3)).
Defined.

(** The decoder gives text below U+0080 back from its bytes. *)
Lemma skip_mark_other (c : N) (s : jsstring) :
  c <> 0xFEFF ->
  match c :: s with
  | 0xFEFF :: s' => s'
  | s0 => s0
  end = c :: s.
Proof.
  intros H. destruct c as [|p]; [reflexivity|].
  repeat (destruct p as [p|p|]; try reflexivity).
  exfalso. apply H. reflexivity.
Qed.

Lemma decode_from_ascii (s : jsstring) :
  Forall (fun c => c < 0x80) s ->
  Text.decode_from Text.d_init (map byte_of_N s) = s.
Proof.
  induction 1 as [|c s Hc _ IH]; [reflexivity|].
  cbn [map Text.decode_from].
  rewrite to_N_byte_of_N, N.mod_small by lia.
  unfold Text.dstep. cbn [Text.d_need Text.d_init]. unfold Text.lead.
  destruct (N.leb_spec c 0x7F); [|lia].
  fold Text.d_init. rewrite IH. reflexivity.
Qed.

Lemma utf8_decode_encode_ascii (s : jsstring) :
  Forall (fun c => c < 0x80) s ->
  Text.utf8_decode (Text.utf8_encode s) = s.
Proof.
  intros H. rewrite utf8_encode_ascii by exact H.
  unfold Text.utf8_decode. rewrite decode_from_ascii by exact H.
  destruct H as [|c s Hc _]; [reflexivity|].
  apply skip_mark_other. lia.
Qed.

Lemma char_codes_of_matches (s : jsstring) :
  map charCode match match_every_char s with
               | Some chars => chars
               | None => []
               end = char_codes s.
Proof.
  destruct s as [|c s]; [reflexivity|].
  unfold match_every_char, char_codes. now rewrite map_map.
Qed.

(** X8: ciphertext that arrives as base64 text decrypts to the text that
    was encrypted.  For text below U+0080: if [encrypt] turned it into the
    characters [ciphertext], and [base64] is any string that [atob] decodes
    to those characters, then [decrypt(base64)] is the text. *)
Theorem base64_of_ciphertext_decrypts_to_text
  (secret : value) (self0 : cipher) (text ciphertext base64 : jsstring) :
  alg_length (aesConfig self0) = 128 ->
  outcome (expandKey secret) self0 = Return true ->
  Forall (fun c => c < 0x80) text ->
  outcome (encrypt (VString text)) (after (expandKey secret) self0)
    = Return (VString ciphertext) ->
  Text.originalAtob base64 = Return ciphertext ->
  outcome (decrypt (VString base64)) (after (expandKey secret) self0)
    = Return (VString text).
Proof.
  intros Hbits Hexp Hascii Henc H64.
  destruct (accepted_instance _ _ Hbits Hexp) as (key & cfg & c & Heq & Hc & Hs & Hb & _).
  rewrite Heq in *. clear Heq.
  assert (Ha : Text.atob base64 = ciphertext) by (unfold Text.atob; now rewrite H64).
  destruct (falsy (VString text)) eqn:Hf.
  - (* the empty text is returned as it is, and so is its base64 *)
    unfold outcome in Henc. rewrite encrypt_falsy in Henc by exact Hf.
    cbn [fst] in Henc.
    assert (Hct : ciphertext = text) by congruence.
    assert (Ht : text = []) by (destruct text; [reflexivity | discriminate Hf]).
    rewrite Hct, Ht in Ha. rewrite Ht.
    destruct base64 as [|b base64].
    + unfold outcome. now rewrite decrypt_falsy.
    + unfold outcome.
      rewrite (decrypt_expanded_string key cfg c Hc Hs Hb (b :: base64))
        by discriminate.
      rewrite Ha. reflexivity.
  - unfold outcome in Henc.
    rewrite (encrypt_expanded key cfg c Hc Hs Hb (VString text)
               (Text.utf8_encode text) Hf eq_refl) in Henc.
    cbn [fst] in Henc.
    assert (Hct : ciphertext
                  = map fromCharCode (keyed_transform key c (Text.utf8_encode text)))
      by congruence.
    assert (Hlen : length ciphertext = length text).
    { rewrite Hct, length_map. unfold keyed_transform.
      now rewrite transform_length, utf8_encode_ascii, length_map. }
    assert (Hne : base64 <> []).
    { intros ->. cbn in H64.
      assert (E : ciphertext = []) by congruence.
      rewrite E in Hlen. destruct text; [discriminate Hf | discriminate Hlen]. }
    unfold outcome.
    rewrite (decrypt_expanded_string key cfg c Hc Hs Hb base64 Hne).
    cbn [fst]. rewrite char_codes_of_matches, Ha, Hct.
    rewrite char_codes_fromCharCode. unfold keyed_transform.
    rewrite transform_involutive, utf8_decode_encode_ascii by exact Hascii.
    reflexivity.
Qed.

Lemma base64_of_ciphertext_decrypts_to_text_witness :
  let self := after (expandKey (VString (lit "abc"))) AesCtrCipher.create in
  let ciphertext := [182; 212; 3; 181; 195; 146; 126; 120; 251; 177; 157; 188; 240;
                     217; 107; 18; 154; 49; 246; 49; 224; 39; 100; 112; 124; 40; 191] in
  alg_length (aesConfig AesCtrCipher.create) = 128 /\
  outcome (expandKey (VString (lit "abc"))) AesCtrCipher.create = Return true /\
  Forall (fun c => c < 0x80) (lit "hello world, this is a test") /\
  outcome (encrypt (VString (lit "hello world, this is a test"))) self
    = Return (VString ciphertext) /\
  Text.originalAtob (lit "ttQDtcOSfnj7sZ288NlrEpox9jHgJ2RwfCi/") = Return ciphertext /\
  outcome (decrypt (VString (lit "ttQDtcOSfnj7sZ288NlrEpox9jHgJ2RwfCi/"))) self
    = Return (VString (lit "hello world, this is a test")).
Proof.
  cbv zeta.
  assert (H1 : alg_length (aesConfig AesCtrCipher.create) = 128) by reflexivity.
  assert (H2 : outcome (expandKey (VString (lit "abc"))) AesCtrCipher.create
               = Return true) by (vm_compute; reflexivity).
  assert (H3 : Forall (fun c => c < 0x80) (lit "hello world, this is a test"))
    by (repeat constructor).
  assert (H4 : outcome (encrypt (VString (lit "hello world, this is a test")))
                       (after (expandKey (VString (lit "abc"))) AesCtrCipher.create)
               = Return (VString [182; 212; 3; 181; 195; 146; 126; 120; 251; 177;
                                  157; 188; 240; 217; 107; 18; 154; 49; 246; 49; 224;
                                  39; 100; 112; 124; 40; 191]))
    by (vm_compute; reflexivity).
  assert (H5 : Text.originalAtob (lit "ttQDtcOSfnj7sZ288NlrEpox9jHgJ2RwfCi/")
               = Return [182; 212; 3; 181; 195; 146; 126; 120; 251; 177;
                         157; 188; 240; 217; 107; 18; 154; 49; 246; 49; 224;
                         39; 100; 112; 124; 40; 191])
    by (vm_compute; reflexivity).
  repeat (split; [assumption|]).
  exact (base64_of_ciphertext_decrypts_to_text
           (VString (lit "abc")) AesCtrCipher.create _ _ _ H1 H2 H3 H4 H5).
Defined.

(** ** DevtoolsDetector: polls of a running detector *)

Lemma broadcasts_calls_trace {env : Type} (e : env) (cs : list (Checker env)) :
  broadcasts (flat_map (calls_of e) cs) = [].
Proof.
  induction cs as [|c cs IH]; [reflexivity|].
  cbn [flat_map]. rewrite broadcasts_app, IH.
  unfold calls_of. now destruct (checker_isEnable c e).
Qed.

Lemma notifications_calls_trace {env : Type} (e : env) (cs : list (Checker env)) :
  notifications (flat_map (calls_of e) cs) = [].
Proof.
  induction cs as [|c cs IH]; [reflexivity|].
  cbn [flat_map]. rewrite notifications_app, IH.
  unfold calls_of. now destruct (checker_isEnable c e).
Qed.

Section RunningDetector.

Context {env : Type}.
Implicit Types (e : env) (s : system env) (cs : list (Checker env)).

Lemma conclude_running (o : bool) (nm : string) s :
  detectLoopStopped (this s) = false ->
  (0 < detectLoopDelay (this s))%Z ->
  conclude o nm s
  = setTimeout_detectLoop
      (if Bool.eqb o (isOpen (this s)) then s
       else record (Broadcast (mkStatus o nm)
                      :: map (fun l => Notified (listener_id l) o (mkStatus o nm))
                             (listeners (this s)))
                   (set_this (with_isOpen o (this s)) s)).
Proof.
  intros Hrun Hdelay. apply Z.ltb_lt in Hdelay.
  destruct (Bool.eqb o (isOpen (this s))) eqn:E.
  - apply Bool.eqb_prop in E. subst o. rewrite conclude_same.
    unfold reschedule. now rewrite Hrun, Hdelay.
  - rewrite conclude_changed by (intros ->; now rewrite Bool.eqb_reflx in E).
    unfold reschedule.
    cbn [record set_this with_isOpen this detectLoopDelay detectLoopStopped].
    now rewrite Hrun, Hdelay.
Qed.

(** What the [for] loop leaves in [isDevtoolsOpen] and [checkerName]. *)
Lemma verdict_open e cs (nm : string) :
  fst (verdict e cs false nm) = existsb (reports_open e) cs.
Proof.
  revert nm. induction cs as [|c cs IH]; intros nm; [reflexivity|].
  cbn [verdict existsb]. unfold reports_open at 1.
  destruct (checker_isEnable c e), (checker_isOpen c e); cbn [andb orb fst];
    try reflexivity; apply IH.
Qed.

Lemma last_nonempty {A} (l : list A) (y d d' : A) :
  last (y :: l) d = last (y :: l) d'.
Proof.
  revert y. induction l as [|z l IH]; intros y; [reflexivity|].
  change (last (y :: z :: l) d) with (last (z :: l) d).
  change (last (y :: z :: l) d') with (last (z :: l) d').
  apply IH.
Qed.

Lemma last_cons_default {A} (x d : A) (l : list A) : last (x :: l) d = last l x.
Proof.
  destruct l as [|y l]; [reflexivity|].
  change (last (x :: y :: l) d) with (last (y :: l) d).
  apply last_nonempty.
Qed.

Lemma verdict_name e cs (nm : string) :
  snd (verdict e cs false nm)
  = match find (reports_open e) cs with
    | Some c => checker_name c
    | None => last (map checker_name (filter (fun c => checker_isEnable c e) cs)) nm
    end.
Proof.
  revert nm. induction cs as [|c cs IH]; intros nm; [reflexivity|].
  cbn [verdict find filter]. unfold reports_open at 1.
  destruct (checker_isEnable c e), (checker_isOpen c e); cbn [andb snd map].
  - reflexivity.
  - rewrite IH. destruct (find (reports_open e) cs); [reflexivity|].
    now rewrite last_cons_default.
  - apply IH.
  - apply IH.
Qed.

(** A tick of a detector between two polls, in closed form. *)
Lemma tick_between_polls e s (t : nat) :
  suspended s = [] -> timer (this s) = Some t -> pending s = [t] ->
  tick e s
  = conclude (existsb (reports_open e) (checkers (this s)))
             (reported_name e (checkers (this s)))
             (record (flat_map (calls_of e) (consulted e (checkers (this s))))
                     (mkSystem (this s) [] (next_timer s) [] (events s))).
Proof.
  intros Hs Ht Hp. unfold tick. rewrite Ht. cbn [step]. rewrite Hp.
  cbn [existsb filter]. rewrite Nat.eqb_refl. cbn [orb negb].
  unfold detectLoop. cbn [this]. rewrite Hs.
  rewrite poll_closed_form by (first [reflexivity | cbn [this]; lia]).
  now rewrite verdict_open, verdict_name.
Qed.

Lemma between_polls_tick e s : between_polls s -> between_polls (tick e s).
Proof.
  intros (Hrun & Hdelay & Hs & t & Ht & Hp).
  rewrite (tick_between_polls e s t Hs Ht Hp).
  rewrite conclude_running by assumption.
  cbn [record this].
  destruct (Bool.eqb _ _); unfold between_polls; cbn; repeat split; try assumption;
    eexists; split; reflexivity.
Qed.

Lemma between_polls_launch e0 cs (ls : list Listener) :
  between_polls (launch_and_poll e0 (register ls (boot cs))).
Proof.
  rewrite register_listeners. unfold launch_and_poll, boot, DevtoolsDetector.create.
  cbn [set_this this checkers listeners isOpen detectLoopStopped
       detectLoopDelay timer pending next_timer suspended events app
       step launch Z.leb Z.compare].
  unfold detectLoop.
  cbn [set_this this checkers listeners isOpen detectLoopStopped
       detectLoopDelay timer pending next_timer suspended events].
  rewrite poll_closed_form by (cbn; try reflexivity; lia).
  rewrite conclude_running by (cbn; (reflexivity || lia)).
  cbn [record this].
  destruct (Bool.eqb _ _); unfold between_polls; cbn; repeat split;
    eexists; split; reflexivity.
Qed.

(** X9: a running detector polls on one timer.  After [launch()] on a new
    detector and any number of ticks, in whatever environments, the loop
    is running, no poll is left suspended, and exactly one timeout is
    pending: the one whose id is in [this.timer]. *)
Theorem running_detector_has_one_timer e0 (es : list env) cs (ls : list Listener) :
  detectLoopStopped (this (ticks es (launch_and_poll e0 (register ls (boot cs)))))
    = false /\
  suspended (ticks es (launch_and_poll e0 (register ls (boot cs)))) = [] /\
  exists t,
    timer (this (ticks es (launch_and_poll e0 (register ls (boot cs))))) = Some t /\
    pending (ticks es (launch_and_poll e0 (register ls (boot cs)))) = [t].
Proof.
  assert (H : between_polls (ticks es (launch_and_poll e0 (register ls (boot cs))))).
  { pose proof (between_polls_launch e0 cs ls) as H0. revert H0.
    generalize (launch_and_poll e0 (register ls (boot cs))).
    induction es as [|e es IH]; intros s H0; [exact H0|].
    cbn [ticks fold_left]. apply IH. now apply between_polls_tick. }
  destruct H as (Hrun & _ & Hs & t & Ht & Hp).
  repeat split; try assumption. now exists t.
Qed.

(** X10: notification is edge-triggered, for any checkers.  A tick of a
    detector between two polls leaves [isOpen] true exactly when some
    checker is enabled and reports open; it broadcasts once, to every
    listener, when that differs from the [isOpen] before, and not at all
    when it does not.  The status names the first checker that reports
    open, or else the last enabled one. *)
Theorem tick_is_edge_triggered e s :
  between_polls s ->
  isOpen (this (tick e s)) = existsb (reports_open e) (checkers (this s)) /\
  broadcasts (events (tick e s))
    = broadcasts (events s)
      ++ (if Bool.eqb (existsb (reports_open e) (checkers (this s))) (isOpen (this s))
          then []
          else [mkStatus (existsb (reports_open e) (checkers (this s)))
                         (reported_name e (checkers (this s)))]) /\
  notifications (events (tick e s))
    = notifications (events s)
      ++ (if Bool.eqb (existsb (reports_open e) (checkers (this s))) (isOpen (this s))
          then []
          else map (fun l => (listener_id l,
                              existsb (reports_open e) (checkers (this s)),
                              mkStatus (existsb (reports_open e) (checkers (this s)))
                                       (reported_name e (checkers (this s)))))
                   (listeners (this s))).
Proof.
  intros (Hrun & Hdelay & Hs & t & Ht & Hp).
  rewrite (tick_between_polls e s t Hs Ht Hp).
  rewrite conclude_running by assumption.
  cbn [record this].
  destruct (Bool.eqb _ _) eqn:E.
  - apply Bool.eqb_prop in E.
    unfold setTimeout_detectLoop, record. cbn [this isOpen events].
    rewrite broadcasts_app, notifications_app.
    rewrite broadcasts_calls_trace, notifications_calls_trace.
    rewrite !app_nil_r. now repeat split.
  - unfold setTimeout_detectLoop, record, set_this, with_isOpen.
    cbn [this isOpen events listeners].
    rewrite !broadcasts_app, !notifications_app.
    rewrite broadcasts_calls_trace, notifications_calls_trace.
    rewrite !app_nil_r. repeat split.
    + change (broadcasts (Broadcast ?b :: ?l)) with (b :: broadcasts l).
      now rewrite broadcasts_notified.
    + change (notifications (Broadcast ?b :: ?l)) with (notifications l).
      now rewrite notifications_notified.
Qed.

Lemma detectLoop_keeps_running e s :
  detectLoopStopped (this s) = false ->
  (0 < detectLoopDelay (this s))%Z ->
  detectLoopStopped (this (detectLoop e s)) = false /\
  detectLoopDelay (this (detectLoop e s)) = detectLoopDelay (this s).
Proof.
  intros Hrun Hdelay. unfold detectLoop.
  destruct (checkers (this s)) as [|c rest]; cbn [iterate].
  - rewrite conclude_running by assumption.
    destruct (Bool.eqb _ _); cbn; now split.
  - cbn. now split.
Qed.

(** X11: [launch()] on a detector that is already running starts no
    second loop: calling it twice leaves the detector as calling it
    once. *)
Theorem launch_twice_is_launch_once e1 e2 s :
  (0 < detectLoopDelay (this s))%Z ->
  launch e2 (launch e1 s) = launch e1 s.
Proof.
  intros Hdelay.
  assert (Hpos : (detectLoopDelay (this s) <=? 0)%Z = false)
    by (apply Z.leb_gt; exact Hdelay).
  assert (Hidle : forall s', detectLoopStopped (this s') = false ->
                             (0 < detectLoopDelay (this s'))%Z ->
                             launch e2 s' = s').
  { intros s' Hr Hd. unfold launch.
    replace (detectLoopDelay (this s') <=? 0)%Z with false
      by (symmetry; apply Z.leb_gt; exact Hd).
    now rewrite Hr. }
  assert (Hidle' : forall s', detectLoopStopped (this s') = false ->
                              (0 < detectLoopDelay (this s'))%Z ->
                              launch e1 s' = s').
  { intros s' Hr Hd. unfold launch.
    replace (detectLoopDelay (this s') <=? 0)%Z with false
      by (symmetry; apply Z.leb_gt; exact Hd).
    now rewrite Hr. }
  destruct (detectLoopStopped (this s)) eqn:Hst.
  - assert (E : launch e1 s
                = detectLoop e1
                    (set_this (mkDetector (listeners (this s)) (isOpen (this s)) false
                                          (detectLoopDelay (this s)) (checkers (this s))
                                          (timer (this s))) s))
      by (unfold launch; now rewrite Hpos, Hst).
    rewrite E.
    destruct (detectLoop_keeps_running e1
                (set_this (mkDetector (listeners (this s)) (isOpen (this s)) false
                                      (detectLoopDelay (this s)) (checkers (this s))
                                      (timer (this s))) s))
      as [Hr Hd]; [reflexivity | exact Hdelay |].
    apply Hidle; [exact Hr|]. rewrite Hd. exact Hdelay.
  - assert (E : launch e1 s = s) by (now apply Hidle').
    rewrite E. now apply Hidle.
Qed.

Lemma stop_between_polls_explicit s (t : nat) :
  detectLoopStopped (this s) = false ->
  timer (this s) = Some t -> pending s = [t] ->
  stop s
  = mkSystem (mkDetector (listeners (this s)) false true (detectLoopDelay (this s))
                         (checkers (this s)) (Some t))
             [] (next_timer s) (suspended s) (events s).
Proof.
  intros Hrun Ht Hp. unfold stop. rewrite Hrun, Ht. cbn [negb].
  unfold clearTimeout, set_this. cbn [this pending next_timer suspended events].
  rewrite Hp. cbn [filter]. now rewrite Nat.eqb_refl.
Qed.

(** X12: [stop()] forgets that the tools were open.  On a detector
    between two polls with [isOpen] true, a further tick in an environment
    where a checker still reports open broadcasts nothing; [stop()]
    followed by [launch()] in the same environment broadcasts the open
    state once more, to every listener. *)
Theorem relaunch_announces_open_again e s :
  between_polls s ->
  isOpen (this s) = true ->
  existsb (reports_open e) (checkers (this s)) = true ->
  broadcasts (events (tick e s)) = broadcasts (events s) /\
  broadcasts (events (launch_and_poll e (stop s)))
    = broadcasts (events s)
      ++ [mkStatus true (reported_name e (checkers (this s)))] /\
  notifications (events (launch_and_poll e (stop s)))
    = notifications (events s)
      ++ map (fun l => (listener_id l, true,
                        mkStatus true (reported_name e (checkers (this s)))))
             (listeners (this s)).
Proof.
  intros (Hrun & Hdelay & Hs & t & Ht & Hp) Hopen Hsees.
  split.
  - rewrite (tick_between_polls e s t Hs Ht Hp).
    rewrite conclude_running by assumption.
    cbn [record this]. rewrite Hsees, Hopen. cbn [Bool.eqb].
    unfold setTimeout_detectLoop, record. cbn [events].
    now rewrite broadcasts_app, broadcasts_calls_trace, app_nil_r.
  - rewrite (stop_between_polls_explicit s t Hrun Ht Hp).
    unfold launch_and_poll. cbn [this checkers step]. unfold launch.
    cbn [this detectLoopDelay detectLoopStopped].
    replace (detectLoopDelay (this s) <=? 0)%Z with false
      by (symmetry; apply Z.leb_gt; exact Hdelay).
    unfold detectLoop, set_this.
    cbn [this checkers listeners isOpen detectLoopDelay detectLoopStopped timer
         pending next_timer suspended events].
    rewrite Hs.
    rewrite poll_closed_form by (first [reflexivity | cbn [this]; lia]).
    rewrite verdict_open, verdict_name, Hsees.
    rewrite conclude_running by (cbn; first [reflexivity | assumption]).
    unfold setTimeout_detectLoop, record, set_this, with_isOpen.
    cbn [this isOpen events listeners Bool.eqb].
    rewrite !broadcasts_app, !notifications_app.
    rewrite broadcasts_calls_trace, notifications_calls_trace, !app_nil_r.
    split.
    + change (broadcasts (Broadcast ?b :: ?l)) with (b :: broadcasts l).
      now rewrite broadcasts_notified.
    + change (notifications (Broadcast ?b :: ?l)) with (notifications l).
      now rewrite notifications_notified.
Qed.

End RunningDetector.

(** A detector with one checker that reports open and one listener,
    after [launch()] and its first poll. *)
Lemma between_polls_example :
  between_polls
    (launch_and_poll tt
       (register [mkListener 3 (fun _ _ => Return tt)]
                 (boot [mkChecker "c" (fun _ : unit => true) (fun _ : unit => true)]))).
Proof.
  unfold between_polls. cbn. repeat split; try lia. now exists 0%nat.
Qed.

Lemma tick_is_edge_triggered_witness :
  let s := launch_and_poll tt
             (register [mkListener 3 (fun _ _ => Return tt)]
                       (boot [mkChecker "c" (fun _ : unit => true)
                                        (fun _ : unit => true)])) in
  between_polls s /\
  isOpen (this s) = true /\
  isOpen (this (tick tt s)) = true /\
  broadcasts (events (tick tt s)) = [mkStatus true "c"].
Proof.
  cbv zeta. split; [exact between_polls_example|]. split; [reflexivity|].
  destruct (tick_is_edge_triggered tt _ between_polls_example) as (Ho & Hb & _).
  split; [exact Ho | exact Hb].
Defined.

Lemma launch_twice_is_launch_once_witness :
  let s := register [mkListener 3 (fun _ _ => Return tt)]
                    (boot [mkChecker "c" (fun _ : unit => true)
                                     (fun _ : unit => true)]) in
  (0 < detectLoopDelay (this s))%Z /\
  launch tt (launch tt s) = launch tt s /\
  length (suspended (launch tt (launch tt s))) = 1%nat.
Proof.
  cbv zeta.
  assert (H : (0 < detectLoopDelay
                     (this (register [mkListener 3 (fun _ _ => Return tt)]
                                     (boot [mkChecker "c" (fun _ : unit => true)
                                                      (fun _ : unit => true)]))))%Z)
    by (cbn; lia).
  split; [exact H|].
  pose proof (launch_twice_is_launch_once tt tt _ H) as E.
  split; [exact E|]. rewrite E. reflexivity.
Defined.

Lemma relaunch_announces_open_again_witness :
  let s := launch_and_poll tt
             (register [mkListener 3 (fun _ _ => Return tt)]
                       (boot [mkChecker "c" (fun _ : unit => true)
                                        (fun _ : unit => true)])) in
  between_polls s /\
  isOpen (this s) = true /\
  existsb (reports_open tt) (checkers (this s)) = true /\
  broadcasts (events (tick tt s)) = [mkStatus true "c"] /\
  broadcasts (events (launch_and_poll tt (stop s)))
    = [mkStatus true "c"; mkStatus true "c"].
Proof.
  cbv zeta. split; [exact between_polls_example|].
  split; [reflexivity|]. split; [reflexivity|].
  destruct (relaunch_announces_open_again tt _ between_polls_example
              eq_refl eq_refl) as (Hb & Hb' & _).
  split; [exact Hb | exact Hb'].
Defined.

(** X13: [stop()] between two polls is final.  The loop is marked
    stopped, [isOpen] is false and no timeout is pending; and whatever
    runs afterwards short of a new [launch()] (timeouts, resumptions,
    [stop()], [addListener]) polls no checker and notifies no listener:
    the events stay as they were. *)
Theorem stopped_detector_stays_silent {env : Type}
        (s : system env) (acts : list (action env)) :
  between_polls s ->
  Forall not_launch acts ->
  detectLoopStopped (this (stop s)) = true /\
  isOpen (this (stop s)) = false /\
  pending (stop s) = [] /\
  halted (steps (stop s) acts) /\
  events (steps (stop s) acts) = events s.
Proof.
  intros (Hrun & Hdelay & Hs & t & Ht & Hp) Hacts.
  assert (Hh : halted (stop s)).
  { rewrite (stop_between_polls_explicit s t Hrun Ht Hp).
    unfold halted. cbn. now repeat split. }
  assert (He : events (stop s) = events s)
    by (now rewrite (stop_between_polls_explicit s t Hrun Ht Hp)).
  destruct Hh as (H1 & H2 & H3 & H4).
  destruct (halted_steps (stop s) acts (conj H1 (conj H2 (conj H3 H4))) Hacts)
    as [Hh' He'].
  repeat split; try assumption; try apply Hh'.
  now rewrite He'.
Qed.

Lemma stopped_detector_stays_silent_witness :
  let s := launch_and_poll tt
             (register [mkListener 3 (fun _ _ => Return tt)]
                       (boot [mkChecker "c" (fun _ : unit => true)
                                        (fun _ : unit => true)])) in
  let acts := [Fire 0 tt; Resume 0 tt; Stop;
               AddListener (mkListener 4 (fun _ _ => Return tt)); Fire 1 tt] in
  between_polls s /\
  Forall not_launch acts /\
  halted (steps (stop s) acts) /\
  events (steps (stop s) acts) = events s.
Proof.
  cbv zeta.
  assert (F : Forall (@not_launch unit)
                     [Fire 0 tt; Resume 0 tt; Stop;
                      AddListener (mkListener 4 (fun _ _ => Return tt)); Fire 1 tt])
    by (repeat constructor).
  split; [exact between_polls_example|]. split; [exact F|].
  destruct (stopped_detector_stays_silent _ _ between_polls_example F)
    as (_ & _ & _ & Hh & He).
  split; [exact Hh | exact He].
Defined.

(** ** DevtoolsDetector: two loops at once *)

Section TwoLoops.

Context {env : Type}.
Implicit Types (e : env) (s : system env) (cs : list (Checker env)).

Lemma nth_error_last {A} (l : list A) (x : A) :
  nth_error (l ++ [x]) (length (l ++ [x]) - 1) = Some x.
Proof.
  rewrite length_app. cbn [length].
  replace (length l + 1 - 1)%nat with (length l) by lia.
  rewrite nth_error_app2 by lia. now rewrite Nat.sub_diag.
Qed.

Lemma drop_nth_last {A} (l : list A) (x : A) :
  drop_nth (length (l ++ [x]) - 1) (l ++ [x]) = l.
Proof.
  rewrite length_app. cbn [length].
  replace (length l + 1 - 1)%nat with (length l) by lia.
  induction l as [|y l IH]; [reflexivity|].
  cbn [length app drop_nth]. now rewrite IH.
Qed.

Lemma resume_last_frame e (f : frame env) s : resume_last e (suspend f s) = continue e f s.
Proof.
  unfold resume_last, step, suspend.
  cbn [this pending next_timer suspended events].
  rewrite nth_error_last, drop_nth_last. f_equal. apply system_eta.
Qed.

Lemma finish_last_succ e (n : nat) s :
  finish_last e (S n) s = finish_last e n (resume_last e s).
Proof. unfold finish_last. apply Nat.iter_succ_r. Qed.

(** A poll that is resumed until its end, whatever else is suspended. *)
Lemma finish_loop e cs :
  forall (o : bool) (nm : string) s,
  exists n,
    finish_last e n (iterate e cs o nm s)
    = conclude (fst (verdict e cs o nm)) (snd (verdict e cs o nm))
               (record (flat_map (calls_of e) (consulted e cs)) s).
Proof.
  induction cs as [|c rest IH]; intros o nm s.
  - exists 0%nat. cbn [iterate verdict consulted flat_map fst snd finish_last Nat.iter].
    now rewrite record_nil.
  - cbn [iterate verdict consulted].
    destruct (checker_isEnable c e) eqn:En.
    + destruct (checker_isOpen c e) eqn:Op.
      * exists 2%nat.
        rewrite !finish_last_succ, resume_last_frame. cbn [continue].
        rewrite resume_last_frame. cbn [continue]. rewrite Op.
        cbn [finish_last Nat.iter andb flat_map fst snd app].
        unfold calls_of. rewrite En. cbn [app].
        now rewrite <- !record_emit, record_nil.
      * destruct (IH false (checker_name c)
                    (emit (CalledIsOpen (checker_name c))
                          (emit (CalledIsEnable (checker_name c)) s))) as [n Hn].
        exists (S (S n)).
        rewrite !finish_last_succ, resume_last_frame. cbn [continue].
        rewrite resume_last_frame. cbn [continue]. rewrite Op.
        rewrite Hn. cbn [andb flat_map]. unfold calls_of at 2. rewrite En.
        cbn [app]. now rewrite !record_emit.
    + destruct (IH o nm (emit (CalledIsEnable (checker_name c)) s)) as [n Hn].
      exists (S n).
      rewrite finish_last_succ, resume_last_frame. cbn [continue].
      rewrite Hn. cbn [andb flat_map]. unfold calls_of at 2. rewrite En.
      cbn [app]. now rewrite record_emit.
Qed.

(** A poll suspended at its first [await] and resumed until its end. *)
Lemma finish_first_frame e (c : Checker env) cs (o : bool) (nm : string) s :
  exists n,
    finish_last e n
      (suspend (AwaitIsEnable c cs o nm (checker_isEnable c e)) s)
    = conclude (fst (verdict e (c :: cs) o nm)) (snd (verdict e (c :: cs) o nm))
               (record (tl (flat_map (calls_of e) (consulted e (c :: cs)))) s).
Proof.
  cbn [verdict consulted].
  destruct (checker_isEnable c e) eqn:En.
  - destruct (checker_isOpen c e) eqn:Op.
    + exists 2%nat.
      rewrite !finish_last_succ, resume_last_frame. cbn [continue].
      rewrite resume_last_frame. cbn [continue]. rewrite Op.
      cbn [finish_last Nat.iter andb flat_map fst snd app].
      unfold calls_of. rewrite En. cbn [app tl].
      now rewrite <- !record_emit, record_nil.
    + destruct (finish_loop e cs false (checker_name c)
                  (emit (CalledIsOpen (checker_name c)) s)) as [m Hm].
      exists (S (S m)).
      rewrite !finish_last_succ, resume_last_frame. cbn [continue].
      rewrite resume_last_frame. cbn [continue]. rewrite Op.
      rewrite Hm. cbn [andb flat_map]. unfold calls_of at 2. rewrite En.
      cbn [app tl]. now rewrite !record_emit.
  - destruct (finish_loop e cs o nm s) as [m Hm].
    exists (S m).
    rewrite finish_last_succ, resume_last_frame. cbn [continue].
    rewrite Hm. cbn [andb flat_map]. unfold calls_of at 2. rewrite En.
    cbn [app tl]. reflexivity.
Qed.

(** X14: [stop()] and [launch()] during a poll leave two loops running.
    On a new detector with at least one checker, [launch()], then [stop()]
    and [launch()] again while the first poll is still suspended: the
    detector is running with two calls of [detectLoop] suspended.  When
    both have been resumed to their end, two timeouts are pending, and
    [this.timer] holds only the later one: a [stop()] then cancels that
    one, and the other still fires and polls the stopped detector. *)
Theorem stop_and_launch_during_poll_doubles_the_loop
        e (c : Checker env) cs (ls : list Listener) :
  detectLoopStopped
    (this (steps (register ls (boot (c :: cs))) [Launch e; Stop; Launch e])) = false /\
  length (suspended (steps (register ls (boot (c :: cs))) [Launch e; Stop; Launch e]))
    = 2%nat /\
  exists n1 n2 z,
    z = finish_last e n1
          (finish_last e n2
             (steps (register ls (boot (c :: cs))) [Launch e; Stop; Launch e])) /\
    suspended z = [] /\
    pending z = [0; 1]%nat /\
    timer (this z) = Some 1%nat /\
    detectLoopStopped (this (stop z)) = true /\
    pending (stop z) = [0%nat] /\
    events (step (stop z) (Fire 0 e)) = events z ++ [CalledIsEnable (checker_name c)].
Proof.
  set (F := AwaitIsEnable c cs false EmptyString (checker_isEnable c e)).
  set (ev := CalledIsEnable (checker_name c)).
  set (d := mkDetector ls false false 500 (c :: cs) None).
  assert (Ha : steps (register ls (boot (c :: cs))) [Launch e; Stop; Launch e]
               = suspend F (mkSystem d [] 0 [F] [ev; ev])).
  { rewrite register_listeners. reflexivity. }
  rewrite Ha. split; [reflexivity|]. split; [reflexivity|].
  destruct (finish_first_frame e c cs false EmptyString
              (mkSystem d [] 0 [F] [ev; ev])) as [n2 H2].
  fold F in H2.
  rewrite conclude_running in H2 by (cbn; (reflexivity || lia)).
  set (o := fst (verdict e (c :: cs) false EmptyString)) in *.
  set (nm := snd (verdict e (c :: cs) false EmptyString)) in *.
  set (tlc := tl (flat_map (calls_of e) (consulted e (c :: cs)))) in *.
  match type of H2 with
  | _ = ?b =>
      assert (Hb : b = suspend F (mkSystem (this b) (pending b) (next_timer b) []
                                           (events b)))
        by (destruct o; reflexivity);
      destruct (finish_first_frame e c cs false EmptyString
                  (mkSystem (this b) (pending b) (next_timer b) [] (events b)))
        as [n1 H1]
  end.
  fold F o nm tlc in H1.
  rewrite conclude_running in H1 by (destruct o; cbn; (reflexivity || lia)).
  eexists n1, n2, _. split.
  - rewrite H2, Hb, H1. reflexivity.
  - destruct o; cbn; repeat split; try reflexivity;
      now rewrite <- ?app_assoc.
Qed.

End TwoLoops.

(** ** Player: what [setup] does *)

Lemma mp4_setup_some (c : capabilities) : exists i, Mp4Player.setup c = Some i.
Proof.
  unfold Mp4Player.setup.
  destruct (isServiceWorkerSupported c && negb (isEdgeAndroid c)
            && negb (isHeyTapBrowser c) && isChromeVersionOk c);
    [|destruct (isMediaSourceSupported c)]; eexists; reflexivity.
Qed.

Lemma backend_setups_app (l1 l2 : list effect) :
  backend_setups (l1 ++ l2) = backend_setups l1 ++ backend_setups l2.
Proof. apply flat_map_app. Qed.

Lemma backend_destroys_app (l1 l2 : list effect) :
  backend_destroys (l1 ++ l2) = backend_destroys l1 ++ backend_destroys l2.
Proof. apply flat_map_app. Qed.

(** [destroy] on a live player, field by field. *)
Lemma destroy_live (reason : value) (p : player) :
  isDestroyed p = false ->
  destroy reason p
  = mkPlayer false None true empty_object
      (effects p
       ++ match playerInstance p with
          | Some impl => [BackendDestroy impl]
          | None => []
          end
       ++ [ServiceWorkerDestroy]
       ++ (if tracker p then [TrackerDestroy] else [])
       ++ [ShowSecurityWarning (lit "Notification") (reason_or_default reason)]).
Proof.
  intros H. unfold destroy. rewrite H. cbn [negb].
  destruct (playerInstance p), (tracker p); unfold perform;
    cbn [tracker playerInstance isDestroyed options effects];
    rewrite <- ?app_assoc; reflexivity.
Qed.

(** [setup] when a test fails: a [destroy], after at most the attempt to
    load the polyfills.  The player destroyed has the key fields of the
    one given. *)
Lemma setup_refused (pg : page) (config : object) (p : player) :
  admissible pg config = false ->
  exists (reason : jsstring) (q : player),
    Player.setup pg config p = destroy (VString reason) q /\
    reason <> [] /\
    tracker q = tracker p /\ playerInstance q = playerInstance p /\
    isDestroyed q = isDestroyed p /\
    warnings (effects q) = warnings (effects p) /\
    backend_setups (effects q) = backend_setups (effects p) /\
    backend_destroys (effects q) = backend_destroys (effects p) /\
    (isSupported pg = true -> isIframed pg || isLocalhost pg = true ->
     isSecureContext pg || polyfillsLoad pg = true ->
     reason = lit "No playable sources found").
Proof.
  unfold admissible, Player.setup, playable_sources. intros H.
  destruct (isSupported pg); cbn [negb andb] in *.
  2: { eexists _, p. split; [reflexivity|].
       repeat split; try reflexivity; (discriminate || (cbv; discriminate)). }
  destruct (isIframed pg), (isLocalhost pg); cbn [negb andb orb] in *.
  4: { eexists _, p. split; [reflexivity|].
       repeat split; try reflexivity; (discriminate || (cbv; discriminate)). }
  all: destruct (isSecureContext pg), (polyfillsLoad pg); cbn [negb andb orb] in *.
  all: try (eexists _, (perform LoadScript p); split; [reflexivity|];
            repeat split; try reflexivity;
            try (cbv; discriminate); try discriminate;
            try (cbn; rewrite ?warnings_app, ?backend_setups_app,
                   ?backend_destroys_app; cbn; now rewrite app_nil_r);
            fail).
  all: destruct (match sources config with
                 | Some l => filter playable l
                 | None => []
                 end) as [|src kept] eqn:K; [|discriminate H].
  all: eexists _, _; (split; [reflexivity|]); cbn;
    repeat split; try reflexivity; try (cbv; discriminate);
    rewrite ?warnings_app, ?backend_setups_app, ?backend_destroys_app; cbn;
    now rewrite ?app_nil_r.
Qed.

(** [setup] when every test passes, field by field. *)
Lemma setup_admitted (pg : page) (config : object) (p : player) :
  admissible pg config = true ->
  exists impl,
    Mp4Player.setup (browser pg) = Some impl /\
    playable_sources config <> [] /\
    Player.setup pg config p
    = mkPlayer true (Some (Some impl)) (isDestroyed p)
        (mkObject (Some (playable_sources config)) None (id config) (others config))
        (effects p
         ++ (if isSecureContext pg then [] else [LoadScript])
         ++ (if isLocalhost pg then [] else [TrackerStart])
         ++ [ServiceWorkerRegister; BackendSetup impl]).
Proof.
  unfold admissible, Player.setup, playable_sources. intros H.
  destruct (mp4_setup_some (browser pg)) as [impl Hi]. exists impl.
  split; [exact Hi|]. rewrite Hi.
  destruct (isSupported pg); [|discriminate H]. cbn [negb andb] in *.
  destruct (match sources config with
            | Some l => filter playable l
            | None => []
            end) as [|src kept] eqn:K;
    [now rewrite !andb_false_r in H|].
  split; [discriminate|].
  destruct (isIframed pg), (isLocalhost pg); cbn [negb andb orb] in *;
    try discriminate H;
    destruct (isSecureContext pg), (polyfillsLoad pg); cbn [negb andb orb] in *;
    try discriminate H;
    unfold perform; cbn [tracker playerInstance isDestroyed options effects
                         sources id videoId others];
    rewrite <- ?app_assoc; reflexivity.
Qed.



(** X16: without an mp4 source there is no session.  When the browser,
    embedding and security tests pass but no entry of [config.sources] is
    an object of type "mp4" (the list may be missing, empty, or hold falsy
    entries and other types), a live player is destroyed with the reason
    "No playable sources found": no tracker is started, no service worker
    registered, no backend set up. *)
Theorem no_mp4_source_no_session (pg : page) (config : object) (p : player) :
  isDestroyed p = false ->
  isSupported pg = true ->
  isIframed pg || isLocalhost pg = true ->
  isSecureContext pg || polyfillsLoad pg = true ->
  playable_sources config = [] ->
  warnings (effects (Player.setup pg config p))
    = warnings (effects p)
      ++ [(lit "Notification", VString (lit "No playable sources found"))] /\
  isDestroyed (Player.setup pg config p) = true /\
  backend_setups (effects (Player.setup pg config p)) = backend_setups (effects p) /\
  (In TrackerStart (effects (Player.setup pg config p)) -> In TrackerStart (effects p)) /\
  (In ServiceWorkerRegister (effects (Player.setup pg config p)) ->
   In ServiceWorkerRegister (effects p)).
Proof.
  intros Hlive Hsup Hframe Hsec Hnone.
  unfold Player.setup. unfold playable_sources in Hnone.
  rewrite Hsup. cbn [negb].
  replace (negb (isIframed pg) && negb (isLocalhost pg)) with false
    by (destruct (isIframed pg), (isLocalhost pg); (reflexivity || discriminate)).
  replace (negb (isSecureContext pg) && negb (polyfillsLoad pg)) with false
    by (destruct (isSecureContext pg), (polyfillsLoad pg);
        (reflexivity || discriminate)).
  rewrite Hnone.
  rewrite destroy_live
    by (destruct (isSecureContext pg); cbn; exact Hlive).
  cbn [isDestroyed effects tracker playerInstance].
  destruct (isSecureContext pg); cbn [negb perform effects tracker playerInstance];
    rewrite ?warnings_app, ?backend_setups_app;
    (split; [|split; [reflexivity|split; [|split]]]);
    try (destruct (playerInstance p), (tracker p); cbn; now rewrite ?app_nil_r);
    rewrite ?in_app_iff; destruct (playerInstance p), (tracker p); cbn;
    intuition discriminate.
Qed.

Lemma no_mp4_source_no_session_witness :
  let pg := mkPage true true true true false true (bundle_capabilities true true) in
  let config := mkObject (Some [Some (Some "webm"%string); None; Some None])
                         None None [] in
  isDestroyed Player.create = false /\
  isSupported pg = true /\
  isIframed pg || isLocalhost pg = true /\
  isSecureContext pg || polyfillsLoad pg = true /\
  playable_sources config = [] /\
  warnings (effects (Player.setup pg config Player.create))
    = [(lit "Notification", VString (lit "No playable sources found"))].
Proof.
  cbv zeta.
  repeat (split; [reflexivity|]).
  exact (proj1 (no_mp4_source_no_session
                  (mkPage true true true true false true (bundle_capabilities true true))
                  (mkObject (Some [Some (Some "webm"%string); None; Some None])
                            None None [])
                  Player.create eq_refl eq_refl eq_refl eq_refl eq_refl)).
Defined.

(** [setup] on a destroyed player that fails a test changes nothing but,
    in an insecure context, the attempt to load the polyfills. *)
Lemma setup_refused_destroyed (pg : page) (config : object) (p : player) :
  isDestroyed p = true ->
  admissible pg config = false ->
  warnings (effects (Player.setup pg config p)) = warnings (effects p) /\
  backend_setups (effects (Player.setup pg config p)) = backend_setups (effects p) /\
  backend_destroys (effects (Player.setup pg config p)) = backend_destroys (effects p) /\
  playerInstance (Player.setup pg config p) = playerInstance p /\
  isDestroyed (Player.setup pg config p) = true.
Proof.
  intros Hd A.
  destruct (setup_refused pg config p A)
    as (reason & q & -> & _ & _ & Hp & Hq & Hw & Hs & Hb & _).
  rewrite destroy_destroyed by congruence.
  repeat split; congruence.
Qed.




(** X18: [setup] does not look at [isDestroyed].  On a player already
    destroyed it never notifies, whatever the page and the configuration;
    and when every test passes it still creates a tracker and sets a
    backend up, which no later [destroy] tears down: however often
    [destroy] is called afterwards, the backend stays, nothing is destroyed
    and nobody is told. *)
Theorem setup_after_destroy_is_silent_and_leaks
  (pg : page) (config : object) (p : player) (reasons : list value) :
  isDestroyed p = true ->
  warnings (effects (Player.setup pg config p)) = warnings (effects p) /\
  (admissible pg config = true ->
   exists impl,
     destroy_all reasons (Player.setup pg config p) = Player.setup pg config p /\
     playerInstance (destroy_all reasons (Player.setup pg config p)) = Some (Some impl) /\
     tracker (destroy_all reasons (Player.setup pg config p)) = true /\
     backend_setups (effects (destroy_all reasons (Player.setup pg config p)))
       = backend_setups (effects p) ++ [impl] /\
     backend_destroys (effects (destroy_all reasons (Player.setup pg config p)))
       = backend_destroys (effects p)).
Proof.
  intros Hd. destruct (admissible pg config) eqn:A.
  - destruct (setup_admitted pg config p A) as (impl & _ & _ & E).
    assert (D : isDestroyed (Player.setup pg config p) = true)
      by (rewrite E; exact Hd).
    assert (F : destroy_all reasons (Player.setup pg config p)
                = Player.setup pg config p)
      by (unfold destroy_all; now apply destroy_again).
    split.
    + rewrite E. cbn [effects]. rewrite !warnings_app.
      destruct (isSecureContext pg), (isLocalhost pg); cbn; now rewrite app_nil_r.
    + intros _. exists impl. rewrite F. split; [reflexivity|].
      rewrite E. cbn [playerInstance tracker effects].
      rewrite !backend_setups_app, !backend_destroys_app.
      repeat split;
        destruct (isSecureContext pg), (isLocalhost pg); cbn;
        now rewrite ?app_nil_r.
  - split; [|discriminate].
    now apply setup_refused_destroyed.
Qed.

Lemma setup_after_destroy_is_silent_and_leaks_witness :
  let pg := mkPage true true true true false true (bundle_capabilities true true) in
  let config := mkObject (Some [Some (Some "mp4"%string)]) None None [] in
  let p := destroy VUndefined Player.create in
  isDestroyed p = true /\
  admissible pg config = true /\
  warnings (effects (Player.setup pg config p)) = warnings (effects p) /\
  playerInstance (destroy_all [VUndefined; VNull] (Player.setup pg config p))
    = Some (Some Mp4PlayerSW).
Proof.
  cbv zeta. split; [reflexivity|]. split; [reflexivity|].
  destruct (setup_after_destroy_is_silent_and_leaks
              (mkPage true true true true false true (bundle_capabilities true true))
              (mkObject (Some [Some (Some "mp4"%string)]) None None [])
              (destroy VUndefined Player.create) [VUndefined; VNull] eq_refl)
    as (Hw & Hleak).
  split; [exact Hw|].
  destruct (Hleak eq_refl) as (impl & F & Hi & _).
  rewrite F. reflexivity.
Defined.

(** X19: a second [setup] replaces the backend without destroying the
    first.  After two [setup]s that both go through on a live player,
    [destroy] tears down one backend only, the second; the first one was
    set up and is never destroyed. *)
Theorem second_setup_abandons_first_backend
  (pg1 pg2 : page) (config1 config2 : object) (reason : value) (p : player) :
  isDestroyed p = false ->
  admissible pg1 config1 = true ->
  admissible pg2 config2 = true ->
  exists impl1 impl2,
    Mp4Player.setup (browser pg1) = Some impl1 /\
    Mp4Player.setup (browser pg2) = Some impl2 /\
    backend_setups
      (effects (destroy reason (Player.setup pg2 config2 (Player.setup pg1 config1 p))))
      = backend_setups (effects p) ++ [impl1; impl2] /\
    backend_destroys
      (effects (destroy reason (Player.setup pg2 config2 (Player.setup pg1 config1 p))))
      = backend_destroys (effects p) ++ [Some impl2].
Proof.
  intros Hlive A1 A2.
  destruct (setup_admitted pg1 config1 p A1) as (impl1 & H1 & _ & E1).
  destruct (setup_admitted pg2 config2 (Player.setup pg1 config1 p) A2)
    as (impl2 & H2 & _ & E2).
  exists impl1, impl2. split; [exact H1|]. split; [exact H2|].
  rewrite destroy_live by (rewrite E2; cbn [isDestroyed]; rewrite E1; exact Hlive).
  rewrite E2. cbn [effects playerInstance tracker]. rewrite E1. cbn [effects].
  rewrite !backend_setups_app, !backend_destroys_app.
  split;
    destruct (isSecureContext pg1), (isLocalhost pg1),
             (isSecureContext pg2), (isLocalhost pg2); cbn;
    rewrite ?app_nil_r, <- ?app_assoc; reflexivity.
Qed.

Lemma second_setup_abandons_first_backend_witness :
  let pg := mkPage true true true true false true (bundle_capabilities true true) in
  let pg' := mkPage true true true true false true (bundle_capabilities true false) in
  let config := mkObject (Some [Some (Some "mp4"%string)]) None None [] in
  isDestroyed Player.create = false /\
  admissible pg config = true /\
  admissible pg' config = true /\
  backend_setups
    (effects (destroy VUndefined (Player.setup pg' config (Player.setup pg config Player.create))))
    = [Mp4PlayerSW; Mp4PlayerBox] /\
  backend_destroys
    (effects (destroy VUndefined (Player.setup pg' config (Player.setup pg config Player.create))))
    = [Some Mp4PlayerBox].
Proof.
  cbv zeta. do 3 (split; [reflexivity|]).
  destruct (second_setup_abandons_first_backend
              (mkPage true true true true false true (bundle_capabilities true true))
              (mkPage true true true true false true (bundle_capabilities true false))
              (mkObject (Some [Some (Some "mp4"%string)]) None None [])
              (mkObject (Some [Some (Some "mp4"%string)]) None None [])
              VUndefined Player.create eq_refl eq_refl eq_refl)
    as (impl1 & impl2 & H1 & H2 & Hs & Hb).
  cbv in H1, H2. injection H1 as <-. injection H2 as <-.
  split; [exact Hs | exact Hb].
Defined.

(* ===================================================================== *)
(** ** antiDevTools: the session flag and the alerts *)
(* ===================================================================== *)

Import AntiDevTools.

Lemma alerts_app (l1 l2 : list deed) : alerts (l1 ++ l2) = alerts l1 ++ alerts l2.
Proof. apply flat_map_app. Qed.

(** [showWarningAndCrash] shows one alert, which begins with the fixed
    text, and leaves storage and intervals alone. *)
Lemma showWarningAndCrash_does (m : moment) (w : world) :
  exists (before : list deed) (vid : jsstring),
    showWarningAndCrash m w
    = mkWorld (devtool w) (intervals w) (next_interval w)
              (history w ++ before
               ++ [SecurityWarning (lit "Security alert") (alert_text ++ vid)]) /\
    alerts before = [] /\
    ~ In ListenerAdded before /\ ~ In DetectorLaunched before.
Proof.
  unfold showWarningAndCrash.
  destruct (query_v m) as [message|[[|c v]|]].
  - exists [ConsoleError message], []. unfold does; cbn.
    rewrite <- app_assoc. repeat split; intros [H|[]]; discriminate H.
  - exists [], []. unfold does; cbn. repeat split; intros [].
  - exists [], (lit "<br>Vid: " ++ c :: v). unfold does; cbn [history devtool intervals next_interval app].
    repeat split; intros [].
  - exists [], []. unfold does; cbn. repeat split; intros [].
Qed.

(** [crashTab] sets the item, however its [try] ends; it shows no alert
    and touches no interval. *)
Lemma crashTab_does (m : moment) (w : world) :
  exists before : list deed,
    snd (crashTab m w)
    = mkWorld (Some (lit "open")) (intervals w) (next_interval w)
              (history w ++ before ++ [StorageSet (lit "open")]) /\
    alerts before = [].
Proof.
  unfold crashTab.
  destruct (jwplayer m) as [| | |[message|]]; cbn [snd]; unfold setItem, does;
    cbn [devtool intervals next_interval history].
  - now exists [].
  - now exists [].
  - exists [PlayerRemoved]. now rewrite <- app_assoc.
  - exists [ConsoleError message]. now rewrite <- app_assoc.
  - now exists [].
Qed.

Lemma is_open_item_open : is_open_item (Some (lit "open")) = true.
Proof. reflexivity. Qed.

Lemma debugger_checks_app (l1 l2 : list (nat * callback)) :
  debugger_checks (l1 ++ l2) = (debugger_checks l1 + debugger_checks l2)%nat.
Proof. unfold debugger_checks. now rewrite filter_app, length_app. Qed.

(** Setting an interval keeps the intervals in order. *)
Lemma intervals_ok_set (body : callback) (item : option jsstring)
      (l : list (nat * callback)) (n : nat) (log log' : list deed) :
  match body with DebuggerCheck id => id = n | _ => True end ->
  intervals_ok (mkWorld item l n log) ->
  intervals_ok (mkWorld item (l ++ [(n, body)]) (S n) log').
Proof.
  unfold intervals_ok. cbn [intervals next_interval]. intros Hb [Hnd Hall]. split.
  - rewrite map_app. cbn [map fst].
    apply NoDup_app; [exact Hnd | repeat constructor; intros [] |].
    intros i Hi [Hn|[]]. subst i.
    apply in_map_iff in Hi as ([j b] & Hj & Hin). cbn in Hj. subst j.
    rewrite Forall_forall in Hall. specialize (Hall _ Hin). cbn in Hall. lia.
  - apply Forall_app. split.
    + eapply Forall_impl; [|exact Hall]. intros [i b] [Hlt Hc]. cbn in *. split; [lia|exact Hc].
    + constructor; [|constructor]. cbn. split; [lia|]. destruct body; auto.
Qed.

Lemma intervals_ok_log (item item' : option jsstring) (l : list (nat * callback))
      (n : nat) (log log' : list deed) :
  intervals_ok (mkWorld item l n log) -> intervals_ok (mkWorld item' l n log').
Proof. exact (fun H => H). Qed.

Lemma intervals_ok_clear (id : nat) (item : option jsstring)
      (l : list (nat * callback)) (n : nat) (log log' : list deed) :
  intervals_ok (mkWorld item l n log) ->
  intervals_ok (mkWorld item (filter (fun entry => negb (Nat.eqb (fst entry) id)) l)
                        n log').
Proof.
  unfold intervals_ok. cbn [intervals next_interval]. intros [Hnd Hall]. split.
  - clear Hall. induction l as [|[i b] l IH]; [constructor|].
    cbn [map fst] in Hnd. inversion Hnd as [|? ? Hni Hnd']; subst.
    cbn [filter fst]. destruct (negb (Nat.eqb i id)); [|now apply IH].
    cbn [map fst]. constructor; [|now apply IH].
    intros Hin. apply Hni. apply in_map_iff in Hin as (x & Hx & Hf).
    apply filter_In in Hf as [Hf _]. apply in_map_iff. now exists x.
  - apply Forall_forall. intros x Hx. apply filter_In in Hx as [Hx _].
    rewrite Forall_forall in Hall. now apply Hall.
Qed.

Lemma interval_body_In (id : nat) (l : list (nat * callback)) (body : callback) :
  interval_body id l = Some body -> In (id, body) l.
Proof.
  induction l as [|[i b] l IH]; [discriminate|].
  cbn [interval_body]. destruct (Nat.eqb i id) eqn:E.
  - intros [= ->]. apply Nat.eqb_eq in E. subst. now left.
  - intros H. right. now apply IH.
Qed.

Lemma filter_other_ids (id : nat) (l : list (nat * callback)) :
  ~ In id (map fst l) ->
  filter (fun entry => negb (Nat.eqb (fst entry) id)) l = l.
Proof.
  induction l as [|[i b] l IH]; [reflexivity|].
  cbn [map fst filter In]. intros H.
  destruct (Nat.eqb i id) eqn:E.
  - apply Nat.eqb_eq in E. tauto.
  - cbn [negb]. f_equal. apply IH. tauto.
Qed.

(** Clearing a debugger check that is set leaves one check fewer. *)
Lemma debugger_checks_clear (id : nat) (l : list (nat * callback)) :
  NoDup (map fst l) ->
  In (id, DebuggerCheck id) l ->
  S (debugger_checks (filter (fun entry => negb (Nat.eqb (fst entry) id)) l))
  = debugger_checks l.
Proof.
  induction l as [|[i b] l IH]; [intros _ []|].
  cbn [map fst]. intros Hnd Hin. inversion Hnd as [|? ? Hni Hnd']; subst.
  cbn [filter fst]. destruct (Nat.eqb i id) eqn:E.
  - apply Nat.eqb_eq in E. subst i. cbn [negb].
    rewrite filter_other_ids by exact Hni.
    destruct Hin as [Hin|Hin].
    + injection Hin as ->. reflexivity.
    + exfalso. apply Hni. apply in_map_iff. now exists (id, DebuggerCheck id).
  - cbn [negb]. destruct Hin as [Hin|Hin].
    + injection Hin as -> _. now rewrite Nat.eqb_refl in E.
    + specialize (IH Hnd' Hin). unfold debugger_checks in *.
      cbn [filter snd]. destruct b; cbn [length]; lia.
Qed.

Lemma budget_showWarningAndCrash (k : nat) (m : moment) (w : world) :
  alert_budget k w -> alert_budget (S k) (showWarningAndCrash m w).
Proof.
  intros [Hok Hk].
  destruct (showWarningAndCrash_does m w) as (before & vid & -> & Hb & _).
  split; [exact Hok|]. cbn [history intervals].
  rewrite !alerts_app, Hb, !length_app. cbn. lia.
Qed.

Lemma budget_crashTab (k : nat) (m : moment) (w : world) :
  alert_budget k w -> alert_budget k (snd (crashTab m w)).
Proof.
  intros [Hok Hk].
  destruct (crashTab_does m w) as (before & -> & Hb).
  split; [exact Hok|]. cbn [history intervals].
  rewrite !alerts_app, Hb, !length_app. cbn. lia.
Qed.

Lemma budget_does (k : nat) (a : deed) (w : world) :
  alerts [a] = [] -> alert_budget k w -> alert_budget k (does a w).
Proof.
  intros Ha [Hok Hk]. split; [exact Hok|]. cbn [does history intervals].
  rewrite alerts_app, Ha, app_nil_r. exact Hk.
Qed.

(** An interval that is no debugger check costs nothing; a debugger
    check takes one from the budget. *)
Lemma budget_setInterval (k : nat) (body : nat -> callback) (w : world) :
  match body (next_interval w) with
  | DebuggerCheck id => id = next_interval w
  | _ => True
  end ->
  alert_budget k w ->
  alert_budget (k + match body (next_interval w) with
                    | DebuggerCheck _ => 1
                    | _ => 0
                    end)%nat
               (snd (setInterval body w)).
Proof.
  intros Hb [Hok Hk]. destruct w as [item l n log].
  cbn [next_interval] in *. unfold setInterval, does.
  cbn [snd devtool intervals next_interval history].
  split.
  - exact (intervals_ok_set (body n) item l n log _ Hb Hok).
  - cbn [history intervals] in *. rewrite alerts_app, debugger_checks_app, length_app.
    unfold debugger_checks at 2. cbn [filter snd].
    destruct (body n); cbn; lia.
Qed.

Lemma budget_weaken (k k' : nat) (w : world) :
  (k <= k')%nat -> alert_budget k w -> alert_budget k' w.
Proof. intros Hle [Hok Hk]. split; [exact Hok | lia]. Qed.

(** Clearing a debugger check that is set gives one back. *)
Lemma budget_clearInterval (k id : nat) (w : world) :
  alert_budget k w ->
  In (id, DebuggerCheck id) (intervals w) ->
  exists k', k = S k' /\ alert_budget k' (clearInterval id w).
Proof.
  intros [Hok Hk] Hin. destruct w as [item l n log].
  cbn [history intervals] in *.
  pose proof (debugger_checks_clear id l (proj1 Hok) Hin) as Hc.
  exists (pred k). split; [lia|]. unfold clearInterval, does.
  cbn [devtool intervals next_interval history]. split.
  - exact (intervals_ok_clear id item l n log _ Hok).
  - cbn [history intervals]. rewrite alerts_app, length_app. cbn. lia.
Qed.

(** What happens on the page never takes more from the budget than the
    occasion allows. *)
Lemma budget_step (k : nat) (w : world) (h : happening) :
  alert_budget k w -> alert_budget (k + occasions [h]) (page_step w h).
Proof.
  intros Hw. destruct h as [d m|id m|isOpen m];
    unfold occasions; cbn [page_step filter length].
  - (* a call *)
    unfold antiDevTools.
    destruct (negb (isTouchDevice d) || isDesktop d);
      [|cbn [snd]; apply (budget_weaken k); [lia | exact Hw]].
    assert (Hg : alert_budget k (does StorageGet w))
      by (apply budget_does; [reflexivity | exact Hw]).
    destruct (is_open_item (devtool (does StorageGet w))).
    + apply (budget_weaken (S k + 0)%nat); [lia|].
      exact (budget_setInterval (S k) (fun _ => CrashAndClear) _ I
               (budget_showWarningAndCrash k m _ Hg)).
    + destruct (isTouchDevice d).
      * apply (budget_weaken (k + 0 + 1)%nat); [lia|].
        exact (budget_setInterval (k + 0) DebuggerCheck _ eq_refl
                 (budget_setInterval k (fun _ => ClearConsole) _ I Hg)).
      * cbn [snd]. apply (budget_weaken k); [lia|].
        apply budget_does; [reflexivity|].
        apply budget_does; [reflexivity | exact Hg].
  - (* an interval comes due *)
    apply (budget_weaken k); [lia|].
    destruct (interval_body id (intervals w)) as [body|] eqn:E; [|exact Hw].
    apply interval_body_In in E.
    destruct body as [| |j|]; cbn [run_callback].
    + pose proof (budget_crashTab k m w Hw) as H.
      destruct (crashTab m w) as [[[]|e] w']; cbn [snd] in *; [|exact H].
      apply budget_does; [reflexivity | exact H].
    + cbn [snd]. apply budget_does; [reflexivity | exact Hw].
    + assert (Hj : j = id).
      { destruct Hw as [[_ Hall] _]. rewrite Forall_forall in Hall.
        exact (proj2 (Hall _ E)). }
      subst j. unfold isDebuggerOpen.
      assert (Hp : alert_budget k (does DebuggerProbe w))
        by (apply budget_does; [reflexivity | exact Hw]).
      destruct (100 <=? debugger_pause m)%Z; cbn [snd]; [|exact Hp].
      destruct (budget_clearInterval k id (does DebuggerProbe w) Hp E)
        as (k' & -> & Hc).
      apply (budget_weaken (S k' + 0)%nat); [lia|].
      exact (budget_setInterval (S k') (fun _ => Crash) _ I
               (budget_showWarningAndCrash k' m _ Hc)).
    + apply budget_crashTab. exact Hw.
  - (* the detector reports *)
    unfold listener, isDebuggerOpen.
    destruct isOpen; [|apply (budget_weaken k); [lia | exact Hw]].
    assert (Hp : alert_budget k (does DebuggerProbe w))
      by (apply budget_does; [reflexivity | exact Hw]).
    destruct (100 <=? debugger_pause m)%Z;
      [|apply (budget_weaken k); [cbn; lia | exact Hp]].
    apply (budget_weaken (S k + 0)%nat); [cbn; lia|].
    exact (budget_setInterval (S k) (fun _ => Crash) _ I
             (budget_showWarningAndCrash k m _ Hp)).
Qed.

Lemma occasions_cons (h : happening) (hs : list happening) :
  occasions (h :: hs) = (occasions [h] + occasions hs)%nat.
Proof.
  unfold occasions. cbn [filter].
  destruct (match h with
            | Called _ _ => true
            | Due _ _ => false
            | Reported isOpen _ => isOpen
            end); reflexivity.
Qed.

Lemma budget_run (hs : list happening) (k : nat) (w : world) :
  alert_budget k w -> alert_budget (k + occasions hs) (page_run hs w).
Proof.
  revert k w. induction hs as [|h hs IH]; intros k w Hw.
  - cbn. apply (budget_weaken k); [unfold occasions; cbn; lia | exact Hw].
  - cbn [page_run fold_left]. rewrite occasions_cons.
    apply (budget_weaken (k + occasions [h] + occasions hs)%nat); [lia|].
    apply IH. now apply budget_step.
Qed.

(** X20: alerts are rationed.  In a browsing session, whatever is in its
    storage, however often [antiDevTools()] is called, the intervals it
    sets come due and the detector calls its listener, the number of
    security alerts shown is at most the number of calls plus the number
    of reports that the tools are open: an interval coming due never adds
    one of its own, and a debugger check, once it has tripped, clears
    itself and does not trip again. *)
Theorem alerts_are_rationed (item : option jsstring) (hs : list happening) :
  (length (alerts (history (page_run hs (session item)))) <= occasions hs)%nat.
Proof.
  assert (H0 : alert_budget 0 (session item)).
  { split; [split; constructor | cbn; lia]. }
  destruct (budget_run hs 0 (session item) H0) as [_ H]. lia.
Qed.

(** Nothing on the page takes the item back once it is "open". *)
Lemma devtool_open_step (w : world) (h : happening) :
  devtool w = Some (lit "open") -> devtool (page_step w h) = Some (lit "open").
Proof.
  intros Hw. destruct h as [d m|id m|isOpen m]; cbn [page_step].
  - unfold antiDevTools.
    destruct (negb (isTouchDevice d) || isDesktop d); [|exact Hw].
    destruct (is_open_item (devtool (does StorageGet w))).
    + unfold setInterval. cbn [snd does devtool].
      destruct (showWarningAndCrash_does m (does StorageGet w))
        as (before & vid & -> & _). exact Hw.
    + destruct (isTouchDevice d); exact Hw.
  - destruct (interval_body id (intervals w)) as [body|]; [|exact Hw].
    destruct body as [| |j|]; cbn [run_callback].
    + destruct (crashTab_does m w) as (before & E & _).
      destruct (crashTab m w) as [[[]|e] w']; cbn [snd] in *; now rewrite E.
    + exact Hw.
    + unfold isDebuggerOpen. destruct (100 <=? debugger_pause m)%Z; [|exact Hw].
      unfold setInterval. cbn [snd does devtool].
      destruct (showWarningAndCrash_does m
                  (clearInterval j (does DebuggerProbe w)))
        as (before & vid & -> & _). exact Hw.
    + destruct (crashTab_does m w) as (before & -> & _). reflexivity.
  - unfold listener, isDebuggerOpen. destruct isOpen; [|exact Hw].
    destruct (100 <=? debugger_pause m)%Z; [|exact Hw].
    unfold setInterval. cbn [snd does devtool].
    destruct (showWarningAndCrash_does m (does DebuggerProbe w))
      as (before & vid & -> & _). exact Hw.
Qed.

Lemma devtool_open_run (hs : list happening) (w : world) :
  devtool w = Some (lit "open") -> devtool (page_run hs w) = Some (lit "open").
Proof.
  revert w. induction hs as [|h hs IH]; intros w Hw; [exact Hw|].
  cbn [page_run fold_left]. apply IH. now apply devtool_open_step.
Qed.

(** A call in a session whose item is "open", on a device that is
    checked. *)
Lemma antiDevTools_flagged (d : device) (m : moment) (w : world) :
  negb (isTouchDevice d) || isDesktop d = true ->
  devtool w = Some (lit "open") ->
  exists (before : list deed) (vid : jsstring),
    antiDevTools d m w
    = (Some (next_interval w),
       mkWorld (devtool w) (intervals w ++ [(next_interval w, CrashAndClear)])
               (S (next_interval w))
               (history w ++ StorageGet :: before
                ++ [SecurityWarning (lit "Security alert") (alert_text ++ vid);
                    IntervalSet (next_interval w) CrashAndClear])) /\
    alerts before = [] /\
    ~ In ListenerAdded before /\ ~ In DetectorLaunched before.
Proof.
  intros Hd Hw. unfold antiDevTools. rewrite Hd.
  destruct w as [item l n log]. cbn [devtool] in Hw. subst item.
  cbn [does devtool intervals next_interval history].
  rewrite is_open_item_open.
  destruct (showWarningAndCrash_does m
              (does StorageGet (mkWorld (Some (lit "open")) l n log)))
    as (before & vid & -> & Hb & Hl & Hdl).
  exists before, vid. split; [|now repeat split].
  unfold setInterval, does. cbn [devtool intervals next_interval history].
  rewrite <- !app_assoc. reflexivity.
Qed.

(** X21: once [crashTab()] has run, however its [try] ended, the session
    is locked.  The item "devtool" is "open" and nothing that happens on
    the page afterwards takes it back.  Every later [antiDevTools()] on a
    device that is not touch-only shows the alert at once, sets one
    interval that crashes the tab again and never turns to the detector;
    on a touch-only device that is no desktop it still does nothing at
    all. *)
Theorem crash_locks_the_session
  (m0 : moment) (w0 : world) (hs : list happening) (d : device) (m : moment) :
  devtool (page_run hs (snd (crashTab m0 w0))) = Some (lit "open") /\
  if negb (isTouchDevice d) || isDesktop d then
    fst (antiDevTools d m (page_run hs (snd (crashTab m0 w0))))
      = Some (next_interval (page_run hs (snd (crashTab m0 w0)))) /\
    intervals (snd (antiDevTools d m (page_run hs (snd (crashTab m0 w0)))))
      = intervals (page_run hs (snd (crashTab m0 w0)))
        ++ [(next_interval (page_run hs (snd (crashTab m0 w0))), CrashAndClear)] /\
    (exists vid : jsstring,
       alerts (history (snd (antiDevTools d m (page_run hs (snd (crashTab m0 w0))))))
       = alerts (history (page_run hs (snd (crashTab m0 w0))))
         ++ [alert_text ++ vid]) /\
    (In ListenerAdded
        (history (snd (antiDevTools d m (page_run hs (snd (crashTab m0 w0)))))) ->
     In ListenerAdded (history (page_run hs (snd (crashTab m0 w0))))) /\
    (In DetectorLaunched
        (history (snd (antiDevTools d m (page_run hs (snd (crashTab m0 w0)))))) ->
     In DetectorLaunched (history (page_run hs (snd (crashTab m0 w0)))))
  else
    antiDevTools d m (page_run hs (snd (crashTab m0 w0)))
      = (None, page_run hs (snd (crashTab m0 w0))).
Proof.
  assert (Hw : devtool (page_run hs (snd (crashTab m0 w0))) = Some (lit "open")).
  { apply devtool_open_run.
    destruct (crashTab_does m0 w0) as (before & -> & _). reflexivity. }
  split; [exact Hw|].
  generalize dependent (page_run hs (snd (crashTab m0 w0))). intros w Hw.
  destruct (negb (isTouchDevice d) || isDesktop d) eqn:Hd.
  - destruct (antiDevTools_flagged d m w Hd Hw)
      as (before & vid & -> & Hb & Hl & Hdl).
    cbn [fst snd intervals history].
    split; [reflexivity|]. split; [reflexivity|]. split; [|split].
    + exists vid. rewrite alerts_app.
      change (alerts (StorageGet :: ?l)) with (alerts l).
      now rewrite alerts_app, Hb.
    + rewrite in_app_iff. intros [H|[H|H]]; [exact H | discriminate H |].
      apply in_app_iff in H as [H|[H|[H|[]]]];
        [contradiction | discriminate H | discriminate H].
    + rewrite in_app_iff. intros [H|[H|H]]; [exact H | discriminate H |].
      apply in_app_iff in H as [H|[H|[H|[]]]];
        [contradiction | discriminate H | discriminate H].
  - unfold antiDevTools. now rewrite Hd.
Qed.

Lemma listener_trips (m : moment) (w : world) :
  (100 <= debugger_pause m)%Z ->
  exists (before : list deed) (vid : jsstring),
    listener true m w
    = mkWorld (devtool w) (intervals w ++ [(next_interval w, Crash)])
              (S (next_interval w))
              (history w ++ DebuggerProbe :: before
               ++ [SecurityWarning (lit "Security alert") (alert_text ++ vid);
                   IntervalSet (next_interval w) Crash]) /\
    alerts before = [].
Proof.
  intros Hp. apply Z.leb_le in Hp. unfold listener, isDebuggerOpen. rewrite Hp.
  destruct (showWarningAndCrash_does m (does DebuggerProbe w))
    as (before & vid & -> & Hb & _).
  exists before, vid. split; [|exact Hb].
  unfold setInterval, does. cbn [snd devtool intervals next_interval history].
  now rewrite <- !app_assoc.
Qed.

(** X22: what the listener sets, nothing clears.  Each time the detector
    reports the tools open and the debugger statement takes 100 ms or
    more, the listener shows one more alert and sets one more interval
    that crashes the tab; and a report while the debugger statement is
    quick, or a report that the tools are closed, changes neither. *)
Theorem every_tripped_report_adds_an_interval (ms : list moment) (w : world) :
  Forall (fun m => (100 <= debugger_pause m)%Z) ms ->
  length (alerts (history (page_run (map (Reported true) ms) w)))
    = (length (alerts (history w)) + length ms)%nat /\
  length (intervals (page_run (map (Reported true) ms) w))
    = (length (intervals w) + length ms)%nat /\
  (forall m isOpen,
     isOpen = false \/ (debugger_pause m < 100)%Z ->
     alerts (history (listener isOpen m w)) = alerts (history w) /\
     intervals (listener isOpen m w) = intervals w).
Proof.
  intros Hms. split; [|split].
  - revert w. induction Hms as [|m ms Hm _ IH]; intros w; [cbn; lia|].
    cbn [map page_run fold_left page_step].
    change (fold_left page_step (map (Reported true) ms) ?x)
      with (page_run (map (Reported true) ms) x).
    rewrite IH. destruct (listener_trips m w Hm) as (before & vid & -> & Hb).
    cbn [history]. rewrite alerts_app.
    change (alerts (DebuggerProbe :: ?l)) with (alerts l).
    rewrite alerts_app, Hb, !length_app. cbn. lia.
  - revert w. induction Hms as [|m ms Hm _ IH]; intros w; [cbn; lia|].
    cbn [map page_run fold_left page_step].
    change (fold_left page_step (map (Reported true) ms) ?x)
      with (page_run (map (Reported true) ms) x).
    rewrite IH. destruct (listener_trips m w Hm) as (before & vid & -> & Hb).
    cbn [intervals]. rewrite length_app. cbn. lia.
  - intros m isOpen [->|Hq]; [now split|].
    unfold listener, isDebuggerOpen. destruct isOpen; [|now split].
    apply Z.leb_gt in Hq. rewrite Hq. unfold does. cbn [history intervals].
    rewrite alerts_app. cbn. now rewrite app_nil_r.
Qed.

Lemma every_tripped_report_adds_an_interval_witness :
  let ms := [mkMoment Removes 250 (Param (Some (lit "abc")));
             mkMoment NoJwplayer 100 (Param None)] in
  Forall (fun m => (100 <= debugger_pause m)%Z) ms /\
  length (alerts (history (page_run (map (Reported true) ms) (session None)))) = 2%nat /\
  length (intervals (page_run (map (Reported true) ms) (session None))) = 2%nat.
Proof.
  cbv zeta.
  assert (H : Forall (fun m => (100 <= debugger_pause m)%Z)
                     [mkMoment Removes 250 (Param (Some (lit "abc")));
                      mkMoment NoJwplayer 100 (Param None)])
    by (repeat constructor; cbn; lia).
  split; [exact H|].
  destruct (every_tripped_report_adds_an_interval _ (session None) H)
    as (Ha & Hi & _).
  split; [exact Ha | exact Hi].
Defined.

(* ===================================================================== *)
(** ** The module loader *)
(* ===================================================================== *)

Lemma lookup_assign_same {A : Type} (key : string) (x : A) (o : list (string * A)) :
  Loader.lookup key (Loader.assign key x o) = Some x.
Proof.
  induction o as [|[k y] o IH]; cbn [Loader.assign Loader.lookup].
  - now rewrite String.eqb_refl.
  - destruct (String.eqb k key) eqn:E; cbn [Loader.lookup]; now rewrite E.
Qed.

Lemma lookup_assign_other {A : Type} (key key' : string) (x : A)
      (o : list (string * A)) :
  key <> key' ->
  Loader.lookup key' (Loader.assign key x o) = Loader.lookup key' o.
Proof.
  intros Hne. induction o as [|[k y] o IH]; cbn [Loader.assign Loader.lookup].
  - destruct (String.eqb_spec key key'); [contradiction | reflexivity].
  - destruct (String.eqb_spec k key) as [->|Hk]; cbn [Loader.lookup].
    + destruct (String.eqb_spec key key'); [contradiction | reflexivity].
    + now rewrite IH.
Qed.

Lemma lookup_assign_keeps {A : Type} (key key' : string) (x : A)
      (o : list (string * A)) :
  Loader.lookup key' o <> None ->
  Loader.lookup key' (Loader.assign key x o) <> None.
Proof.
  intros H. destruct (string_dec key key') as [->|Hne].
  - now rewrite lookup_assign_same.
  - now rewrite lookup_assign_other.
Qed.

Section LoaderProperties.

Variable V : Type.
Variable modules : list (string * Loader.factory V).

Implicit Types (l : Loader.loader V) (f : Loader.factory V).

Lemma extends_refl l : Loader.extends l l.
Proof. split; auto. Qed.

Lemma extends_trans l1 l2 l3 :
  Loader.extends l1 l2 -> Loader.extends l2 l3 -> Loader.extends l1 l3.
Proof. intros [H1 H1'] [H2 H2']. split; auto. Qed.

(** Setting a property of a module's exports. *)
Lemma extends_define (self key : string) (v : V) l :
  Loader.extends l (Loader.mkLoader
               (Loader.assign self
                  (Loader.assign key v (Loader.exports_of self l))
                  (Loader.moduleCache l))
               (Loader.executed l)).
Proof.
  split.
  - intros moduleId H. cbn [Loader.moduleCache]. now apply lookup_assign_keeps.
  - intros [Hnd Hin]. split; [exact Hnd|].
    intros moduleId H. cbn [Loader.moduleCache Loader.executed] in *.
    apply lookup_assign_keeps. now apply Hin.
Qed.

(** A module is entered into the cache and its function called. *)
Lemma extends_enter (moduleId : string) l :
  Loader.lookup moduleId (Loader.moduleCache l) = None ->
  Loader.extends l (Loader.mkLoader
               (Loader.assign moduleId [] (Loader.moduleCache l))
               (Loader.executed l ++ [moduleId])).
Proof.
  intros Hmiss. split.
  - intros k H. cbn [Loader.moduleCache]. now apply lookup_assign_keeps.
  - intros [Hnd Hin]. split; cbn [Loader.moduleCache Loader.executed].
    + apply NoDup_app; [exact Hnd | repeat constructor; intros [] |].
      intros k Hk [Hk'|[]]. subst k. apply Hin in Hk. contradiction.
    + intros k Hk. apply in_app_iff in Hk as [Hk|[Hk|[]]].
      * apply lookup_assign_keeps. now apply Hin.
      * subst k. now rewrite lookup_assign_same.
Qed.

Lemma extends_store (moduleId : string) l :
  Loader.extends l (Loader.mkLoader
               (Loader.assign moduleId [] (Loader.moduleCache l))
               (Loader.executed l)).
Proof.
  split.
  - intros k H. cbn [Loader.moduleCache]. now apply lookup_assign_keeps.
  - intros [Hnd Hin]. split; [exact Hnd|].
    intros k Hk. cbn [Loader.moduleCache Loader.executed] in *.
    apply lookup_assign_keeps. now apply Hin.
Qed.

(** A module function keeps what the loader keeps. *)
Lemma call_extends
      (require : string -> Loader.loader V -> option (result (Loader.required V) * Loader.loader V))
      (self : string) :
  (forall moduleId l r l', require moduleId l = Some (r, l') -> Loader.extends l l') ->
  forall f l r l',
    Loader.call require self f l = Some (r, l') -> Loader.extends l l'.
Proof.
  intros Hreq. induction f as [|e|key v next IH|moduleId next IH];
    intros l r l' H; cbn [Loader.call] in H.
  - injection H as _ <-. apply extends_refl.
  - injection H as _ <-. apply extends_refl.
  - apply IH in H. eapply extends_trans; [apply extends_define | exact H].
  - destruct (require moduleId l) as [[[x|e] l1]|] eqn:E; [| |discriminate].
    + apply Hreq in E. apply IH in H. eapply extends_trans; eassumption.
    + injection H as _ <-. now apply Hreq in E.
Qed.

Lemma requireModule_extends (fuel : nat) :
  forall (moduleId : string) l r l',
    Loader.requireModule modules fuel moduleId l = Some (r, l') -> Loader.extends l l'.
Proof.
  induction fuel as [|fuel IH]; intros moduleId l r l' H; [discriminate|].
  cbn [Loader.requireModule] in H. unfold Loader.cachedModule in H.
  destruct (Loader.lookup moduleId (Loader.moduleCache l)) as [o|] eqn:Hc.
  - injection H as _ <-. apply extends_refl.
  - destruct (Loader.inherited moduleId).
    + injection H as _ <-. apply extends_refl.
    + cbn [Loader.moduleCache Loader.executed] in H.
      destruct (Loader.lookup moduleId modules) as [f|].
      * destruct (Loader.call (Loader.requireModule modules fuel) moduleId f _)
          as [[[x|e] l1]|] eqn:E; [| |discriminate];
          injection H as _ <-;
          (eapply extends_trans; [apply (extends_enter moduleId l Hc)|]);
          exact (call_extends _ moduleId IH f _ _ _ E).
      * injection H as _ <-. apply extends_store.
Qed.

(** After [requireModule(moduleId)], however it ended, the module is in
    the cache. *)
Lemma requireModule_caches (fuel : nat) (moduleId : string) l r l' :
  Loader.requireModule modules fuel moduleId l = Some (r, l') ->
  Loader.inherited moduleId = false \/ (exists e, r = Throw e) ->
  Loader.lookup moduleId (Loader.moduleCache l') <> None.
Proof.
  destruct fuel as [|fuel]; [discriminate|].
  cbn [Loader.requireModule]. unfold Loader.cachedModule.
  destruct (Loader.lookup moduleId (Loader.moduleCache l)) as [o|] eqn:Hc.
  - intros [= <- <-] [_|[e He]]; [congruence | discriminate He].
  - destruct (Loader.inherited moduleId).
    + intros [= <- <-] [H|[e He]]; [discriminate H | discriminate He].
    + intros H _. cbn [Loader.moduleCache Loader.executed] in H.
      assert (Hin : Loader.lookup moduleId
                      (Loader.assign moduleId ([] : Loader.object V)
                                     (Loader.moduleCache l)) <> None)
        by now rewrite lookup_assign_same.
      destruct (Loader.lookup moduleId modules) as [f|].
      * destruct (Loader.call (Loader.requireModule modules fuel) moduleId f _)
          as [[[x|e] l1]|] eqn:E; [| |discriminate];
          injection H as _ <-;
          exact (proj1 (call_extends _ moduleId (requireModule_extends fuel)
                          f _ _ _ E) moduleId Hin).
      * injection H as _ <-. exact Hin.
Qed.

Lemma filter_length_mono {A : Type} (p q : A -> bool) (xs : list A) :
  (forall x, In x xs -> q x = true -> p x = true) ->
  (length (filter q xs) <= length (filter p xs))%nat.
Proof.
  induction xs as [|x xs IH]; intros H; [apply Nat.le_refl|].
  cbn [filter]. assert (IH' := IH (fun y Hy => H y (or_intror Hy))).
  destruct (q x) eqn:Q.
  - rewrite (H x (or_introl eq_refl) Q). cbn [length]. lia.
  - destruct (p x); cbn [length]; lia.
Qed.

Lemma filter_length_strict {A : Type} (p q : A -> bool) (xs : list A) (a : A) :
  (forall x, In x xs -> q x = true -> p x = true) ->
  In a xs -> p a = true -> q a = false ->
  (length (filter q xs) < length (filter p xs))%nat.
Proof.
  induction xs as [|x xs IH]; intros H Hin Hp Hq; [destruct Hin|].
  cbn [filter].
  assert (Hle := filter_length_mono p q xs (fun y Hy => H y (or_intror Hy))).
  destruct Hin as [->|Hin].
  - rewrite Hp, Hq. cbn [length]. lia.
  - assert (IH' := IH (fun y Hy => H y (or_intror Hy)) Hin Hp Hq).
    destruct (q x) eqn:Q.
    + rewrite (H x (or_introl eq_refl) Q). cbn [length]. lia.
    + destruct (p x); cbn [length]; lia.
Qed.

Lemma lookup_In {A : Type} (key : string) (x : A) (o : list (string * A)) :
  Loader.lookup key o = Some x -> In (key, x) o.
Proof.
  induction o as [|[k y] o IH]; [discriminate|].
  cbn [Loader.lookup]. destruct (String.eqb_spec k key) as [->|Hk].
  - intros [= ->]. now left.
  - intros H. right. now apply IH.
Qed.

(** The cache only grows, so the modules not yet loaded only get fewer. *)
Lemma unloaded_le l l' :
  Loader.extends l l' ->
  (Loader.unloaded modules l' <= Loader.unloaded modules l)%nat.
Proof.
  intros [Hdom _]. unfold Loader.unloaded. apply filter_length_mono.
  intros [k f] _. cbn [fst]. specialize (Hdom k).
  destruct (Loader.lookup k (Loader.moduleCache l)); [|reflexivity].
  destruct (Loader.lookup k (Loader.moduleCache l')); [discriminate|].
  exfalso. apply Hdom; [discriminate | reflexivity].
Qed.

Lemma unloaded_enter (moduleId : string) f l l' :
  Loader.lookup moduleId modules = Some f ->
  Loader.lookup moduleId (Loader.moduleCache l) = None ->
  Loader.lookup moduleId (Loader.moduleCache l') <> None ->
  Loader.extends l l' ->
  (Loader.unloaded modules l' < Loader.unloaded modules l)%nat.
Proof.
  intros Hm Hmiss Hhit [Hdom _]. unfold Loader.unloaded.
  apply (filter_length_strict _ _ modules (moduleId, f)).
  - intros [k g] _. cbn [fst]. specialize (Hdom k).
    destruct (Loader.lookup k (Loader.moduleCache l)); [|reflexivity].
    destruct (Loader.lookup k (Loader.moduleCache l')); [discriminate|].
    exfalso. apply Hdom; [discriminate | reflexivity].
  - now apply lookup_In.
  - cbn [fst]. now rewrite Hmiss.
  - cbn [fst]. destruct (Loader.lookup moduleId (Loader.moduleCache l'));
      [reflexivity | contradiction].
Qed.

(** A module function comes to an end when the loader does. *)
Lemma call_total
      (require : string -> Loader.loader V
                 -> option (result (Loader.required V) * Loader.loader V))
      (self : string) (n : nat) :
  (forall moduleId l r l', require moduleId l = Some (r, l') -> Loader.extends l l') ->
  (forall moduleId l, (Loader.unloaded modules l < n)%nat ->
                      exists r l', require moduleId l = Some (r, l')) ->
  forall f l, (Loader.unloaded modules l < n)%nat ->
              exists r l', Loader.call require self f l = Some (r, l').
Proof.
  intros Hext Htot. induction f as [|e|key v next IH|moduleId next IH];
    intros l Hl; cbn [Loader.call].
  - now eexists _, _.
  - now eexists _, _.
  - apply IH. pose proof (unloaded_le _ _ (extends_define self key v l)). lia.
  - destruct (Htot moduleId l Hl) as ([x|e] & l1 & E); rewrite E.
    + apply IH. pose proof (unloaded_le _ _ (Hext _ _ _ _ E)). lia.
    + now eexists _, _.
Qed.

Lemma requireModule_total (fuel : nat) :
  forall (moduleId : string) l,
    (Loader.unloaded modules l < fuel)%nat ->
    exists r l', Loader.requireModule modules fuel moduleId l = Some (r, l').
Proof.
  induction fuel as [|fuel IH]; intros moduleId l Hl; [lia|].
  cbn [Loader.requireModule]. unfold Loader.cachedModule.
  destruct (Loader.lookup moduleId (Loader.moduleCache l)) as [o|] eqn:Hc;
    [now eexists _, _|].
  destruct (Loader.inherited moduleId); [now eexists _, _|].
  cbn [Loader.moduleCache Loader.executed].
  destruct (Loader.lookup moduleId modules) as [f|] eqn:Hm; [|now eexists _, _].
  assert (Hlt : (Loader.unloaded modules
                   (Loader.mkLoader (Loader.assign moduleId [] (Loader.moduleCache l))
                                    (Loader.executed l ++ [moduleId]))
                 < fuel)%nat).
  { assert (Hin : Loader.lookup moduleId
                    (Loader.moduleCache
                       (Loader.mkLoader
                          (Loader.assign moduleId ([] : Loader.object V)
                                         (Loader.moduleCache l))
                          (Loader.executed l ++ [moduleId]))) <> None)
      by (cbn [Loader.moduleCache]; now rewrite lookup_assign_same).
    eapply Nat.lt_le_trans;
      [exact (unloaded_enter moduleId f l _ Hm Hc Hin (extends_enter moduleId l Hc))
      | lia]. }
  destruct (call_total _ moduleId fuel (requireModule_extends fuel) IH f _ Hlt)
    as ([x|e] & l1 & E); rewrite E; now eexists _, _.
Qed.

Lemma unloaded_bound l : (Loader.unloaded modules l <= length modules)%nat.
Proof. unfold Loader.unloaded. apply List.filter_length_le. Qed.

(** More fuel changes nothing once there is enough. *)
Lemma call_more_fuel
      (require require' : string -> Loader.loader V
                          -> option (result (Loader.required V) * Loader.loader V))
      (self : string) :
  (forall moduleId l x, require moduleId l = Some x -> require' moduleId l = Some x) ->
  forall f l x, Loader.call require self f l = Some x ->
                Loader.call require' self f l = Some x.
Proof.
  intros H. induction f as [|e|key v next IH|moduleId next IH];
    intros l x Hx; cbn [Loader.call] in *; try exact Hx.
  - now apply IH.
  - destruct (require moduleId l) as [[[y|e] l1]|] eqn:E; [| |discriminate];
      rewrite (H _ _ _ E); [now apply IH | exact Hx].
Qed.

Lemma requireModule_more_fuel (fuel : nat) :
  forall (moduleId : string) l x,
    Loader.requireModule modules fuel moduleId l = Some x ->
    Loader.requireModule modules (S fuel) moduleId l = Some x.
Proof.
  induction fuel as [|fuel IH]; intros moduleId l x H; [discriminate|].
  cbn [Loader.requireModule] in H.
  change (Loader.requireModule modules (S (S fuel)) moduleId l)
    with (match Loader.cachedModule moduleId l with
          | Some r => Some (Return r, l)
          | None =>
              match Loader.lookup moduleId modules with
              | None => Some (Throw TypeError,
                              Loader.mkLoader
                                (Loader.assign moduleId [] (Loader.moduleCache l))
                                (Loader.executed l))
              | Some f =>
                  match Loader.call (Loader.requireModule modules (S fuel)) moduleId f
                          (Loader.mkLoader
                             (Loader.assign moduleId [] (Loader.moduleCache l))
                             (Loader.executed l ++ [moduleId])) with
                  | Some (Return _, l) =>
                      Some (Return (Loader.Exports (Loader.exports_of moduleId l)), l)
                  | Some (Throw e, l) => Some (Throw e, l)
                  | None => None
                  end
              end
          end).
  destruct (Loader.cachedModule moduleId l); [exact H|].
  cbn [Loader.moduleCache Loader.executed] in H.
  destruct (Loader.lookup moduleId modules) as [f|]; [|exact H].
  destruct (Loader.call (Loader.requireModule modules fuel) moduleId f _)
    as [y|] eqn:E; [|discriminate].
  now rewrite (call_more_fuel _ _ moduleId IH f _ _ E).
Qed.

Lemma requireModule_enough_fuel (fuel fuel' : nat) (moduleId : string) l x :
  (fuel <= fuel')%nat ->
  Loader.requireModule modules fuel moduleId l = Some x ->
  Loader.requireModule modules fuel' moduleId l = Some x.
Proof.
  induction 1 as [|fuel' _ IH]; [auto|].
  intros H. now apply requireModule_more_fuel, IH.
Qed.

Lemma loaded_once_boot : Loader.loaded_once (@Loader.boot V).
Proof. split; [constructor | intros ? []]. Qed.

Lemma require_all_total (ids : list string) :
  forall l, Loader.loaded_once l ->
            exists l', Loader.require_all modules (S (length modules)) ids l = Some l' /\
                       Loader.loaded_once l'.
Proof.
  induction ids as [|moduleId ids IH]; intros l Hl; [now exists l|].
  cbn [Loader.require_all].
  destruct (requireModule_total (S (length modules)) moduleId l) as (r & l1 & E).
  { pose proof (unloaded_bound l). lia. }
  rewrite E. apply IH. exact (proj2 (requireModule_extends _ _ _ _ _ E) Hl).
Qed.

End LoaderProperties.

(** X23: [requireModule] comes to an end, also when modules require each
    other in a circle.  Whatever the bundle, the module asked for and the
    cache, the call returns or throws, and it needs no more nested calls
    than there are modules, plus one: the result is the same for any
    greater bound. *)
Theorem requireModule_ends_on_cycles
  (V : Type) (modules : list (string * Loader.factory V))
  (moduleId : string) (l : Loader.loader V) :
  exists r l',
    forall fuel, (length modules < fuel)%nat ->
                 Loader.requireModule modules fuel moduleId l = Some (r, l').
Proof.
  destruct (requireModule_total V modules (S (length modules)) moduleId l)
    as (r & l' & E).
  { pose proof (unloaded_bound V modules l). lia. }
  exists r, l'. intros fuel Hf.
  apply (requireModule_enough_fuel V modules (S (length modules))); [lia | exact E].
Qed.

(** X24: no module function is called twice.  From an empty cache,
    whatever modules are required one after the other, whichever of them
    throw, and however they require each other, the run comes to an end
    and every module function that was called was called once, its
    module being in the cache from then on. *)
Theorem module_functions_run_at_most_once
  (V : Type) (modules : list (string * Loader.factory V)) (ids : list string) :
  exists l',
    Loader.require_all modules (S (length modules)) ids Loader.boot = Some l' /\
    NoDup (Loader.executed l') /\
    forall moduleId,
      In moduleId (Loader.executed l') ->
      exists o, Loader.lookup moduleId (Loader.moduleCache l') = Some o.
Proof.
  destruct (require_all_total V modules ids Loader.boot (loaded_once_boot V))
    as (l' & E & Hnd & Hin).
  exists l'. split; [exact E|]. split; [exact Hnd|].
  intros moduleId H. specialize (Hin moduleId H).
  destruct (Loader.lookup moduleId (Loader.moduleCache l')) as [o|];
    [now exists o | contradiction].
Qed.

(** X25: a module that failed to load is not tried again.  When
    [requireModule(moduleId)] throws, because the module function threw
    or because there is no such module, the cache keeps the module's
    entry; the next [requireModule(moduleId)] returns its exports as they
    were left, without an error and without calling anything.  For an id
    that names no module the first call throws a [TypeError] and the
    exports returned later are an empty object. *)
Theorem failed_module_is_not_retried
  (V : Type) (modules : list (string * Loader.factory V))
  (fuel : nat) (moduleId : string) (l l' : Loader.loader V) (e : error) :
  Loader.requireModule modules fuel moduleId l = Some (Throw e, l') ->
  (forall n,
     Loader.requireModule modules (S n) moduleId l'
     = Some (Return (Loader.Exports (Loader.exports_of moduleId l')), l')) /\
  (Loader.lookup moduleId modules = None ->
   e = TypeError /\ Loader.exports_of moduleId l' = [] /\
   Loader.executed l' = Loader.executed l).
Proof.
  intros H.
  pose proof (requireModule_caches V modules fuel moduleId l _ _ H
                (or_intror (ex_intro _ e eq_refl))) as Hc.
  split.
  - intros n. cbn [Loader.requireModule]. unfold Loader.cachedModule, Loader.exports_of.
    destruct (Loader.lookup moduleId (Loader.moduleCache l')); [reflexivity|].
    contradiction.
  - intros Hm. destruct fuel as [|fuel]; [discriminate|].
    cbn [Loader.requireModule] in H. rewrite Hm in H.
    destruct (Loader.cachedModule moduleId l); [discriminate|].
    injection H as <- <-. unfold Loader.exports_of. cbn [Loader.moduleCache Loader.executed].
    now rewrite lookup_assign_same.
Qed.

Lemma failed_module_is_not_retried_witness :
  let modules := [("0xa10"%string,
                   Loader.Define "default"%string 1%nat (Loader.Raise OperationError))] in
  Loader.requireModule modules 2 "0xa10"%string Loader.boot
  = Some (Throw OperationError,
          Loader.mkLoader [("0xa10"%string, [("default"%string, 1%nat)])]
                          ["0xa10"%string]) /\
  Loader.requireModule modules 1 "0xa10"%string
    (Loader.mkLoader [("0xa10"%string, [("default"%string, 1%nat)])] ["0xa10"%string])
  = Some (Return (Loader.Exports [("default"%string, 1%nat)]),
          Loader.mkLoader [("0xa10"%string, [("default"%string, 1%nat)])]
                          ["0xa10"%string]).
Proof.
  cbv zeta. split; [reflexivity|].
  exact (proj1 (failed_module_is_not_retried nat
                  [("0xa10"%string,
                    Loader.Define "default"%string 1%nat (Loader.Raise OperationError))]
                  2 "0xa10"%string Loader.boot _ OperationError eq_refl) 0%nat).
Defined.

Lemma lookup_app_found {A : Type} (key : string) (o1 o2 : list (string * A)) :
  Loader.lookup key o1 <> None ->
  Loader.lookup key (o1 ++ o2) = Loader.lookup key o1.
Proof.
  induction o1 as [|[k x] o1 IH]; cbn [Loader.lookup app]; [congruence|].
  destruct (String.eqb k key); [reflexivity | exact IH].
Qed.

Lemma o_app {A : Type} (o1 o2 : list (string * A)) (key : string) :
  Loader.o (o1 ++ o2) key = Loader.o o1 key || Loader.o o2 key.
Proof.
  unfold Loader.o. induction o1 as [|[k x] o1 IH]; cbn [Loader.lookup app].
  - now destruct (Loader.lookup key o2).
  - destruct (String.eqb k key); [reflexivity | exact IH].
Qed.

Section DefineGetters.

Variables V G : Type.
Implicit Types (exports : list (string * Loader.property V G))
               (definition : list (string * (bool * G))).

(** [d] adds getters at the end and nothing else. *)
Lemma d_appends definition :
  forall exports,
    exists added,
      Loader.d exports definition = exports ++ added /\
      Forall (fun p => exists get, snd p = Loader.Getter get) added.
Proof.
  induction definition as [|[key [own get]] definition IH]; intros exports.
  - exists []. now rewrite app_nil_r.
  - cbn [Loader.d fold_left].
    destruct (own && negb (Loader.o exports key)).
    + destruct (IH (exports ++ [(key, Loader.Getter get)])) as (added & E & Ha).
      exists ((key, Loader.Getter get) :: added). unfold Loader.d in E. rewrite E.
      rewrite <- app_assoc. split; [reflexivity|].
      constructor; [now exists get | exact Ha].
    + apply IH.
Qed.

Lemma d_keeps_keys definition exports (key : string) :
  Loader.o exports key = true -> Loader.o (Loader.d exports definition) key = true.
Proof.
  intros H. destruct (d_appends definition exports) as (added & -> & _).
  now rewrite o_app, H.
Qed.

Lemma d_defines_own definition :
  forall exports (key : string) (get : G),
    In (key, (true, get)) definition ->
    Loader.o (Loader.d exports definition) key = true.
Proof.
  induction definition as [|[k [own g]] definition IH]; intros exports key get;
    [intros []|].
  intros [Hin|Hin]; cbn [Loader.d fold_left].
  - injection Hin as -> -> ->. cbn [andb].
    destruct (Loader.o exports key) eqn:E; cbn [negb].
    + now apply d_keeps_keys.
    + apply d_keeps_keys. rewrite o_app. unfold Loader.o at 2. cbn [Loader.lookup].
      rewrite String.eqb_refl. apply orb_true_r.
  - exact (IH _ key get Hin).
Qed.

Lemma d_nothing_to_define definition exports :
  (forall (key : string) (get : G),
     In (key, (true, get)) definition -> Loader.o exports key = true) ->
  Loader.d exports definition = exports.
Proof.
  induction definition as [|[k [own g]] definition IH]; intros H; [reflexivity|].
  cbn [Loader.d fold_left]. destruct own.
  - rewrite (H k g (or_introl eq_refl)). cbn [andb negb].
    apply IH. intros key get Hin. exact (H key get (or_intror Hin)).
  - cbn [andb]. apply IH. intros key get Hin. exact (H key get (or_intror Hin)).
Qed.

End DefineGetters.

(** X26: [requireModule.d] defines what is missing and overwrites
    nothing.  The exports keep every property they had, with its value or
    getter; each own property of the definition is an own property of the
    exports afterwards, an inherited one is not added; and calling [d]
    again with the same definition changes nothing. *)
Theorem d_defines_without_overwriting
  (V G : Type) (exports : list (string * Loader.property V G))
  (definition : list (string * (bool * G))) :
  (forall key, Loader.o exports key = true ->
               Loader.lookup key (Loader.d exports definition)
               = Loader.lookup key exports) /\
  (forall key get, In (key, (true, get)) definition ->
                   Loader.o (Loader.d exports definition) key = true) /\
  (forall key, Loader.o (Loader.d exports definition) key = true ->
               Loader.o exports key = true
               \/ exists get, In (key, (true, get)) definition) /\
  Loader.d (Loader.d exports definition) definition = Loader.d exports definition.
Proof.
  split; [|split; [|split]].
  - intros key H. destruct (d_appends V G definition exports) as (added & -> & _).
    apply lookup_app_found. unfold Loader.o in H.
    destruct (Loader.lookup key exports); [discriminate | discriminate H].
  - intros key get. apply d_defines_own.
  - revert exports. induction definition as [|[k [own g]] definition IH];
      intros exports key H; [now left|].
    cbn [Loader.d fold_left] in H.
    destruct own; cbn [andb] in H.
    + destruct (Loader.o exports k) eqn:E; cbn [negb] in H.
      * destruct (IH _ _ H) as [Hl|[get Hr]]; [now left|].
        right. exists get. now right.
      * destruct (IH _ _ H) as [Hl|[get Hr]].
        -- rewrite o_app in Hl. apply orb_true_iff in Hl as [Hl|Hl]; [now left|].
           right. exists g. left. unfold Loader.o in Hl. cbn [Loader.lookup] in Hl.
           destruct (String.eqb_spec k key) as [->|]; [reflexivity | discriminate Hl].
        -- right. exists get. now right.
    + destruct (IH _ _ H) as [Hl|[get Hr]]; [now left|].
      right. exists get. now right.
  - apply d_nothing_to_define. intros key get. apply d_defines_own.
Qed.

(* ===================================================================== *)
(** ** AesCtrCipher: what goes in and what comes out *)
(* ===================================================================== *)

(** X27: only falsy data pass through.  Once a key is set, a truthy
    argument that is neither a string nor a byte buffer (a number other
    than 0, [true]) is handed to the platform as it is, which rejects it:
    [encrypt] and [decrypt] throw a [TypeError], and the instance is as
    before. *)
Theorem truthy_non_buffer_is_rejected (secret : value) (self0 : cipher) (r : request) :
  outcome (expandKey secret) self0 = Return true ->
  falsy (argument r) = false ->
  payload (argument r) = None ->
  outcome (invoke r) (after (expandKey secret) self0) = Throw TypeError /\
  after (invoke r) (after (expandKey secret) self0) = after (expandKey secret) self0 /\
  calls (invoke r) (after (expandKey secret) self0)
    = [match r with
       | Encrypt data => CallEncrypt data
       | Decrypt data => CallDecrypt data
       end].
Proof.
  intros Hexp Hf Hp.
  destruct (expandKey_accepted _ _ Hexp) as (keyData & _ & Hrun).
  assert (E : after (expandKey secret) self0
              = mkCipher (Some (mkKey keyData))
                         (mkConfig (alg_name (aesConfig self0))
                                   (alg_length (aesConfig self0))
                                   (Some (firstn 16 keyData))))
    by (unfold after; now rewrite Hrun).
  rewrite !E.
  destruct r as [data|data]; cbn [argument] in Hf, Hp;
    destruct data as [| |b|n|s|bs]; try discriminate Hp; try discriminate Hf;
    unfold outcome, after, calls, run, invoke, encrypt, decrypt, bind, get, log, lift, ret;
    cbn [fst snd cryptoKey]; rewrite Hf; cbn [fst snd aes_ctr app];
    repeat split.
Qed.

Lemma truthy_non_buffer_is_rejected_witness :
  outcome (expandKey (VString (lit "abc"))) AesCtrCipher.create = Return true /\
  falsy (argument (Decrypt (VNumber 5))) = false /\
  payload (argument (Decrypt (VNumber 5))) = None /\
  outcome (invoke (Decrypt (VNumber 5)))
          (after (expandKey (VString (lit "abc"))) AesCtrCipher.create)
    = Throw TypeError.
Proof.
  assert (H : outcome (expandKey (VString (lit "abc"))) AesCtrCipher.create
              = Return true) by (vm_compute; reflexivity).
  split; [exact H|]. split; [reflexivity|]. split; [reflexivity|].
  exact (proj1 (truthy_non_buffer_is_rejected
                  (VString (lit "abc")) AesCtrCipher.create (Decrypt (VNumber 5))
                  H eq_refl eq_refl)).
Defined.

(** X28: the ciphertext is a binary string.  [encrypt] returns one
    character for each byte it was given, a string's bytes being those of
    its UTF-8 encoding, and every character's code is below 256. *)
Theorem ciphertext_is_a_binary_string
  (secret : value) (self0 : cipher) (data : value) (bytes : list byte) :
  alg_length (aesConfig self0) = 128 ->
  outcome (expandKey secret) self0 = Return true ->
  falsy data = false ->
  payload data = Some bytes ->
  exists ciphertext : jsstring,
    outcome (encrypt data) (after (expandKey secret) self0)
      = Return (VString ciphertext) /\
    length ciphertext = length bytes /\
    Forall (fun unit => unit < 256) ciphertext.
Proof.
  intros Hbits Hexp Hf Hp.
  destruct (accepted_instance _ _ Hbits Hexp) as (key & cfg & c & -> & Hc & Hs & Hb & _).
  exists (map fromCharCode (keyed_transform key c bytes)).
  unfold outcome.
  rewrite (encrypt_expanded key cfg c Hc Hs Hb data bytes Hf Hp). cbn [fst].
  split; [reflexivity|]. split.
  - unfold keyed_transform. now rewrite length_map, transform_length.
  - apply Forall_forall. intros u Hu. apply in_map_iff in Hu as (b & <- & _).
    unfold fromCharCode. pose proof (Byte.to_N_bounded b). lia.
Qed.

Lemma ciphertext_is_a_binary_string_witness :
  alg_length (aesConfig AesCtrCipher.create) = 128 /\
  outcome (expandKey (VString (lit "abc"))) AesCtrCipher.create = Return true /\
  falsy (VString [0xE9]) = false /\
  payload (VString [0xE9]) = Some [xc3; xa9] /\
  exists ciphertext : jsstring,
    outcome (encrypt (VString [0xE9]))
            (after (expandKey (VString (lit "abc"))) AesCtrCipher.create)
      = Return (VString ciphertext) /\
    length ciphertext = 2%nat.
Proof.
  assert (H1 : alg_length (aesConfig AesCtrCipher.create) = 128) by reflexivity.
  assert (H2 : outcome (expandKey (VString (lit "abc"))) AesCtrCipher.create
               = Return true) by (vm_compute; reflexivity).
  assert (H3 : payload (VString [0xE9]) = Some [xc3; xa9]) by (vm_compute; reflexivity).
  split; [exact H1|]. split; [exact H2|]. split; [reflexivity|]. split; [exact H3|].
  destruct (ciphertext_is_a_binary_string
              (VString (lit "abc")) AesCtrCipher.create (VString [0xE9]) [xc3; xa9]
              H1 H2 eq_refl H3) as (ciphertext & E & L & _).
  exists ciphertext. split; [exact E | exact L].
Defined.
